(** * easy-obsidian-mcp: the filesystem search engine

    A shallow embedding of [FilesystemSearch] (filesystem-search.ts): content
    search, fuzzy search and the link-graph queries over a vault of markdown
    notes, with the properties of the engine stated and proved on it.

    Conventions of the embedding.
    - Text is [string] over 8-bit characters; [toLowerCase] and the character
      classes of the regular expressions are the ASCII ones.
    - JavaScript numbers that count or index (result caps, depths, context
      sizes, line numbers) are integers, [Z].
    - A [Map<string, Set<string>>] is a [gmap string (list string)]; a [Set]
      is the list of its members in insertion order, since [Array.from] and
      [for ... of] observe that order.
    - A promise that rejects, or a call that throws, is [Rejected]. *)

From Stdlib Require Import String Ascii ZArith List Bool Lia Floats.
From stdpp Require Import gmap strings list fin_maps sorting.

Set Warnings "-clear-no-such-hyp".

Open Scope string_scope.
Open Scope Z_scope.

(** ** Promises and exceptions *)

Inductive outcome (A : Type) : Type :=
| Resolved (a : A)
| Rejected.
Arguments Resolved {A} a.
Arguments Rejected {A}.

Definition obind {A B} (m : outcome A) (k : A -> outcome B) : outcome B :=
  match m with
  | Resolved a => k a
  | Rejected => Rejected
  end.

Definition is_rejected {A} (m : outcome A) : bool :=
  match m with
  | Resolved _ => false
  | Rejected => true
  end.

(** ** The JavaScript primitives the engine calls *)

Module JS.

(** The line feed, ["\n"]. *)
Definition LF : ascii := ascii_of_nat 10.
Definition nl : string := String LF EmptyString.

(** The double quote, written by its code. *)
Definition DQ : ascii := ascii_of_nat 34.

Definition is_upper (c : ascii) : bool :=
  let n := nat_of_ascii c in (65 <=? n)%nat && (n <=? 90)%nat.

Definition is_lower (c : ascii) : bool :=
  let n := nat_of_ascii c in (97 <=? n)%nat && (n <=? 122)%nat.

Definition is_digit (c : ascii) : bool :=
  let n := nat_of_ascii c in (48 <=? n)%nat && (n <=? 57)%nat.

(** [\s]: tab, line feed, vertical tab, form feed, carriage return, space. *)
Definition is_space (c : ascii) : bool :=
  let n := nat_of_ascii c in ((9 <=? n)%nat && (n <=? 13)%nat) || (n =? 32)%nat.

(** [\w]: letters, digits and the underscore. *)
Definition is_word (c : ascii) : bool :=
  is_upper c || is_lower c || is_digit c || Ascii.eqb c "_".

Definition lower_char (c : ascii) : ascii :=
  if is_upper c then ascii_of_nat (nat_of_ascii c + 32) else c.

(** [s.toLowerCase()] *)
Fixpoint toLowerCase (s : string) : string :=
  match s with
  | EmptyString => EmptyString
  | String c s' => String (lower_char c) (toLowerCase s')
  end.

(** [s.startsWith(p)] *)
Fixpoint startsWith (s p : string) {struct p} : bool :=
  match p with
  | EmptyString => true
  | String a p' =>
      match s with
      | EmptyString => false
      | String b s' => Ascii.eqb a b && startsWith s' p'
      end
  end.

(** [s.includes(q)] *)
Fixpoint includes (s q : string) : bool :=
  startsWith s q ||
  match s with
  | EmptyString => false
  | String _ s' => includes s' q
  end.

(** [s.endsWith(p)] *)
Fixpoint endsWith (s p : string) : bool :=
  String.eqb s p ||
  match s with
  | EmptyString => false
  | String _ s' => endsWith s' p
  end.

(** [s.substring(0, n)] and [s.substring(n)] for [0 <= n]. *)
Fixpoint take (n : nat) (s : string) : string :=
  match n, s with
  | S n', String c s' => String c (take n' s')
  | _, _ => EmptyString
  end.

Fixpoint drop (n : nat) (s : string) : string :=
  match n, s with
  | S n', String _ s' => drop n' s'
  | _, _ => s
  end.

(** [s.indexOf(c)] for a one-character [c]; [None] stands for [-1]. *)
Fixpoint indexOf (c : ascii) (s : string) : option nat :=
  match s with
  | EmptyString => None
  | String d s' => if Ascii.eqb d c then Some O else option_map S (indexOf c s')
  end.

(** The text before the first occurrence of [pat] in [s], if there is one. *)
Fixpoint before_first (pat s : string) : option string :=
  if startsWith s pat then Some EmptyString
  else match s with
       | EmptyString => None
       | String c s' => option_map (String c) (before_first pat s')
       end.

(** [s.replace(pat, '')] for a string pattern: the first occurrence only. *)
Fixpoint remove_first (pat s : string) : string :=
  if startsWith s pat then drop (String.length pat) s
  else match s with
       | EmptyString => EmptyString
       | String c s' => String c (remove_first pat s')
       end.

Fixpoint trimStart (s : string) : string :=
  match s with
  | EmptyString => EmptyString
  | String c s' => if is_space c then trimStart s' else s
  end.

Fixpoint trimEnd (s : string) : string :=
  match s with
  | EmptyString => EmptyString
  | String c s' =>
      match trimEnd s' with
      | EmptyString => if is_space c then EmptyString else String c EmptyString
      | t => String c t
      end
  end.

(** [s.trim()] *)
Definition trim (s : string) : string := trimEnd (trimStart s).

(** [s.split('\n')]: never empty, [""] splits to [[""]]. *)
Fixpoint split_lines (s : string) : list string :=
  match s with
  | EmptyString => [EmptyString]
  | String c s' =>
      if Ascii.eqb c LF then EmptyString :: split_lines s'
      else match split_lines s' with
           | l :: ls => String c l :: ls
           | [] => [String c EmptyString]
           end
  end.

(** [s.split(/\s+/)]; [in_run] says the previous character was a space, so
    that a run of spaces separates once. *)
Fixpoint split_spaces_from (in_run : bool) (s : string) : list string :=
  match s with
  | EmptyString => [EmptyString]
  | String c s' =>
      if is_space c
      then (if in_run then split_spaces_from true s'
            else EmptyString :: split_spaces_from true s')
      else match split_spaces_from false s' with
           | p :: ps => String c p :: ps
           | [] => [String c EmptyString]
           end
  end.

Definition split_spaces (s : string) : list string := split_spaces_from false s.

(** [lines.join('\n')] *)
Fixpoint join_lines (ls : list string) : string :=
  match ls with
  | [] => EmptyString
  | [l] => l
  | l :: ls' => l ++ nl ++ join_lines ls'
  end.

(** [a.slice(start, end)] with JavaScript's treatment of negative and
    out-of-range indices. *)
Definition clamp_index (len i : Z) : Z :=
  if i <? 0 then Z.max (len + i) 0 else Z.min i len.

Definition slice {A} (l : list A) (first last : Z) : list A :=
  let len := Z.of_nat (length l) in
  let k := clamp_index len first in
  let f := clamp_index len last in
  firstn (Z.to_nat (f - k)) (skipn (Z.to_nat k) l).

(** A regular expression with the [g] flag, run over the whole text.
    [m s] tries the expression at the start of [s] and answers what the match
    yields and how many characters it spans (at least one); the scan resumes
    after a match and one character further after a failure. [skip] counts
    the characters of the last match still to pass. *)
Fixpoint scan {A} (m : string -> option (A * nat)) (skip : nat) (s : string) : list A :=
  match s with
  | EmptyString => []
  | String _ s' =>
      match skip with
      | S k => scan m k s'
      | O =>
          match m s with
          | Some (a, n) => a :: scan m (Nat.pred n) s'
          | None => scan m O s'
          end
      end
  end.

(** The longest prefix of [s] whose characters satisfy [p], and the rest. *)
Fixpoint span (p : ascii -> bool) (s : string) : string * string :=
  match s with
  | EmptyString => (EmptyString, EmptyString)
  | String c s' =>
      if p c then let '(a, b) := span p s' in (String c a, b)
      else (EmptyString, s)
  end.

(** A [Set<string>] in insertion order: [set.add(x)] and [new Set(xs)]. *)
Definition add (x : string) (s : list string) : list string :=
  if bool_decide (x ∈ s) then s else s ++ [x].

Definition newSet (xs : list string) : list string := fold_left (fun s x => add x s) xs [].

End JS.

(** ** Node's [path] module, POSIX flavour *)

Module Path.

(** [path.sep] *)
Definition sep : string := "/".

(** The components of a path between its slashes. *)
Fixpoint components (p : string) : list string :=
  match p with
  | EmptyString => [EmptyString]
  | String c p' =>
      if Ascii.eqb c "/" then EmptyString :: components p'
      else match components p' with
           | x :: xs => String c x :: xs
           | [] => [String c EmptyString]
           end
  end.

Fixpoint last_nonempty (xs : list string) (found : string) : string :=
  match xs with
  | [] => found
  | x :: xs' => last_nonempty xs' (if String.eqb x EmptyString then found else x)
  end.

(** [path.basename(p)]: the last component, trailing slashes ignored. *)
Definition basename (p : string) : string := last_nonempty (components p) EmptyString.

(** [path.basename(p, ext)] for an extension without a slash: the extension
    is cut from the last component unless it is all of that component; a path
    that is the extension itself gives the empty string. *)
Definition basename_ext (p ext : string) : string :=
  if String.eqb p ext then EmptyString
  else
    let b := basename p in
    if JS.endsWith b ext && negb (String.eqb b ext)
    then JS.take (String.length b - String.length ext) b
    else b.

End Path.


(** ** JSON values

    What [JSON.parse] returns; a front-matter value that is not parsed is a
    [JString]. *)

#[warnings="-register-all"]
Inductive json : Type :=
| JNull
| JBool (b : bool)
| JNumber (n : float)
| JString (s : string)
| JArray (items : list json)
| JObject (members : list (string * json)).

(** The equality of [Set.prototype.add]: primitives by value; every array
    and object that [JSON.parse] builds is a fresh one, equal to no other. *)
Definition sameValueZero (a b : json) : bool :=
  match a, b with
  | JNull, JNull => true
  | JBool x, JBool y => Bool.eqb x y
  | JNumber x, JNumber y => PrimFloat.eqb x y || (PrimFloat.is_nan x && PrimFloat.is_nan y)
  | JString x, JString y => String.eqb x y
  | _, _ => false
  end.

(** [if (value)] *)
Definition truthy (v : json) : bool :=
  match v with
  | JNull => false
  | JBool b => b
  | JNumber n => negb (PrimFloat.eqb n 0%float || PrimFloat.is_nan n)
  | JString s => negb (String.eqb s EmptyString)
  | JArray _ | JObject _ => true
  end.

(** The tag set, a [Set] filled with whatever the front matter holds. *)
Definition tag_add (x : json) (s : list json) : list json :=
  if existsb (sameValueZero x) s then s else s ++ [x].

(** ** The data of the engine *)

(** The members of an object that [JSON.parse] built, and the own
    properties of a front-matter object, in the order in which
    [JSON.stringify] and [Object.keys] go over them; no key stands twice. *)
Definition Properties : Type := list (string * json).

Fixpoint property (key : string) (ps : Properties) : option json :=
  match ps with
  | [] => None
  | (k, x) :: ps' => if String.eqb k key then Some x else property key ps'
  end.

(** The value of a string of decimal digits. *)
Fixpoint digitsValue (s : string) (acc : N) : option N :=
  match s with
  | EmptyString => Some acc
  | String c s' =>
      if JS.is_digit c then digitsValue s' (10 * acc + (N_of_ascii c - 48))%N
      else None
  end.

(** An array index: the canonical decimal form of an integer from 0 to
    2^32 - 2. An object goes over its keys of this kind first, in ascending
    order, whenever they were set. *)
Definition arrayIndex (key : string) : option N :=
  match key with
  | EmptyString => None
  | String c rest =>
      if Ascii.eqb c "0" && negb (String.eqb rest EmptyString) then None
      else
        match digitsValue key 0 with
        | Some n => if (n <=? 4294967294)%N then Some n else None
        | None => None
        end
  end.

(** A new property with the index [n] goes before the first property that
    is no index or a greater one. *)
Fixpoint insertIndex (n : N) (key : string) (value : json) (ps : Properties) : Properties :=
  match ps with
  | [] => [(key, value)]
  | (k, x) :: ps' =>
      match arrayIndex k with
      | Some m =>
          if (m <? n)%N then (k, x) :: insertIndex n key value ps'
          else (key, value) :: ps
      | None => (key, value) :: ps
      end
  end.

(** A new own property: an array index among the indices, any other key at
    the end. *)
Definition addProperty (key : string) (value : json) (ps : Properties) : Properties :=
  match arrayIndex key with
  | Some n => insertIndex n key value ps
  | None => (ps ++ [(key, value)])%list
  end.

(** The value of a property that exists is replaced where it stands. *)
Fixpoint replaceProperty (key : string) (value : json) (ps : Properties) : Properties :=
  match ps with
  | [] => []
  | (k, x) :: ps' =>
      if String.eqb k key then (k, value) :: ps' else (k, x) :: replaceProperty key value ps'
  end.

(** What a front-matter object inherits from: [Object.prototype] as the
    object literal [{}] gives it, nothing after [null] was assigned to
    [__proto__], or an array or object of [JSON.parse] that was. *)
Inductive Prototype : Type :=
| ObjectPrototype
| NullPrototype
| ParsedPrototype (value : json).

(** A front-matter object: its own properties and its prototype. *)
Record Frontmatter : Type := mkFrontmatter {
  properties : Properties;
  prototype : Prototype
}.

(** [{}] *)
Definition emptyObject : Frontmatter := mkFrontmatter [] ObjectPrototype.

(** An assignment to [__proto__] gets to the setter of [Object.prototype]
    unless the chain of prototypes ends before it or an object of
    [JSON.parse] in the chain has a property of this name of its own. *)
Definition reachesProtoSetter (p : Prototype) : bool :=
  match p with
  | ObjectPrototype => true
  | NullPrototype => false
  | ParsedPrototype (JObject members) =>
      match property "__proto__" members with
      | Some _ => false
      | None => true
      end
  | ParsedPrototype _ => true
  end.

(** [result[key] = value]. An own property is written to. Otherwise the
    key [__proto__] is taken by the setter of [Object.prototype], when the
    assignment gets to it: the setter makes an array or object value the
    prototype, [null] removes the prototype, and any other value is
    dropped. Every other assignment makes a new own property: all that the
    object can inherit under another name is writable data. *)
Definition fm_set (key : string) (value : json) (fm : Frontmatter) : Frontmatter :=
  match property key (properties fm) with
  | Some _ => mkFrontmatter (replaceProperty key value (properties fm)) (prototype fm)
  | None =>
      if String.eqb key "__proto__" && reachesProtoSetter (prototype fm) then
        match value with
        | JArray _ | JObject _ => mkFrontmatter (properties fm) (ParsedPrototype value)
        | JNull => mkFrontmatter (properties fm) NullPrototype
        | _ => fm
        end
      else mkFrontmatter (addProperty key value (properties fm)) (prototype fm)
  end.

(** [frontmatter[key]] for a key that [Object.prototype] and
    [Array.prototype] do not hold, as [tags]: the own property, or the one
    of an object that is the prototype. *)
Definition fm_get (key : string) (fm : Frontmatter) : option json :=
  match property key (properties fm) with
  | Some x => Some x
  | None =>
      match prototype fm with
      | ParsedPrototype (JObject members) => property key members
      | _ => None
      end
  end.

Record Match : Type := mkMatch {
  line : Z;
  content : string;
  context : string
}.

Record FilesystemSearchResult : Type := mkResult {
  filename : string;
  path : string;
  matches : list Match;
  frontmatter : Frontmatter
}.

Record GraphSearchResult : Type := mkGraphResult {
  node_filename : string;
  node_path : string;
  outgoingLinks : list string;
  incomingLinks : list string;
  tags : list json;
  node_frontmatter : Frontmatter
}.

Inductive SearchType : Type :=
| ByContent
| ByFilename
| ByTags
| ByLinks
| ByFrontmatter.

(** The options; an absent field takes its default in the operation. *)
Record SearchOptions : Type := mkSearchOptions {
  query : string;
  maxResults : option Z;
  contextLines : option Z;
  includeContent : option bool;
  searchType : option SearchType
}.

Record GraphSearchOptions : Type := mkGraphSearchOptions {
  maxDepth : option Z;
  startFile : option string;
  includeOrphans : option bool
}.

(** The vault as the engine sees it: what the directory walk of
    [getAllMarkdownFiles] yields (the root-relative paths of the [.md] files
    outside hidden entries and [node_modules], in walk order, or a failure of
    [readdir]), and what [fs.readFile] answers for a path under the root. *)
Record Vault : Type := mkVault {
  listing : outcome (list string);
  readFile : string -> outcome string
}.

(** The two caches of a [FilesystemSearch] object. *)
Record LinkGraph : Type := mkLinkGraph {
  linkCache : gmap string (list string);
  backlinksCache : gmap string (list string)
}.

(** ** The engine *)

Section FilesystemSearch.

(** [JSON.parse] ([None] when it throws) and [JSON.stringify], as the
    JavaScript runtime provides them. *)
Variable JSON_parse : string -> option json.
Variable JSON_stringify : json -> string.

Definition getAllMarkdownFiles (v : Vault) : outcome (list string) := listing v.

(** *** extractFrontmatter *)

(** The capture of [/^---\n([\s\S]*?)\n---/]. *)
Definition frontmatterRegex (content : string) : option string :=
  if JS.startsWith content ("---" ++ JS.nl)
  then JS.before_first (JS.nl ++ "---") (JS.drop 4 content)
  else None.

Definition is_quote (c : ascii) : bool := Ascii.eqb c JS.DQ || Ascii.eqb c "'".

Definition dropFirstQuote (s : string) : string :=
  match s with
  | String c s' => if is_quote c then s' else s
  | EmptyString => EmptyString
  end.

Fixpoint dropLastQuote (s : string) : string :=
  match s with
  | EmptyString => EmptyString
  | String c s' =>
      match s' with
      | EmptyString => if is_quote c then EmptyString else s
      | String _ _ => String c (dropLastQuote s')
      end
  end.

(** [value.replace(/^["']|["']$/g, '')] *)
Definition stripQuotes (value : string) : string := dropLastQuote (dropFirstQuote value).

(** The body of the loop over the lines of the block. *)
Definition frontmatterLine (result : Frontmatter) (line : string) : Frontmatter :=
  match JS.indexOf ":" line with
  | Some (S i) =>
      let colonIndex := S i in
      let key := JS.trim (JS.take colonIndex line) in
      let value := JS.trim (JS.drop (S colonIndex) line) in
      let cleanValue := stripQuotes value in
      if JS.startsWith cleanValue "[" || JS.startsWith cleanValue "{" then
        match JSON_parse cleanValue with
        | Some parsed => fm_set key parsed result
        | None => fm_set key (JString cleanValue) result
        end
      else fm_set key (JString cleanValue) result
  | _ => result
  end.

Definition extractFrontmatter (content : string) : Frontmatter :=
  match frontmatterRegex content with
  | None => emptyObject
  | Some yaml => fold_left frontmatterLine (JS.split_lines yaml) emptyObject
  end.

(** *** extractTags *)

Definition is_tag_char (c : ascii) : bool :=
  JS.is_word c || Ascii.eqb c "-" || Ascii.eqb c "_" || Ascii.eqb c "/".

(** [/#[\w\-\_\/]+/] tried at the start of [s]. *)
Definition tagRegex (s : string) : option (string * nat) :=
  match s with
  | String c r =>
      if Ascii.eqb c "#" then
        match JS.span is_tag_char r with
        | (EmptyString, _) => None
        | (run, _) => Some (String "#" run, S (String.length run))
        end
      else None
  | EmptyString => None
  end.

Definition frontmatterTags (fm : Frontmatter) : list json :=
  match fm_get "tags" fm with
  | Some value =>
      if truthy value then
        match value with
        | JArray items => fold_left (fun s tag => tag_add tag s) items []
        | JString s => [JString s]
        | _ => []
        end
      else []
  | None => []
  end.

Definition inlineTags (content : string) : list string := JS.scan tagRegex O content.

Definition extractTags (content : string) : list json :=
  fold_left (fun s tag => tag_add (JString tag) s) (inlineTags content)
    (frontmatterTags (extractFrontmatter content)).

(** *** extractLinks *)

(** [[^\]]] *)
Definition not_close (c : ascii) : bool := negb (Ascii.eqb c "]").

(** [/\[\[([^\]]+)\]\]/] tried at the start of [s]: the capture and the
    length of the match. *)
Definition linkRegex (s : string) : option (string * nat) :=
  match s with
  | String a (String b r) =>
      if Ascii.eqb a "[" && Ascii.eqb b "[" then
        match JS.span not_close r with
        | (String c run, String d (String e _)) =>
            if Ascii.eqb d "]" && Ascii.eqb e "]"
            then Some (String c run, (4 + String.length (String c run))%nat)
            else None
        | _ => None
        end
      else None
  | _ => None
  end.

Definition extractLinks (content : string) : list string := JS.scan linkRegex O content.

(** *** buildLinkGraph *)

(** The file a link names: [files.find(f => ...)]. *)
Definition resolveLink (files : list string) (link : string) : option string :=
  List.find
    (fun f =>
       String.eqb (Path.basename_ext f ".md") link
       || String.eqb f (link ++ ".md")
       || JS.endsWith f (Path.sep ++ link ++ ".md"))
    files.

(** The body of the loop over the links of [file]. *)
Definition addBacklink (files : list string) (file : string)
    (backlinks : gmap string (list string)) (link : string) : gmap string (list string) :=
  match resolveLink files link with
  | Some linkedFile =>
      if String.eqb linkedFile EmptyString then backlinks
      else
        let backlinks' :=
          match backlinks !! linkedFile with
          | Some _ => backlinks
          | None => <[linkedFile := []]> backlinks
          end in
        alter (JS.add file) linkedFile backlinks'
  | None => backlinks
  end.

(** The body of the loop over the files. *)
Definition indexFile (v : Vault) (files : list string) (g : LinkGraph) (file : string) : LinkGraph :=
  match readFile v file with
  | Resolved content =>
      let links := extractLinks content in
      {| linkCache := <[file := JS.newSet links]> (linkCache g);
         backlinksCache := fold_left (addBacklink files file) links (backlinksCache g) |}
  | Rejected => g
  end.

Definition emptyGraph : LinkGraph := {| linkCache := ∅; backlinksCache := ∅ |}.

Definition buildLinkGraph (v : Vault) : outcome LinkGraph :=
  obind (getAllMarkdownFiles v) (fun files =>
  Resolved (fold_left (indexFile v files) files emptyGraph)).

(** *** isConnected *)

(** [this.linkCache.get(file) || new Set()] and the same for backlinks. *)
Definition linksOf (g : LinkGraph) (file : string) : list string :=
  default [] (linkCache g !! file).

Definition backlinksOf (g : LinkGraph) (file : string) : list string :=
  default [] (backlinksCache g !! file).

(** The number of members of all the sets of a cache. *)
Definition members (m : gmap string (list string)) : nat :=
  sum_list_with (fun kv => length kv.2) (map_to_list m).

(** The [while] loop over the queue. Every turn takes one entry off the
    queue, and only the first visit of a file adds entries, as many as the
    file has links and backlinks; [fuel] bounds the turns, and
    [S (members (linkCache g) + members (backlinksCache g))] turns are enough
    ([bfs_enough_fuel]). *)
Fixpoint bfs (g : LinkGraph) (file2 : string) (maxDepth : Z) (fuel : nat)
    (visited : gset string) (queue : list (string * Z)) {struct fuel} : option bool :=
  match queue with
  | [] => Some false
  | (file, depth) :: queue' =>
      match fuel with
      | O => None
      | S fuel' =>
          if String.eqb file file2 then Some true
          else if depth >=? maxDepth then bfs g file2 maxDepth fuel' visited queue'
          else if bool_decide (file ∈ visited) then bfs g file2 maxDepth fuel' visited queue'
          else
            bfs g file2 maxDepth fuel' ({[file]} ∪ visited)
              (queue' ++ map (fun link => (link, depth + 1)) (linksOf g file)
                      ++ map (fun backlink => (backlink, depth + 1)) (backlinksOf g file))
      end
  end.

Definition bfsFuel (g : LinkGraph) : nat :=
  S (members (linkCache g) + members (backlinksCache g)).

Definition isConnected (g : LinkGraph) (file1 file2 : string) (maxDepth : Z) : bool :=
  if String.eqb file1 file2 then true
  else if maxDepth <=? 0 then false
  else
    match bfs g file2 maxDepth (bfsFuel g) ∅ [(file1, 0)] with
    | Some found => found
    | None => false
    end.

(** *** searchFile *)

(** [tags.some(tag => tag.toLowerCase().includes(queryLower))]; a tag that is
    not a string has no [toLowerCase], and the call throws when it gets to
    one. *)
Fixpoint someTag (queryLower : string) (ts : list json) : outcome bool :=
  match ts with
  | [] => Resolved false
  | JString tag :: ts' =>
      if JS.includes (JS.toLowerCase tag) queryLower then Resolved true
      else someTag queryLower ts'
  | _ :: _ => Rejected
  end.

(** The [switch] over the search type: whether the file is kept. *)
Definition selected (fileName content queryLower : string) (kind : SearchType) : outcome bool :=
  match kind with
  | ByFilename => Resolved (JS.includes (JS.toLowerCase fileName) queryLower)
  | ByTags => someTag queryLower (extractTags content)
  | ByLinks =>
      Resolved (existsb (fun link => JS.includes (JS.toLowerCase link) queryLower)
                  (extractLinks content))
  | ByFrontmatter =>
      Resolved (JS.includes
                  (JS.toLowerCase
                     (JSON_stringify (JObject (properties (extractFrontmatter content)))))
                  queryLower)
  | ByContent => Resolved (JS.includes (JS.toLowerCase content) queryLower)
  end.

(** The loop over the lines: [rest] are the lines from index [i] on. *)
Fixpoint contextMatches (lines : list string) (queryLower : string) (ctx : Z)
    (i : Z) (rest : list string) : list Match :=
  match rest with
  | [] => []
  | l :: rest' =>
      if JS.includes (JS.toLowerCase l) queryLower then
        let startLine := Z.max 0 (i - ctx) in
        let endLine := Z.min (Z.of_nat (length lines) - 1) (i + ctx) in
        mkMatch (i + 1) l (JS.join_lines (JS.slice lines startLine (endLine + 1)))
          :: contextMatches lines queryLower ctx (i + 1) rest'
      else contextMatches lines queryLower ctx (i + 1) rest'
  end.

Definition searchFile (filePath content queryText : string) (kind : SearchType)
    (ctx : Z) (withContent : bool) : outcome (option FilesystemSearchResult) :=
  let fileName := Path.basename filePath in
  let queryLower := JS.toLowerCase queryText in
  obind (selected fileName content queryLower kind) (fun keep =>
  if keep then
    let found :=
      if withContent &&
         match kind with ByContent | ByFilename => true | _ => false end
      then let lines := JS.split_lines content in
           contextMatches lines queryLower ctx 0 lines
      else [] in
    Resolved (Some (mkResult fileName filePath found (extractFrontmatter content)))
  else Resolved None).

(** *** search *)

(** The loop over the files; [results] is the array filled so far. *)
Fixpoint searchLoop (v : Vault) (queryText : string) (cap ctx : Z) (withContent : bool)
    (kind : SearchType) (files : list string) (results : list FilesystemSearchResult)
    : list FilesystemSearchResult :=
  match files with
  | [] => results
  | file :: files' =>
      if Z.of_nat (length results) >=? cap then results
      else
        match obind (readFile v file) (fun content =>
                searchFile file content queryText kind ctx withContent) with
        | Resolved (Some r) =>
            searchLoop v queryText cap ctx withContent kind files' (results ++ [r])
        | Resolved None | Rejected =>
            searchLoop v queryText cap ctx withContent kind files' results
        end
  end.

Definition search (v : Vault) (options : SearchOptions) : outcome (list FilesystemSearchResult) :=
  let cap := default 20 (maxResults options) in
  let ctx := default 2 (contextLines options) in
  let withContent := default true (includeContent options) in
  let kind := default ByContent (searchType options) in
  obind (getAllMarkdownFiles v) (fun files =>
  Resolved (searchLoop v (query options) cap ctx withContent kind files [])).

(** *** graphSearch *)

(** The body of the loop over the files: the entry pushed for [file], if
    any. *)
Definition graphEntry (v : Vault) (g : LinkGraph) (depth : Z) (seed : option string)
    (orphans : bool) (file : string) : option GraphSearchResult :=
  match readFile v file with
  | Resolved content =>
      let fm := extractFrontmatter content in
      let ts := extractTags content in
      let outgoing := linksOf g file in
      let incoming := backlinksOf g file in
      if match seed with
         | Some start =>
             negb (String.eqb start EmptyString) && negb (isConnected g file start depth)
         | None => false
         end
      then None
      else if negb orphans && (length outgoing =? 0)%nat && (length incoming =? 0)%nat
      then None
      else Some (mkGraphResult (Path.basename file) file outgoing incoming ts fm)
  | Rejected => None
  end.

Definition graphSearch (v : Vault) (options : GraphSearchOptions) : outcome (list GraphSearchResult) :=
  let depth := default 2 (maxDepth options) in
  let orphans := default false (includeOrphans options) in
  obind (buildLinkGraph v) (fun g =>
  obind (getAllMarkdownFiles v) (fun files =>
  Resolved (omap (graphEntry v g depth (startFile options) orphans) files))).

(** *** fuzzySearch *)

Record Scored : Type := mkScored {
  file : string;
  score : Z;
  result : FilesystemSearchResult
}.

(** The three signals of the file name. *)
Definition filenameScore (queryLower : string) (queryParts : list string) (fileName : string) : Z :=
  (if String.eqb (JS.remove_first ".md" fileName) queryLower then 100 else 0)
  + (if JS.includes fileName queryLower then 50 else 0)
  + (if forallb (fun part => JS.includes fileName part) queryParts then 30 else 0).

(** The two signals of the content. *)
Definition contentScore (queryLower : string) (queryParts : list string) (contentLower : string) : Z :=
  (if JS.includes contentLower queryLower then 20 else 0)
  + (if forallb (fun part => JS.includes contentLower part) queryParts then 10 else 0).

(** The loop that collects at most three matching lines, each with one line
    of context before and after; [found] are the matches pushed so far. *)
Fixpoint fuzzyMatches (lines : list string) (queryLower : string) (i : Z)
    (rest : list string) (found : list Match) : list Match :=
  match rest with
  | [] => found
  | l :: rest' =>
      if JS.includes (JS.toLowerCase l) queryLower then
        let found' :=
          (found ++ [mkMatch (i + 1) l
                       (JS.join_lines
                          (JS.slice lines (Z.max 0 (i - 1))
                             (Z.min (Z.of_nat (length lines)) (i + 2))))])%list in
        if (3 <=? length found')%nat then found'
        else fuzzyMatches lines queryLower (i + 1) rest' found'
      else fuzzyMatches lines queryLower (i + 1) rest' found
  end.

(** The body of the loop over the files: what is pushed on [scored]. *)
Definition scoreFile (v : Vault) (queryLower : string) (queryParts : list string)
    (f : string) : option Scored :=
  let fileName := JS.toLowerCase (Path.basename f) in
  let fromName := filenameScore queryLower queryParts fileName in
  match readFile v f with
  | Resolved content =>
      let total := fromName + contentScore queryLower queryParts (JS.toLowerCase content) in
      if total >? 0 then
        let lines := JS.split_lines content in
        Some (mkScored f total
                (mkResult (Path.basename f) f (fuzzyMatches lines queryLower 0 lines [])
                   (extractFrontmatter content)))
      else None
  | Rejected => None
  end.

(** [scored.sort((a, b) => b.score - a.score)]: the sort is stable, so an
    entry goes behind every earlier one of a score at least its own. *)
Fixpoint insertScored (x : Scored) (l : list Scored) : list Scored :=
  match l with
  | [] => [x]
  | y :: l' => if score y >=? score x then y :: insertScored x l' else x :: l
  end.

Definition sortScored (l : list Scored) : list Scored :=
  fold_left (fun sorted x => insertScored x sorted) l [].

Definition fuzzySearch (v : Vault) (queryText : string) (cap : option Z)
    : outcome (list FilesystemSearchResult) :=
  let queryLower := JS.toLowerCase queryText in
  let queryParts := JS.split_spaces queryLower in
  obind (getAllMarkdownFiles v) (fun files =>
  let scored := sortScored (omap (scoreFile v queryLower queryParts) files) in
  Resolved (map result (JS.slice scored 0 (default 10 cap)))).

End FilesystemSearch.

(** ** A runtime for the examples

    The theorems of the engine hold for every [JSON.parse] and
    [JSON.stringify]. The examples run it with the two below: [parse] reads a
    flat array of string literals without escapes, the one shape of JSON the
    front matter of the examples holds, and throws on any other text;
    [stringify] writes strings, arrays and objects of them back, without
    escapes. *)

Module Host.

Inductive state : Type :=
| AtStart
| AfterOpen
| InLiteral (acc : string)
| AfterLiteral
| AfterComma
| AtEnd.

Definition is_json_space (c : ascii) : bool :=
  Ascii.eqb c " " || Ascii.eqb c JS.LF || Ascii.eqb c (ascii_of_nat 9)
  || Ascii.eqb c (ascii_of_nat 13).

Fixpoint run (st : state) (items : list json) (s : string) : option json :=
  match s with
  | EmptyString =>
      match st with
      | AtEnd => Some (JArray items)
      | _ => None
      end
  | String c s' =>
      match st with
      | AtStart =>
          if is_json_space c then run AtStart items s'
          else if Ascii.eqb c "[" then run AfterOpen items s'
          else None
      | AfterOpen =>
          if is_json_space c then run AfterOpen items s'
          else if Ascii.eqb c "]" then run AtEnd items s'
          else if Ascii.eqb c JS.DQ then run (InLiteral EmptyString) items s'
          else None
      | InLiteral acc =>
          if Ascii.eqb c JS.DQ then run AfterLiteral (items ++ [JString acc]) s'
          else if Ascii.eqb c "\" || (nat_of_ascii c <? 32)%nat then None
          else run (InLiteral (acc ++ String c EmptyString)) items s'
      | AfterLiteral =>
          if is_json_space c then run AfterLiteral items s'
          else if Ascii.eqb c "," then run AfterComma items s'
          else if Ascii.eqb c "]" then run AtEnd items s'
          else None
      | AfterComma =>
          if is_json_space c then run AfterComma items s'
          else if Ascii.eqb c JS.DQ then run (InLiteral EmptyString) items s'
          else None
      | AtEnd => if is_json_space c then run AtEnd items s' else None
      end
  end.

Definition parse (text : string) : option json := run AtStart [] text.

Definition quoted (s : string) : string :=
  String JS.DQ s ++ String JS.DQ EmptyString.

Fixpoint commas (parts : list string) : string :=
  match parts with
  | [] => EmptyString
  | [p] => p
  | p :: parts' => p ++ "," ++ commas parts'
  end.

Definition stringifyItem (v : json) : string :=
  match v with
  | JString s => quoted s
  | _ => "null"
  end.

Definition stringifyValue (v : json) : string :=
  match v with
  | JString s => quoted s
  | JArray items => "[" ++ commas (map stringifyItem items) ++ "]"
  | _ => "null"
  end.

Definition stringify (v : json) : string :=
  match v with
  | JObject members =>
      "{" ++ commas (map (fun kv => quoted kv.1 ++ ":" ++ stringifyValue kv.2) members) ++ "}"
  | _ => stringifyValue v
  end.

End Host.

(** ** Example vaults *)

(** A vault of the given notes, listed in the given order; a note whose read
    fails is given as [Rejected], and no other path can be read. *)
Definition vaultOf (notes : list (string * outcome string)) : Vault :=
  mkVault (Resolved (map fst notes))
    (fun p =>
       match List.find (fun note => String.eqb note.1 p) notes with
       | Some note => note.2
       | None => Rejected
       end).

(** [A.md] links to [B], [B.md] has no link, [C.md] links to a note that
    does not exist. *)
Definition threeNotes : Vault :=
  vaultOf [("A.md", Resolved "[[B]]"); ("B.md", Resolved ""); ("C.md", Resolved "[[Missing]]")].

(** [A.md] links to [B.md], which links to nothing. *)
Definition twoNotes : Vault :=
  vaultOf [("A.md", Resolved "[[B]]"); ("B.md", Resolved "")].

(** A note [foo.md] whose one line holds its own name. *)
Definition fooNote : Vault := vaultOf [("foo.md", Resolved "Foo bar")].

Definition byFilename (queryText : string) (withContent : option bool) : SearchOptions :=
  mkSearchOptions queryText None None withContent (Some ByFilename).

(** Two notes of the name [B] in two folders, the first of which cannot be
    read, and a note that links to [B]. *)
Definition shadowedNote : Vault :=
  vaultOf [("A.md", Resolved "[[B]]"); ("x/B.md", Rejected); ("y/B.md", Resolved "")].

(** [Claude.md] is empty; [Other.md] holds the word once. *)
Definition claudeNotes : Vault :=
  vaultOf [("Other.md", Resolved "the word claude once"); ("Claude.md", Resolved "")].

(** The entries of [graphSearch] for the three notes. *)
Definition noteA : GraphSearchResult := mkGraphResult "A.md" "A.md" ["B"] [] [] emptyObject.
Definition noteB : GraphSearchResult := mkGraphResult "B.md" "B.md" [] ["A.md"] [] emptyObject.
Definition noteC : GraphSearchResult := mkGraphResult "C.md" "C.md" ["Missing"] [] [] emptyObject.

(** ** The vocabulary of the properties *)

(** The members of the sets of a cache that belong to files not yet
    visited. *)
Definition unvisited (visited : gset string) (m : gmap string (list string)) : nat :=
  sum_list_with (fun kv => length kv.2)
    (filter (fun kv => kv.1 ∉ visited) (map_to_list m)).

(** Every character of [s] satisfies [p]. *)
Fixpoint all_chars (p : ascii -> bool) (s : string) : bool :=
  match s with
  | EmptyString => true
  | String c s' => p c && all_chars p s'
  end.

(** The text opens no link: it holds no [[[] and does not end with [[]. *)
Definition opensNoLink (text : string) : bool :=
  negb (JS.includes text "[[") && negb (JS.endsWith text "[").

(** A note body: stretches of text, each followed by the link [[[target]]],
    and a last stretch of text. *)
Fixpoint render (segments : list (string * string)) (last : string) : string :=
  match segments with
  | [] => last
  | (text, target) :: segments' => text ++ "[[" ++ target ++ "]]" ++ render segments' last
  end.

(** The character is not [x]. *)
Definition not_char (x c : ascii) : bool := negb (Ascii.eqb c x).

(** A note with the word [w] as its front-matter tag and as an inline tag. *)
Definition taggedBothWays (w : string) : string :=
  "---" ++ JS.nl ++ "tags: " ++ w ++ JS.nl ++ "---" ++ JS.nl ++ "#" ++ w.

(** The text of an array with the one string [w], as [JSON.parse] reads
    it. *)
Definition arrayOf (w : string) : string :=
  "[" ++ String JS.DQ w ++ String JS.DQ "]".

(** A note with the word [w] in the array of its front-matter [tags] field
    and as an inline tag. *)
Definition taggedInArray (w : string) : string :=
  "---" ++ JS.nl ++ "tags: " ++ arrayOf w ++ JS.nl ++ "---" ++ JS.nl ++ "#" ++ w.

(** The file can be read. *)
Definition readable (v : Vault) (f : string) : bool := negb (is_rejected (readFile v f)).

(** The vault without the files that cannot be read. *)
Definition withoutUnreadable (v : Vault) : Vault :=
  mkVault
    (match listing v with
     | Resolved files => Resolved (List.filter (readable v) files)
     | Rejected => Rejected
     end)
    (readFile v).

(** [x] may stand before [y]: its score is not below. *)
Definition byScore (x y : Scored) : Prop := score y <= score x.

(** The scored entries in the order of the ranking, cut at the cap:
    [fuzzySearch] returns their results. *)
Definition ranking (JSON_parse : string -> option json) (v : Vault) (files : list string)
    (queryText : string) (cap : option Z) : list Scored :=
  let queryLower := JS.toLowerCase queryText in
  JS.slice (sortScored (omap (scoreFile JSON_parse v queryLower (JS.split_spaces queryLower)) files))
    0 (default 10 cap).

(** One hop of the traversal of [isConnected]: from a file to a member of
    its forward set or of its backlinks. *)
Definition edge (g : LinkGraph) (x y : string) : Prop :=
  y ∈ linksOf g x \/ y ∈ backlinksOf g x.

(** [n] hops lead from the first file to the second. *)
Inductive hops (g : LinkGraph) : nat -> string -> string -> Prop :=
| hops_here (x : string) : hops g O x x
| hops_step (n : nat) (x y z : string) : edge g x y -> hops g n y z -> hops g (S n) x z.

(** The file [y] is in reach at depth [d]: it waits in the queue at a depth
    of [d] or less, or it was visited at such a depth ([level] records the
    depth at which each visited file was taken off the queue). *)
Definition present (level : gmap string Z) (queue : list (string * Z)) (y : string) (d : Z) : Prop :=
  (exists d', (y, d') ∈ queue /\ d' <= d) \/ (exists k, level !! y = Some k /\ k <= d).

(** What the loop of [isConnected] keeps while it has not found [file2]. *)
Record bfs_inv (g : LinkGraph) (file1 file2 : string) (maxDepth : Z)
    (level : gmap string Z) (queue : list (string * Z)) : Prop := mk_bfs_inv {
  inv_root : present level queue file1 0;
  inv_target : level !! file2 = None;
  inv_edges : forall x k y,
    level !! x = Some k -> edge g x y ->
    present level queue y (k + 1) \/ (y <> file2 /\ maxDepth <= k + 1);
  inv_mono : forall x k y d, level !! x = Some k -> (y, d) ∈ queue -> k <= d;
  inv_sorted : StronglySorted (fun p q : string * Z => p.2 <= q.2) queue;
  inv_spread : forall p q, p ∈ queue -> q ∈ queue -> q.2 <= p.2 + 1
}.

(** What the loop of [search] pushes for a file: the result of [searchFile]
    on its text; nothing when the file cannot be read, when it does not pass
    the test of the search type, or when that test throws. *)
Definition hit (JSON_parse : string -> option json) (JSON_stringify : json -> string)
    (v : Vault) (queryText : string) (ctx : Z) (withContent : bool) (kind : SearchType)
    (file : string) : option FilesystemSearchResult :=
  match obind (readFile v file) (fun content =>
          searchFile JSON_parse JSON_stringify file content queryText kind ctx withContent) with
  | Resolved (Some r) => Some r
  | Resolved None | Rejected => None
  end.

(** The line of a match with its neighbourhood: [before] lines before it and
    [after] lines after it, as far as the file has them, joined by line
    feeds. [pre] and [post] are the lines of the file before and after the
    line. *)
Definition window (before after : nat) (pre : list string) (l : string) (post : list string)
    : string :=
  JS.join_lines (drop (length pre - before) pre ++ l :: take after post).

(** [m] is the record of a line of [lines]: its number counts from one, its
    content is the line, and its context is the line with [before] lines
    before it and [after] lines after it. *)
Definition matchOf (lines : list string) (before after : nat) (m : Match) : Prop :=
  exists pre post,
    lines = (pre ++ content m :: post)%list
    /\ line m = Z.of_nat (length pre) + 1
    /\ context m = window before after pre (content m) post.

(** A note of six lines, four of which hold the word [tea]. *)
Definition diary : Vault :=
  vaultOf [("diary.md",
            Resolved ("tea" ++ JS.nl ++ "no" ++ JS.nl ++ "Tea time" ++ JS.nl ++ "x"
                      ++ JS.nl ++ "green tea" ++ JS.nl ++ "tea again"))].

(** The entries of the score [s], in their order. *)
Definition withScore (s : Z) (l : list Scored) : list Scored :=
  List.filter (fun x => score x =? s) l.

(** No file of the list passes the test of the exact name for the empty
    query. *)
Definition noEmptyName (files : list string) : bool :=
  forallb (fun f =>
    negb (String.eqb (JS.remove_first ".md" (JS.toLowerCase (Path.basename f))) EmptyString))
    files.

(** ** The directory walk of getAllMarkdownFiles

    [listing] of a vault on disk is what the walk below yields. *)

(** An entry of a directory as [readdir] with [withFileTypes] gives it: a
    file, a directory with what [readdir] answers for it in its turn, or an
    entry of another kind (a symbolic link, a socket). The name of an entry
    is one component of a path: it holds no slash. *)
#[warnings="-register-all"]
Inductive Dirent : Type :=
| FileEntry (name : string)
| DirectoryEntry (name : string) (entries : outcome (list Dirent))
| OtherEntry (name : string).

Definition entryName (entry : Dirent) : string :=
  match entry with
  | FileEntry name | DirectoryEntry name _ | OtherEntry name => name
  end.

(** [entry.name.startsWith('.') || entry.name === 'node_modules'] *)
Definition skipped (name : string) : bool :=
  JS.startsWith name "." || String.eqb name "node_modules".

(** [path.relative(baseDir, path.join(dir, name))], where [dir] is given by
    its own path relative to [baseDir], the empty string for [baseDir]
    itself. *)
Definition joinRelative (dir name : string) : string :=
  if String.eqb dir EmptyString then name else dir ++ Path.sep ++ name.

(** The body of the loop of [walk] over the entries of [dir]; the
    inner loop is the call of [walk] for a directory, after its [readdir]
    has answered. A [readdir] that fails ends the walk. *)
Fixpoint walkEntry (dir : string) (entry : Dirent) (files : list string) {struct entry}
    : outcome (list string) :=
  if skipped (entryName entry) then Resolved files
  else
    match entry with
    | DirectoryEntry name (Resolved entries) =>
        (fix loop (entries : list Dirent) (files : list string) {struct entries}
           : outcome (list string) :=
           match entries with
           | [] => Resolved files
           | e :: entries' =>
               obind (walkEntry (joinRelative dir name) e files) (loop entries')
           end) entries files
    | DirectoryEntry _ Rejected => Rejected
    | FileEntry name =>
        if JS.endsWith name ".md" then Resolved (files ++ [joinRelative dir name])%list
        else Resolved files
    | OtherEntry _ => Resolved files
    end.

(** The loop over the entries of [dir]. *)
Fixpoint walkEntries (dir : string) (entries : list Dirent) (files : list string)
    : outcome (list string) :=
  match entries with
  | [] => Resolved files
  | e :: entries' => obind (walkEntry dir e files) (walkEntries dir entries')
  end.

(** [walk(dir, baseDir)], given what [readdir(dir)] answers. *)
Definition walk (dir : string) (entries : outcome (list Dirent)) (files : list string)
    : outcome (list string) :=
  obind entries (fun entries => walkEntries dir entries files).

(** [getAllMarkdownFiles] over the tree under the root of the vault. *)
Definition walkVault (root : outcome (list Dirent)) : outcome (list string) :=
  walk EmptyString root [].

(** The vault on disk: the tree under its root and the texts of its files. *)
Definition diskVault (root : outcome (list Dirent)) (read : string -> outcome string) : Vault :=
  mkVault (walkVault root) read.

(** No name in the tree holds a slash. *)
Fixpoint plainNames (entry : Dirent) : bool :=
  all_chars (not_char "/") (entryName entry)
  && match entry with
     | DirectoryEntry _ (Resolved entries) => forallb plainNames entries
     | _ => true
     end.

(** The walk comes to a directory that cannot be read: the entry is not
    skipped and is such a directory, or holds an entry of which this is
    true. *)
Fixpoint readFailure (entry : Dirent) : bool :=
  negb (skipped (entryName entry))
  && match entry with
     | DirectoryEntry _ Rejected => true
     | DirectoryEntry _ (Resolved entries) => existsb readFailure entries
     | _ => false
     end.

(** A path that the walk may list: a Markdown file, no component of whose
    path is hidden or [node_modules]. *)
Definition listable (p : string) : bool :=
  JS.endsWith p ".md" && forallb (fun c => negb (skipped c)) (Path.components p).

(** A small tree: a note at the root, a folder with a note and a text file,
    a hidden folder, [node_modules], and a link. *)
Definition smallTree : list Dirent :=
  [ FileEntry "A.md";
    DirectoryEntry "notes" (Resolved [FileEntry "B.md"; FileEntry "todo.txt";
                                      DirectoryEntry ".trash" Rejected]);
    DirectoryEntry ".obsidian" (Resolved [FileEntry "hidden.md"]);
    DirectoryEntry "node_modules" Rejected;
    OtherEntry "link.md" ].

(** A line of front matter for a key and a value, and a note that starts
    with the block of such lines. *)
Definition fieldLine (field : string * string) : string := field.1 ++ ": " ++ field.2.

Definition withFrontmatter (fields : list (string * string)) (body : string) : string :=
  "---" ++ JS.nl ++ JS.join_lines (map fieldLine fields) ++ JS.nl ++ "---" ++ body.

(** A key made of letters, digits and underscores. *)
Definition wordKey (key : string) : bool :=
  negb (String.eqb key EmptyString) && all_chars JS.is_word key.

(** A value on one line that trimming and the removal of quotes leave as
    it is and that does not start like an array or an object. *)
Definition plainValue (value : string) : bool :=
  all_chars (not_char JS.LF) value
  && String.eqb (JS.trim value) value
  && String.eqb (stripQuotes value) value
  && negb (JS.startsWith value "[" || JS.startsWith value "{").

(** A field that the object keeps where its line stands: its key is no
    array index and is not [__proto__]. *)
Definition plainField (field : string * string) : bool :=
  wordKey field.1
  && plainValue field.2
  && negb (String.eqb field.1 "__proto__")
  && match arrayIndex field.1 with
     | Some _ => false
     | None => true
     end.

(** The properties that fields give, in their order. *)
Definition fieldProperties (fields : list (string * string)) : Properties :=
  map (fun field => (field.1, JString field.2)) fields.

(** The file [x] holds a link that resolves to [y]. *)
Definition linksTo (v : Vault) (files : list string) (x y : string) : Prop :=
  x ∈ files
  /\ exists text link,
       readFile v x = Resolved text
       /\ link ∈ extractLinks text
       /\ resolveLink files link = Some y.

(** [n] links that resolve lead from the first file to the second. *)
Inductive linkChain (v : Vault) (files : list string) : nat -> string -> string -> Prop :=
| chain_here (x : string) : linkChain v files O x x
| chain_step (n : nat) (x y z : string) :
    linksTo v files x y -> linkChain v files n y z -> linkChain v files (S n) x z.

(** No link of a listed file is, as it is written, the path of a listed
    file: the links name their notes without the extension. *)
Definition plainLinks (v : Vault) (files : list string) : bool :=
  forallb (fun f =>
    match readFile v f with
    | Resolved text => forallb (fun link => negb (bool_decide (link ∈ files))) (extractLinks text)
    | Rejected => true
    end) files.

(** The walk of the directory [dir] lists the path [p] for the entry: the
    entry is a Markdown file that is not skipped and [p] is its path, or it
    is a directory that is not skipped and the walk lists [p] for one of
    its entries. *)
Inductive lists : string -> Dirent -> string -> Prop :=
| lists_file (dir name : string) :
    skipped name = false -> JS.endsWith name ".md" = true ->
    lists dir (FileEntry name) (joinRelative dir name)
| lists_directory (dir name : string) (entries : list Dirent) (e : Dirent) (p : string) :
    skipped name = false -> e ∈ entries -> lists (joinRelative dir name) e p ->
    lists dir (DirectoryEntry name (Resolved entries)) p.

(** The test of the orphans that the test script of the engine makes on the
    entries of [graphSearch]:
    [r.outgoingLinks.length === 0 && (!r.incomingLinks || r.incomingLinks.length === 0)]. *)
Definition isOrphan (r : GraphSearchResult) : bool :=
  (length (outgoingLinks r) =? 0)%nat && (length (incomingLinks r) =? 0)%nat.

(** ** The loop of isConnected ends

    The members of the sets of the files not yet visited, plus the length of
    the queue, go down by one with every turn of the loop. *)

Lemma unvisited_empty (m : gmap string (list string)) : unvisited ∅ m = members m.
Proof.
  unfold unvisited, members.
  induction (map_to_list m) as [|kv l IH]; [done|].
  rewrite filter_cons_True by set_solver. cbn. by rewrite IH.
Qed.

Lemma sum_visit (l : list (string * list string)) (visited : gset string) (f : string) :
  f ∉ visited ->
  sum_list_with (fun kv => length kv.2) (filter (fun kv => kv.1 ∉ visited) l)
  = (sum_list_with (fun kv => length kv.2) (filter (fun kv => kv.1 ∉ ({[f]} ∪ visited : gset string)) l)
     + sum_list_with (fun kv => length kv.2) (filter (fun kv => kv.1 = f) l))%nat.
Proof.
  intros Hf. induction l as [|[k s] l IH]; [done|].
  destruct (decide (k = f)) as [->|Hk].
  - rewrite (filter_cons_True (fun kv => kv.1 ∉ visited)) by done.
    rewrite (filter_cons_False (fun kv => kv.1 ∉ ({[f]} ∪ visited : gset string))) by set_solver.
    rewrite (filter_cons_True (fun kv => kv.1 = f)) by done.
    cbn. lia.
  - rewrite (filter_cons_False (fun kv => kv.1 = f)) by done.
    destruct (decide (k ∈ visited)) as [Hv|Hv].
    + rewrite !filter_cons_False by set_solver. exact IH.
    + rewrite !filter_cons_True by set_solver. cbn. lia.
Qed.

Lemma sum_key (m : gmap string (list string)) (f : string) :
  sum_list_with (fun kv => length kv.2) (filter (fun kv => kv.1 = f) (map_to_list m))
  = length (default [] (m !! f)).
Proof.
  induction m as [|k s m Hk _ IH] using map_first_key_ind.
  - by rewrite map_to_list_empty, lookup_empty.
  - rewrite map_to_list_insert by done.
    destruct (decide (k = f)) as [->|Hne].
    + rewrite filter_cons_True by done. cbn.
      rewrite IH, Hk, lookup_insert_eq. cbn. lia.
    + rewrite filter_cons_False by done.
      by rewrite IH, lookup_insert_ne.
Qed.

Lemma unvisited_visit (m : gmap string (list string)) (visited : gset string) (f : string) :
  f ∉ visited ->
  unvisited visited m = (unvisited ({[f]} ∪ visited) m + length (default [] (m !! f)))%nat.
Proof.
  intros Hf. unfold unvisited. rewrite (sum_visit _ _ f Hf). by rewrite sum_key.
Qed.

(** With the members still unvisited and the queue as fuel, the loop gives
    its answer. *)
Lemma bfs_enough_fuel (g : LinkGraph) (file2 : string) (maxDepth : Z) (fuel : nat) :
  forall (visited : gset string) (queue : list (string * Z)),
    (length queue + unvisited visited (linkCache g)
       + unvisited visited (backlinksCache g) <= fuel)%nat ->
    is_Some (bfs g file2 maxDepth fuel visited queue).
Proof.
  induction fuel as [|fuel IH]; intros visited [|[f depth] queue] Hfuel; cbn; eauto.
  - cbn in Hfuel. lia.
  - cbn in Hfuel.
    destruct (String.eqb f file2); [eauto|].
    destruct (depth >=? maxDepth); [apply IH; lia|].
    destruct (decide (f ∈ visited)) as [Hv|Hv];
      [rewrite bool_decide_eq_true_2 by done; apply IH; lia
      |rewrite bool_decide_eq_false_2 by done].
    apply IH.
    rewrite (unvisited_visit (linkCache g) visited f Hv) in Hfuel.
    rewrite (unvisited_visit (backlinksCache g) visited f Hv) in Hfuel.
    rewrite !length_app, !length_map. unfold linksOf, backlinksOf. lia.
Qed.

(** [isConnected] is the answer of the loop: the fuel it gets is enough. *)
Lemma isConnected_bfs (g : LinkGraph) (file1 file2 : string) (maxDepth : Z) :
  file1 <> file2 -> 0 < maxDepth ->
  bfs g file2 maxDepth (bfsFuel g) ∅ [(file1, 0)]
  = Some (isConnected g file1 file2 maxDepth).
Proof.
  intros Hne Hdepth. unfold isConnected.
  apply String.eqb_neq in Hne. rewrite Hne.
  destruct (Z.leb_spec maxDepth 0) as [?|_]; [lia|].
  destruct (bfs_enough_fuel g file2 maxDepth (bfsFuel g) ∅ [(file1, 0)]) as [found ->]; [|done].
  rewrite !unvisited_empty. unfold bfsFuel. cbn. lia.
Qed.

(** ** Properties of isConnected *)

(** C9: for every state of the link graph, hence for every corpus, and all
    files A and B, [isConnected(A, A, 0)] is true and [isConnected(A, B, 0)]
    is false whenever A and B differ. *)
Theorem isConnected_depth_zero (g : LinkGraph) (a b : string) :
  isConnected g a a 0 = true /\ (a <> b -> isConnected g a b 0 = false).
Proof.
  unfold isConnected. split.
  - by rewrite String.eqb_refl.
  - intros Hne. apply String.eqb_neq in Hne. by rewrite Hne.
Qed.

Lemma isConnected_depth_zero_witness :
  obind (buildLinkGraph twoNotes) (fun g =>
    Resolved (isConnected g "A.md" "A.md" 0, isConnected g "A.md" "B.md" 0))
  = Resolved (true, false).
Proof.
  change (buildLinkGraph twoNotes)
    with (Resolved (fold_left (indexFile twoNotes ["A.md"; "B.md"]) ["A.md"; "B.md"] emptyGraph)).
  cbn [obind].
  destruct (isConnected_depth_zero
              (fold_left (indexFile twoNotes ["A.md"; "B.md"]) ["A.md"; "B.md"] emptyGraph)
              "A.md" "B.md") as [Hsame Hother].
  rewrite Hsame, Hother; [reflexivity | discriminate].
Defined.

(** C3, at the input where it fails: [A.md] holds [[[B]]], which resolves to
    [B.md]. The search from [B.md] reaches [A.md] over the backlink, the
    search from [A.md] does not reach [B.md]: its outgoing edge leads to the
    link text [B], which is no file of the vault. *)
Example isConnected_forward_link_missed :
  extractLinks "[[B]]" = ["B"]
  /\ resolveLink ["A.md"; "B.md"] "B" = Some "B.md"
  /\ obind (buildLinkGraph twoNotes) (fun g =>
        Resolved (linksOf g "A.md", backlinksOf g "B.md",
                  isConnected g "A.md" "B.md" 1, isConnected g "B.md" "A.md" 1))
      = Resolved (["B"], ["A.md"], false, true).
Proof. repeat split; vm_compute; reflexivity. Qed.

Lemma length_le_members (m : gmap string (list string)) (f : string) :
  (length (default [] (m !! f)) <= members m)%nat.
Proof.
  rewrite <- unvisited_empty, (unvisited_visit m ∅ f) by set_solver. lia.
Qed.

(** Entries at the depth bound are compared with the target and not
    expanded. *)
Lemma bfs_last_level (g : LinkGraph) (file2 : string) (maxDepth : Z)
    (queue : list (string * Z)) :
  forall (fuel : nat) (visited : gset string),
    Forall (fun entry => maxDepth <= entry.2) queue ->
    (length queue <= fuel)%nat ->
    bfs g file2 maxDepth fuel visited queue = Some (bool_decide (file2 ∈ queue.*1)).
Proof.
  induction queue as [|[f depth] queue IH]; intros fuel visited Hdepth Hfuel.
  - by destruct fuel.
  - destruct fuel as [|fuel]; cbn in Hfuel; [lia|].
    apply Forall_cons in Hdepth as [Hd Hdepth]. cbn in Hd. cbn [bfs].
    destruct (String.eqb_spec f file2) as [->|Hne].
    + rewrite bool_decide_eq_true_2; [done|]. cbn. left.
    + destruct (Z.geb_spec depth maxDepth); [|lia].
      rewrite IH by (done || lia). f_equal.
      apply bool_decide_ext. cbn. rewrite elem_of_cons. naive_solver.
Qed.

(** X2: within one hop, [isConnected(a, b, 1)] holds exactly when [b] is
    [a], a member of the forward set of [a], which holds link texts, or a
    member of its backlinks. *)
Theorem isConnected_one_hop (g : LinkGraph) (a b : string) :
  isConnected g a b 1 = true <-> a = b \/ b ∈ linksOf g a \/ b ∈ backlinksOf g a.
Proof.
  destruct (decide (a = b)) as [->|Hne].
  { unfold isConnected. rewrite String.eqb_refl. tauto. }
  pose proof (isConnected_bfs g a b 1 Hne ltac:(lia)) as Hbfs.
  unfold bfsFuel in Hbfs. cbn [bfs] in Hbfs.
  apply String.eqb_neq in Hne as Hneb. rewrite Hneb in Hbfs.
  cbn [Z.geb Z.compare app] in Hbfs.
  rewrite bool_decide_eq_false_2 in Hbfs by set_solver.
  rewrite bfs_last_level in Hbfs.
  - injection Hbfs as <-. rewrite bool_decide_eq_true, fmap_app, elem_of_app.
    rewrite <- !list_fmap_compose. cbn. rewrite !list_fmap_id. naive_solver.
  - apply Forall_app. split; apply Forall_fmap, Forall_true; intros x; cbn; lia.
  - rewrite length_app, !length_map. unfold linksOf, backlinksOf.
    pose proof (length_le_members (linkCache g) a).
    pose proof (length_le_members (backlinksCache g) a). lia.
Qed.

(** ** The link graph *)

Lemma elem_of_add (x y : string) (s : list string) : x ∈ JS.add y s <-> x = y \/ x ∈ s.
Proof.
  unfold JS.add. case_bool_decide as Hy.
  - split; [auto|]. by intros [->|?].
  - rewrite elem_of_app, list_elem_of_singleton. tauto.
Qed.

Lemma elem_of_fold_add (x : string) (xs s : list string) :
  x ∈ fold_left (fun s x => JS.add x s) xs s <-> x ∈ s \/ x ∈ xs.
Proof.
  revert s. induction xs as [|y xs IH]; intros s; cbn.
  - rewrite elem_of_nil. tauto.
  - rewrite IH, elem_of_add, elem_of_cons. tauto.
Qed.

Lemma elem_of_newSet (x : string) (xs : list string) : x ∈ JS.newSet xs <-> x ∈ xs.
Proof. unfold JS.newSet. rewrite elem_of_fold_add, elem_of_nil. tauto. Qed.

(** What a scan yields, the expression matched somewhere. *)
Lemma elem_of_scan {A} (m : string -> option (A * nat)) (x : A) (s : string) :
  forall skip, x ∈ JS.scan m skip s -> exists s' n, m s' = Some (x, n).
Proof.
  induction s as [|c s IH]; intros skip; cbn.
  - by rewrite elem_of_nil.
  - destruct skip as [|k]; [|apply IH].
    destruct (m (String c s)) as [[a n]|] eqn:Hm; [|apply IH].
    rewrite elem_of_cons. intros [->|Hx]; [eauto|by eapply IH].
Qed.

Lemma linkRegex_nonempty (s link : string) (n : nat) :
  linkRegex s = Some (link, n) -> link <> EmptyString.
Proof.
  unfold linkRegex. intros H.
  repeat (case_match; try discriminate). by injection H as <- _.
Qed.

(** A link that was extracted is not the empty string. *)
Lemma extractLinks_nonempty (content link : string) :
  link ∈ extractLinks content -> link <> EmptyString.
Proof.
  intros H. apply elem_of_scan in H as (s' & n & Hm). by eapply linkRegex_nonempty.
Qed.

(** No link resolves to a file of the empty name. *)
Lemma resolveLink_nonempty (files : list string) (link : string) :
  link <> EmptyString -> resolveLink files link <> Some EmptyString.
Proof.
  intros Hlink Hfind. apply find_some in Hfind as [_ Hp].
  destruct link as [|c link]; [done|]. by cbn in Hp.
Qed.

(** One turn of the loop over the links of [file]. *)
Lemma addBacklink_spec (files : list string) (file link : string)
    (backlinks : gmap string (list string)) (A B : string) :
  link <> EmptyString ->
  A ∈ default [] (addBacklink files file backlinks link !! B)
  <-> A ∈ default [] (backlinks !! B) \/ (A = file /\ resolveLink files link = Some B).
Proof.
  intros Hlink. unfold addBacklink.
  destruct (resolveLink files link) as [linked|] eqn:Hres.
  - destruct (String.eqb_spec linked EmptyString) as [->|_].
    { by apply resolveLink_nonempty in Hres. }
    destruct (decide (linked = B)) as [->|Hne].
    + rewrite lookup_alter_eq.
      assert ((match backlinks !! B with
               | Some _ => backlinks
               | None => <[B:=[]]> backlinks
               end) !! B = Some (default [] (backlinks !! B))) as ->.
      { destruct (backlinks !! B) eqn:HB; [by rewrite HB|by rewrite lookup_insert_eq]. }
      cbn. rewrite elem_of_add. naive_solver.
    + rewrite lookup_alter_ne by done.
      assert ((match backlinks !! linked with
               | Some _ => backlinks
               | None => <[linked:=[]]> backlinks
               end) !! B = backlinks !! B) as ->.
      { destruct (backlinks !! linked); [done|by rewrite lookup_insert_ne]. }
      naive_solver.
  - naive_solver.
Qed.

(** The loop over the links of [file]. *)
Lemma fold_addBacklink_spec (files : list string) (file : string) (links : list string) :
  forall (backlinks : gmap string (list string)) (A B : string),
    Forall (fun link => link <> EmptyString) links ->
    A ∈ default [] (fold_left (addBacklink files file) links backlinks !! B)
    <-> A ∈ default [] (backlinks !! B)
        \/ (A = file /\ exists link, link ∈ links /\ resolveLink files link = Some B).
Proof.
  induction links as [|l links IH]; intros backlinks A B Hall; cbn.
  - split; [auto|]. intros [?|(_ & link & Hin & _)]; [done|]. by apply elem_of_nil in Hin.
  - apply Forall_cons in Hall as [Hl Hall].
    rewrite IH, addBacklink_spec by done.
    setoid_rewrite elem_of_cons. naive_solver.
Qed.

(** The graph after the loop of [buildLinkGraph] has gone over [seen]: a
    file has a forward set when it was seen and could be read, the set of
    its links; and [A] is a backlink of [B] when [A] was seen and one of its
    links resolves to [B]. *)
Lemma indexFile_fold_spec (v : Vault) (files seen : list string) (A B : string) :
  let g := fold_left (indexFile v files) seen emptyGraph in
  linksOf g A
  = match readFile v A with
    | Resolved content => if bool_decide (A ∈ seen) then JS.newSet (extractLinks content) else []
    | Rejected => []
    end
  /\ (A ∈ backlinksOf g B
      <-> A ∈ seen
          /\ exists content link,
               readFile v A = Resolved content
               /\ link ∈ extractLinks content
               /\ resolveLink files link = Some B).
Proof.
  induction seen as [|f seen IH] using rev_ind; cbn zeta.
  - unfold linksOf, backlinksOf. cbn. rewrite !lookup_empty. cbn. split.
    + by destruct (readFile v A).
    + rewrite !elem_of_nil. naive_solver.
  - rewrite fold_left_app. cbn [fold_left].
    cbn zeta in IH. destruct IH as [IHl IHb].
    set (g := fold_left (indexFile v files) seen emptyGraph) in *.
    unfold indexFile at 1 2. destruct (readFile v f) as [content|] eqn:Hread.
    + split.
      * unfold linksOf in *. cbn [linkCache].
        destruct (decide (f = A)) as [->|Hne].
        -- rewrite lookup_insert_eq, Hread. cbn.
           by rewrite bool_decide_eq_true_2 by set_solver.
        -- rewrite lookup_insert_ne, IHl by done.
           destruct (readFile v A); [|done].
           rewrite (bool_decide_ext (A ∈ (seen ++ [f])%list) (A ∈ seen)); [done|].
           rewrite elem_of_app, list_elem_of_singleton. naive_solver.
      * unfold backlinksOf in *. cbn [backlinksCache].
        rewrite fold_addBacklink_spec, IHb.
        2:{ apply Forall_forall. intros link Hin. by eapply extractLinks_nonempty. }
        rewrite elem_of_app, list_elem_of_singleton. split.
        -- intros [[Hin Hex]|[-> Hex]]; [by auto|].
           destruct Hex as (link & Hl & Hr). split; [by auto|]. by exists content, link.
        -- intros [[Hin| ->] (c & link & Hc & Hl & Hr)]; [left; eauto 6|].
           right. split; [done|]. exists link. split; [|done]. congruence.
    + split.
      * rewrite IHl. destruct (readFile v A) eqn:HA; [|done].
        rewrite (bool_decide_ext (A ∈ (seen ++ [f])%list) (A ∈ seen)); [done|].
        rewrite elem_of_app, list_elem_of_singleton.
        split; [|auto]. intros [?| ->]; [done|congruence].
      * rewrite IHb, elem_of_app, list_elem_of_singleton. split; [naive_solver|].
        intros [[Hin| ->] (c & link & Hc & Hl & Hr)]; [eauto 8|congruence].
Qed.

(** C2: after [buildLinkGraph], for all files A and B, the backlinks of B
    contain A exactly when some link in the forward set of A resolves to B.
    The backward map is the transpose of the forward map over the links
    that resolve, and a link that does not resolve gives no backlink. *)
Theorem backlinks_transpose (v : Vault) (files : list string) (g : LinkGraph) (A B : string) :
  getAllMarkdownFiles v = Resolved files ->
  buildLinkGraph v = Resolved g ->
  (A ∈ backlinksOf g B
   <-> exists link, link ∈ linksOf g A /\ resolveLink files link = Some B).
Proof.
  unfold buildLinkGraph. intros -> [= <-].
  destruct (indexFile_fold_spec v files files A B) as [-> ->].
  split.
  - intros (Hin & content & link & -> & Hl & Hr).
    exists link. rewrite bool_decide_eq_true_2 by done.
    by rewrite elem_of_newSet.
  - intros (link & Hl & Hr). destruct (readFile v A) as [content|]; [|by apply elem_of_nil in Hl].
    case_bool_decide as Hin; [|by apply elem_of_nil in Hl].
    rewrite elem_of_newSet in Hl. split; [done|]. by exists content, link.
Qed.

Lemma backlinks_transpose_witness :
  let files := ["A.md"; "B.md"; "C.md"] in
  let g := fold_left (indexFile threeNotes files) files emptyGraph in
  getAllMarkdownFiles threeNotes = Resolved files
  /\ buildLinkGraph threeNotes = Resolved g
  /\ ("A.md" ∈ backlinksOf g "B.md"
      <-> exists link, link ∈ linksOf g "A.md" /\ resolveLink files link = Some "B.md").
Proof.
  cbn zeta. split; [reflexivity|]. split; [reflexivity|].
  apply (backlinks_transpose threeNotes); reflexivity.
Defined.

(** ** graphSearch on the three notes *)

(** C1, as the code has it: over [A.md] with [[[B]]], [B.md] without links
    and [C.md] with [[[Missing]]], [graphSearch] without a seed returns the
    three notes whether orphans are included or not. [C.md] is not taken for
    an orphan: its link to [Missing] resolves to no file, and it is still
    one of its outgoing links. *)
Theorem graphSearch_three_notes (JSON_parse : string -> option json) (depth : option Z) :
  graphSearch JSON_parse threeNotes (mkGraphSearchOptions depth None (Some false))
  = Resolved [noteA; noteB; noteC]
  /\ graphSearch JSON_parse threeNotes (mkGraphSearchOptions depth None (Some true))
     = Resolved [noteA; noteB; noteC].
Proof. split; vm_compute; reflexivity. Qed.

(** C1 as stated fails: without orphans the result is not [A.md] and [B.md]
    alone, [C.md] is the third entry. *)
Lemma graphSearch_three_notes_without_orphans :
  graphSearch Host.parse threeNotes (mkGraphSearchOptions None None (Some false))
  = Resolved [noteA; noteB; noteC]
  /\ map node_path [noteA; noteB; noteC] = ["A.md"; "B.md"; "C.md"].
Proof. split; vm_compute; reflexivity. Qed.

(** ** extractLinks *)

Lemma app_cons (c : ascii) (a b : string) : String c a ++ b = String c (a ++ b).
Proof. reflexivity. Qed.

Lemma app_nil (b : string) : EmptyString ++ b = b.
Proof. reflexivity. Qed.

Lemma span_all (p : ascii -> bool) (a : string) (c : ascii) (b : string) :
  all_chars p a = true -> p c = false ->
  JS.span p (a ++ String c b) = (a, String c b).
Proof.
  intros Ha Hc. induction a as [|d a IH]; simpl in *.
  - by rewrite Hc.
  - apply andb_prop in Ha as [Hd Ha]. by rewrite Hd, IH.
Qed.

(** The characters of a match are passed over. *)
Lemma scan_cons {A} (m : string -> option (A * nat)) (c : ascii) (s : string) :
  JS.scan m O (String c s)
  = match m (String c s) with
    | Some (a, n) => a :: JS.scan m (Nat.pred n) s
    | None => JS.scan m O s
    end.
Proof. reflexivity. Qed.

Lemma scan_skip {A} (m : string -> option (A * nat)) (a b : string) :
  JS.scan m (String.length a) (a ++ b) = JS.scan m O b.
Proof. induction a as [|c a IH]; cbn; [by destruct b|exact IH]. Qed.

(** The expression of a link does not match where the text does not go on
    with two opening brackets. *)
Lemma linkRegex_none (s : string) : JS.startsWith s "[[" = false -> linkRegex s = None.
Proof.
  unfold linkRegex. destruct s as [|a [|b r]]; [done..|]. cbn [JS.startsWith].
  rewrite andb_true_r, (Ascii.eqb_sym "[" a), (Ascii.eqb_sym "[" b). by intros ->.
Qed.

(** Text that opens no link is passed over, whatever follows it. *)
Lemma scan_links_text (text rest : string) :
  opensNoLink text = true ->
  JS.scan linkRegex O (text ++ rest) = JS.scan linkRegex O rest.
Proof.
  unfold opensNoLink. rewrite andb_true_iff, !negb_true_iff. intros [Hin Hend].
  induction text as [|c text IH]; [done|].
  cbn [JS.includes] in Hin. apply orb_false_iff in Hin as [Hstart Hin].
  cbn [JS.endsWith] in Hend. apply orb_false_iff in Hend as [Hlast Hend].
  rewrite app_cons, scan_cons.
  assert (linkRegex (String c (text ++ rest)) = None) as ->; [|by apply IH].
  apply linkRegex_none. cbn [JS.startsWith] in Hstart |- *.
  destruct (Ascii.eqb "[" c) eqn:Hc; [|done]. cbn [andb] in Hstart |- *.
  destruct text as [|d text].
  - apply Ascii.eqb_eq in Hc as <-. done.
  - rewrite app_cons. by rewrite andb_true_r in Hstart |- *.
Qed.

(** Text without two opening brackets in a row holds no link. *)
Lemma scan_links_none (text : string) :
  JS.includes text "[[" = false -> JS.scan linkRegex O text = [].
Proof.
  induction text as [|c text IH]; [done|].
  cbn [JS.includes]. intros [Hstart Hin]%orb_false_iff.
  by rewrite scan_cons, linkRegex_none, IH.
Qed.

Lemma linkRegex_link (target rest : string) :
  target <> EmptyString -> all_chars not_close target = true ->
  linkRegex ("[[" ++ target ++ "]]" ++ rest)
  = Some (target, (4 + String.length target)%nat).
Proof.
  intros Hne Hall. unfold linkRegex.
  rewrite !app_cons, !app_nil. cbn [andb Ascii.eqb Bool.eqb].
  rewrite (span_all _ target "]" (String "]" rest)) by done.
  by destruct target.
Qed.

Lemma string_length_app (a b : string) :
  String.length (a ++ b) = (String.length a + String.length b)%nat.
Proof.
  induction a as [|c a IH]; [done|].
  rewrite app_cons. cbn [String.length]. by rewrite IH.
Qed.

Lemma string_app_assoc (a b c : string) : (a ++ b) ++ c = a ++ b ++ c.
Proof. induction a as [|d a IH]; [done|]. by rewrite !app_cons, IH. Qed.

Lemma string_app_nil_r (a : string) : a ++ EmptyString = a.
Proof. induction a as [|d a IH]; [done|]. by rewrite app_cons, IH. Qed.

Lemma scan_links_link (target rest : string) :
  target <> EmptyString -> all_chars not_close target = true ->
  JS.scan linkRegex O ("[[" ++ target ++ "]]" ++ rest)
  = target :: JS.scan linkRegex O rest.
Proof.
  intros Hne Hall.
  change ("[[" ++ target ++ "]]" ++ rest) with (String "[" ("[" ++ target ++ "]]" ++ rest)) at 1.
  rewrite scan_cons.
  change (String "[" ("[" ++ target ++ "]]" ++ rest)) with ("[[" ++ target ++ "]]" ++ rest).
  rewrite linkRegex_link by done. f_equal.
  replace ("[" ++ target ++ "]]" ++ rest) with (("[" ++ target ++ "]]") ++ rest)
    by (by rewrite !string_app_assoc).
  replace (Nat.pred (4 + String.length target)) with (String.length ("[" ++ target ++ "]]"))
    by (rewrite !string_length_app; cbn; lia).
  apply scan_skip.
Qed.

(** C4, as the code has it: for a body made of stretches of text that open
    no link (no [[[] in them and no [[] at their end, single brackets and
    all other text allowed), each followed by a link, and of a last stretch
    of any text, [extractLinks] yields one entry per link, in the order of
    the body, a repeated link repeated, and then what the last stretch
    yields by itself, which is nothing when it holds no [[[]. Each entry
    is all the text between the brackets: an alias after [|] is part of the
    entry. *)
Theorem extractLinks_render (segments : list (string * string)) (last : string) :
  Forall (fun seg => opensNoLink seg.1 = true
                     /\ seg.2 <> EmptyString
                     /\ all_chars not_close seg.2 = true) segments ->
  extractLinks (render segments last) = (map snd segments ++ extractLinks last)%list
  /\ (JS.includes last "[[" = false ->
      extractLinks (render segments last) = map snd segments).
Proof.
  intros Hsegs.
  assert (extractLinks (render segments last) = (map snd segments ++ extractLinks last)%list)
    as Hall.
  { unfold extractLinks.
    induction Hsegs as [|[text target] segments (Htext & Hne & Htarget) _ IH]; [done|].
    cbn [render map snd app fst] in *. rewrite scan_links_text by done.
    rewrite scan_links_link by done. by rewrite IH. }
  split; [done|]. intros Hlast. rewrite Hall. unfold extractLinks at 1.
  by rewrite scan_links_none, app_nil_r.
Qed.

Lemma extractLinks_render_witness :
  JS.includes " [done]" "[[" = false
  /\ extractLinks
       (render [("- [ ] call ", "Ben|my brother"); (" about [x](y) and ", "C");
                (", then ", "Ben|my brother")] " [done]")
     = ["Ben|my brother"; "C"; "Ben|my brother"].
Proof.
  split; [reflexivity|].
  apply (extractLinks_render
           [("- [ ] call ", "Ben|my brother"); (" about [x](y) and ", "C");
            (", then ", "Ben|my brother")] " [done]").
  - repeat constructor; discriminate.
  - reflexivity.
Defined.

(** C4 as stated fails: the alias is not cut off. *)
Lemma extractLinks_keeps_alias : extractLinks "[[B|alias]]" = ["B|alias"].
Proof. reflexivity. Qed.

(** ** Content search, fuzzy search and the files that cannot be read *)

Section Operations.

Variable JSON_parse : string -> option json.
Variable JSON_stringify : json -> string.

(** Once the cap is reached, the loop of [search] adds nothing. *)
Lemma searchLoop_full (v : Vault) (q : string) (cap ctx : Z) (wc : bool) (kind : SearchType)
    (files : list string) (results : list FilesystemSearchResult) :
  (Z.of_nat (length results) >=? cap) = true ->
  searchLoop JSON_parse JSON_stringify v q cap ctx wc kind files results = results.
Proof. intros Hcap. destruct files; cbn; [done|by rewrite Hcap]. Qed.

Lemma searchLoop_readable (v : Vault) (q : string) (cap ctx : Z) (wc : bool) (kind : SearchType)
    (files : list string) :
  forall results,
    searchLoop JSON_parse JSON_stringify (withoutUnreadable v) q cap ctx wc kind
      (List.filter (readable v) files) results
    = searchLoop JSON_parse JSON_stringify v q cap ctx wc kind files results.
Proof.
  induction files as [|f files IH]; intros results; [done|].
  cbn [List.filter]. unfold readable at 1.
  destruct (readFile v f) as [content|] eqn:Hread; cbn [is_rejected negb].
  - cbn. rewrite Hread. cbn.
    destruct (Z.of_nat (length results) >=? cap); [done|].
    destruct (searchFile _ _ _ _ _ _ _ _) as [[r|]|]; apply IH.
  - cbn. rewrite Hread. cbn.
    destruct (Z.of_nat (length results) >=? cap) eqn:Hcap; [|apply IH].
    by apply searchLoop_full.
Qed.

Lemma scoreFile_readable (v : Vault) (ql : string) (parts files : list string) :
  omap (scoreFile JSON_parse (withoutUnreadable v) ql parts) (List.filter (readable v) files)
  = omap (scoreFile JSON_parse v ql parts) files.
Proof.
  induction files as [|f files IH]; [done|].
  cbn [List.filter]. unfold readable at 1.
  destruct (readFile v f) as [content|] eqn:Hread; cbn [is_rejected negb].
  - cbn [omap list_omap]. by rewrite IH.
  - cbn [omap list_omap]. unfold scoreFile at 2. by rewrite Hread.
Qed.

Lemma graphEntry_readable (v : Vault) (g : LinkGraph) (depth : Z) (seed : option string)
    (orphans : bool) (files : list string) :
  omap (graphEntry JSON_parse v g depth seed orphans) (List.filter (readable v) files)
  = omap (graphEntry JSON_parse v g depth seed orphans) files.
Proof.
  induction files as [|f files IH]; [done|].
  cbn [List.filter]. unfold readable at 1.
  destruct (readFile v f) as [content|] eqn:Hread; cbn [is_rejected negb].
  - cbn. by rewrite IH.
  - cbn. unfold graphEntry at 2. by rewrite Hread.
Qed.

(** An entry of [graphSearch] is the entry of a file that was read. *)
Lemma graphEntry_path (v : Vault) (g : LinkGraph) (depth : Z) (seed : option string)
    (orphans : bool) (f : string) (r : GraphSearchResult) :
  graphEntry JSON_parse v g depth seed orphans f = Some r ->
  node_path r = f /\ readable v f = true.
Proof.
  unfold graphEntry, readable. destruct (readFile v f); [|done].
  intros H. split; [|done].
  destruct (match seed with Some _ => _ | None => _ end); [done|].
  destruct (negb orphans && _ && _); [done|].
  by injection H as <-.
Qed.

Lemma newSet_nil (xs : list string) : JS.newSet xs = [] <-> xs = [].
Proof.
  split; [|by intros ->].
  destruct xs as [|x xs]; [done|]. intros Hnil.
  assert (x ∈ JS.newSet (x :: xs)) as Hx by (apply elem_of_newSet; left).
  rewrite Hnil in Hx. by apply elem_of_nil in Hx.
Qed.

(** X3: without a seed, [graphSearch] reports a listed file exactly when it
    can be read and orphans are included, or its text holds a link
    reference, resolved or not, or it has a backlink. *)
Theorem graphSearch_orphans (v : Vault) (files : list string) (g : LinkGraph)
    (depth : option Z) (orphans : option bool) (results : list GraphSearchResult) (f : string) :
  getAllMarkdownFiles v = Resolved files ->
  buildLinkGraph v = Resolved g ->
  graphSearch JSON_parse v (mkGraphSearchOptions depth None orphans) = Resolved results ->
  (f ∈ map node_path results
   <-> f ∈ files
       /\ exists text,
            readFile v f = Resolved text
            /\ (default false orphans = true
                \/ extractLinks text <> []
                \/ backlinksOf g f <> [])).
Proof.
  unfold graphSearch, buildLinkGraph. intros Hfiles. rewrite Hfiles. cbn [obind].
  intros [= <-] [= <-]. cbn [maxDepth startFile includeOrphans].
  set (g := fold_left (indexFile v files) files emptyGraph).
  assert (forall f', f' ∈ files ->
            graphEntry JSON_parse v g (default 2 depth) None (default false orphans) f'
            = match readFile v f' with
              | Resolved text =>
                  if negb (default false orphans)
                     && (length (JS.newSet (extractLinks text)) =? 0)%nat
                     && (length (backlinksOf g f') =? 0)%nat
                  then None
                  else Some (mkGraphResult (Path.basename f') f'
                               (JS.newSet (extractLinks text)) (backlinksOf g f')
                               (extractTags JSON_parse text)
                               (extractFrontmatter JSON_parse text))
              | Rejected => None
              end) as Hentry.
  { intros f' Hin. unfold graphEntry.
    destruct (indexFile_fold_spec v files files f' f') as [Hlinks _]. fold g in Hlinks.
    rewrite Hlinks. destruct (readFile v f'); [|done].
    by rewrite bool_decide_eq_true_2. }
  rewrite list_elem_of_fmap. setoid_rewrite list_elem_of_omap. split.
  - intros (r & -> & f' & Hin & Hr). rewrite (Hentry f' Hin) in Hr.
    destruct (readFile v f') as [text|] eqn:Hread; [|done].
    destruct (default false orphans); cbn [negb andb] in Hr.
    + injection Hr as <-. cbn. split; [done|]. exists text. rewrite Hread. auto.
    + destruct (JS.newSet (extractLinks text)) as [|l ls] eqn:Hset;
        destruct (backlinksOf g f') as [|b bs] eqn:Hback; cbn in Hr; try done;
        injection Hr as <-; cbn; (split; [done|]); exists text; rewrite Hread;
        (split; [done|]); right;
        first [right; congruence | left; intros Hnil; apply newSet_nil in Hnil; congruence].
  - intros (Hin & text & Hread & Hkeep).
    pose proof (Hentry f Hin) as Hf. rewrite Hread in Hf.
    assert (negb (default false orphans)
            && (length (JS.newSet (extractLinks text)) =? 0)%nat
            && (length (backlinksOf g f) =? 0)%nat = false) as Hkept.
    { destruct Hkeep as [->|[Hlinks|Hback]]; [done| |].
      - destruct (JS.newSet (extractLinks text)) eqn:Hset.
        + apply (proj1 (newSet_nil _)) in Hset. congruence.
        + cbn [length Nat.eqb]. by rewrite andb_false_r.
      - destruct (backlinksOf g f); [done|]. cbn [length Nat.eqb]. by rewrite andb_false_r. }
    rewrite Hkept in Hf. eexists. split; [|exists f; split; [done|exact Hf]]. done.
Qed.

(** C8, as the code has it: a file that cannot be read never makes
    [search], [fuzzySearch] or [graphSearch] fail, and it is no entry of the
    result. [search] and [fuzzySearch] return what they return over the
    vault without the unreadable files. [graphSearch] goes over the readable
    files alone, with the link graph of the whole listing: there an
    unreadable file still is a file that a link can resolve to. *)
Theorem unreadable_files_skipped (v : Vault) (options : SearchOptions) (queryText : string)
    (cap : option Z) (goptions : GraphSearchOptions) :
  search JSON_parse JSON_stringify (withoutUnreadable v) options
  = search JSON_parse JSON_stringify v options
  /\ fuzzySearch JSON_parse (withoutUnreadable v) queryText cap
     = fuzzySearch JSON_parse v queryText cap
  /\ graphSearch JSON_parse v goptions
     = obind (buildLinkGraph v) (fun g =>
       obind (getAllMarkdownFiles (withoutUnreadable v)) (fun files =>
       Resolved (omap (graphEntry JSON_parse v g (default 2 (maxDepth goptions))
                         (startFile goptions) (default false (includeOrphans goptions)))
                   files)))
  /\ match graphSearch JSON_parse v goptions with
     | Resolved results => forallb (fun r => readable v (node_path r)) results = true
     | Rejected => getAllMarkdownFiles v = Rejected
     end.
Proof.
  unfold search, fuzzySearch, graphSearch, buildLinkGraph, getAllMarkdownFiles.
  simpl (listing (withoutUnreadable v)).
  destruct (listing v) as [files|]; cbn [obind]; [|done].
  split; [by rewrite searchLoop_readable|].
  split; [by rewrite scoreFile_readable|].
  split; [by rewrite graphEntry_readable|].
  apply forallb_forall. intros r Hin. apply list_elem_of_In, list_elem_of_omap in Hin.
  destruct Hin as (f & _ & Hentry).
  by apply graphEntry_path in Hentry as [-> ?].
Qed.

(** C7, as the code has it: none of the three operations checks its
    parameters. Whatever the query, the cap and the depth, an empty query
    and a negative depth included, each fails exactly when the files of the
    vault cannot be listed. An empty query selects every file under content
    search, and a depth of zero or less connects a file to itself alone. *)
Theorem no_parameter_validation (v : Vault) (options : SearchOptions) (queryText : string)
    (cap : option Z) (goptions : GraphSearchOptions) :
  is_rejected (search JSON_parse JSON_stringify v options) = is_rejected (getAllMarkdownFiles v)
  /\ is_rejected (fuzzySearch JSON_parse v queryText cap) = is_rejected (getAllMarkdownFiles v)
  /\ is_rejected (graphSearch JSON_parse v goptions) = is_rejected (getAllMarkdownFiles v)
  /\ (forall f content ctx wc,
        exists r, searchFile JSON_parse JSON_stringify f content "" ByContent ctx wc
                  = Resolved (Some r))
  /\ (forall g a b depth, depth <= 0 -> isConnected g a b depth = String.eqb a b).
Proof.
  assert (forall f content ctx wc,
            exists r, searchFile JSON_parse JSON_stringify f content "" ByContent ctx wc
                      = Resolved (Some r)) as Hempty.
  { intros f content ctx wc. unfold searchFile. cbn [JS.toLowerCase selected obind].
    assert (JS.includes (JS.toLowerCase content) EmptyString = true) as ->; [|eauto].
    by destruct (JS.toLowerCase content). }
  assert (forall g a b depth, depth <= 0 -> isConnected g a b depth = String.eqb a b) as Hdepth.
  { intros g a b depth Hd. unfold isConnected. destruct (String.eqb a b); [done|].
    by destruct (Z.leb_spec depth 0); [|lia]. }
  unfold search, fuzzySearch, graphSearch, buildLinkGraph, getAllMarkdownFiles.
  by destruct (listing v) as [files|].
Qed.

(** What holds of every result of [searchFile] on the files read holds of
    every result of the loop. *)
Lemma searchLoop_Forall (P : FilesystemSearchResult -> Prop) (v : Vault) (q : string)
    (cap ctx : Z) (wc : bool) (kind : SearchType) :
  (forall f content r,
     readFile v f = Resolved content ->
     searchFile JSON_parse JSON_stringify f content q kind ctx wc = Resolved (Some r) ->
     P r) ->
  forall files results,
    Forall P results ->
    Forall P (searchLoop JSON_parse JSON_stringify v q cap ctx wc kind files results).
Proof.
  intros Hfile files. induction files as [|f files IH]; intros results Hres; cbn; [done|].
  destruct (Z.of_nat (length results) >=? cap); [done|].
  destruct (readFile v f) as [content|] eqn:Hread; cbn [obind]; [|by apply IH].
  destruct (searchFile _ _ _ _ _ _ _ _) as [[r|]|] eqn:Hsearch; try by apply IH.
  apply IH, Forall_app. split; [done|]. apply Forall_singleton. by eapply Hfile.
Qed.

(** The match records are those of the lines that contain the query. *)
Lemma contextMatches_lines (lines : list string) (ql : string) (ctx : Z) (rest : list string) :
  forall i,
    map content (contextMatches lines ql ctx i rest)
    = List.filter (fun l => JS.includes (JS.toLowerCase l) ql) rest.
Proof.
  induction rest as [|l rest IH]; intros i; cbn; [done|].
  destruct (JS.includes (JS.toLowerCase l) ql); cbn; by rewrite IH.
Qed.

(** C6, as the code has it: content search by file name returns only
    files whose name contains the query, letter case apart. A result
    carries no match record when content is not to be included; when it
    is, it carries one record for every line of the file that contains the
    query. *)
Theorem search_by_filename (v : Vault) (options : SearchOptions)
    (results : list FilesystemSearchResult) :
  searchType options = Some ByFilename ->
  search JSON_parse JSON_stringify v options = Resolved results ->
  Forall (fun r =>
    filename r = Path.basename (path r)
    /\ JS.includes (JS.toLowerCase (filename r)) (JS.toLowerCase (query options)) = true
    /\ exists text,
         readFile v (path r) = Resolved text
         /\ map content (matches r)
            = if default true (includeContent options)
              then List.filter
                     (fun l => JS.includes (JS.toLowerCase l) (JS.toLowerCase (query options)))
                     (JS.split_lines text)
              else []) results.
Proof.
  unfold search, getAllMarkdownFiles. intros -> Hsearch.
  destruct (listing v) as [files|]; [|done]. cbn in Hsearch. injection Hsearch as <-.
  apply searchLoop_Forall; [|done].
  intros f text r Hread. unfold searchFile. cbn [selected obind].
  destruct (JS.includes _ _) eqn:Hname; [|done].
  intros [= <-]. cbn [filename path matches]. split; [done|]. split; [done|].
  exists text. split; [done|].
  destruct (default true (includeContent options)); [|done].
  apply contextMatches_lines.
Qed.

End Operations.

(** ** The ranking of fuzzySearch *)

Lemma insertScored_perm (x : Scored) (l : list Scored) : insertScored x l ≡ₚ x :: l.
Proof.
  induction l as [|y l IH]; cbn; [done|].
  destruct (score y >=? score x); [|done].
  rewrite IH. apply Permutation_swap.
Qed.

Lemma insertScored_sorted (x : Scored) (l : list Scored) :
  StronglySorted byScore l -> StronglySorted byScore (insertScored x l).
Proof.
  induction 1 as [|y l Hsorted IH Hy]; cbn.
  - by repeat constructor.
  - destruct (Z.geb_spec (score y) (score x)) as [Hge|Hlt].
    + constructor; [done|]. rewrite insertScored_perm.
      constructor; [unfold byScore; lia|done].
    + constructor; [by constructor|].
      constructor; [unfold byScore; lia|].
      eapply Forall_impl; [exact Hy|]. unfold byScore. intros z Hz. lia.
Qed.

Lemma fold_insertScored (l : list Scored) :
  forall sorted,
    StronglySorted byScore sorted ->
    StronglySorted byScore (fold_left (fun sorted x => insertScored x sorted) l sorted)
    /\ fold_left (fun sorted x => insertScored x sorted) l sorted ≡ₚ (sorted ++ l)%list.
Proof.
  induction l as [|x l IH]; intros sorted Hsorted; cbn.
  - by rewrite app_nil_r.
  - destruct (IH (insertScored x sorted)) as [Hs Hp]; [by apply insertScored_sorted|].
    split; [done|]. rewrite Hp, insertScored_perm. cbn [app]. apply Permutation_middle.
Qed.

Lemma sortScored_sorted (l : list Scored) : StronglySorted byScore (sortScored l).
Proof. apply fold_insertScored. constructor. Qed.

Lemma sortScored_perm (l : list Scored) : sortScored l ≡ₚ l.
Proof. apply (fold_insertScored l []). constructor. Qed.

(** In a sorted list an entry of a higher score stands first. *)
Lemma sorted_higher_first (l : list Scored) (i j : nat) (x y : Scored) :
  StronglySorted byScore l ->
  l !! i = Some x -> l !! j = Some y -> score y < score x -> (i < j)%nat.
Proof.
  intros Hsorted. revert i j. induction Hsorted as [|z l _ IH Hz]; intros i j Hi Hj Hlt.
  - by rewrite lookup_nil in Hi.
  - destruct i as [|i], j as [|j]; cbn in *.
    + simplify_eq. lia.
    + lia.
    + simplify_eq. apply list_elem_of_lookup_2 in Hi.
      rewrite Forall_forall in Hz. specialize (Hz x Hi). unfold byScore in Hz. lia.
    + assert (i < j)%nat by (by eapply IH). lia.
Qed.

(** [a.slice(0, n)] is a prefix. *)
Lemma slice_prefix {A} (l : list A) (n : Z) : exists m, JS.slice l 0 n = firstn m l.
Proof.
  unfold JS.slice. eexists.
  replace (JS.clamp_index (Z.of_nat (length l)) 0) with 0; [done|].
  unfold JS.clamp_index. cbn. lia.
Qed.

Section Ranking.

Variable JSON_parse : string -> option json.

Lemma fuzzySearch_ranking (v : Vault) (files : list string) (queryText : string) (cap : option Z) :
  getAllMarkdownFiles v = Resolved files ->
  fuzzySearch JSON_parse v queryText cap = Resolved (map result (ranking JSON_parse v files queryText cap)).
Proof. unfold fuzzySearch, ranking. by intros ->. Qed.

(** The content adds at most 30 to a score. *)
Lemma contentScore_bound (ql : string) (parts : list string) (text : string) :
  0 <= contentScore ql parts text <= 30.
Proof. unfold contentScore. repeat case_match; lia. Qed.

Lemma filenameScore_nonneg (ql : string) (parts : list string) (name : string) :
  0 <= filenameScore ql parts name.
Proof. unfold filenameScore. repeat case_match; lia. Qed.

(** X1: a file that can be read and passes the test of the exact name as
    the code makes it gets 100 or more, and in the ranking it stands before
    every entry that the file name gave nothing, which has 30 at most. *)
Theorem exact_name_ranks_first (v : Vault) (files : list string) (queryText : string)
    (cap : option Z) (f text : string) (j : nat) (y : Scored) :
  let queryLower := JS.toLowerCase queryText in
  let queryParts := JS.split_spaces queryLower in
  f ∈ files ->
  readFile v f = Resolved text ->
  JS.remove_first ".md" (JS.toLowerCase (Path.basename f)) = queryLower ->
  ranking JSON_parse v files queryText cap !! j = Some y ->
  filenameScore queryLower queryParts (JS.toLowerCase (Path.basename (file y))) = 0 ->
  score y <= 30
  /\ exists i x,
       (i < j)%nat /\ ranking JSON_parse v files queryText cap !! i = Some x
       /\ file x = f /\ 100 <= score x.
Proof.
  intros ql parts Hf Hread Hexact Hy Hname. unfold ranking in *. fold ql parts in Hy |- *.
  set (scored := omap (scoreFile JSON_parse v ql parts) files) in *.
  destruct (slice_prefix (sortScored scored) (default 10 cap)) as [m Hm].
  rewrite Hm in Hy |- *. clear Hm.
  apply lookup_take_Some in Hy as [Hy Hjm].
  assert (score y <= 30) as Hlow.
  { apply list_elem_of_lookup_2 in Hy. rewrite sortScored_perm in Hy.
    apply list_elem_of_omap in Hy as (g & _ & Hg). unfold scoreFile in Hg.
    destruct (readFile v g) as [t|]; [|done].
    destruct (_ >? 0); [|done]. injection Hg as <-. cbn [file score] in *.
    rewrite Hname. pose proof (contentScore_bound ql parts (JS.toLowerCase t)). lia. }
  split; [done|].
  pose proof (contentScore_bound ql parts (JS.toLowerCase text)) as Hc.
  assert (100 <= filenameScore ql parts (JS.toLowerCase (Path.basename f))) as Hn.
  { unfold filenameScore. rewrite Hexact, String.eqb_refl. repeat case_match; lia. }
  set (total := filenameScore ql parts (JS.toLowerCase (Path.basename f))
                + contentScore ql parts (JS.toLowerCase text)) in *.
  assert (exists x, scoreFile JSON_parse v ql parts f = Some x /\ file x = f /\ score x = total)
    as (x & Hx & Hfile & Hscore).
  { unfold scoreFile. rewrite Hread. fold total.
    destruct (Z.gtb_spec total 0); [eauto|]. subst total. lia. }
  assert (x ∈ sortScored scored) as Hin.
  { rewrite sortScored_perm. apply list_elem_of_omap. eauto. }
  apply list_elem_of_lookup in Hin as [i Hi].
  assert (i < j)%nat as Hij.
  { eapply sorted_higher_first; [apply sortScored_sorted|exact Hi|exact Hy|]. subst total. lia. }
  exists i, x. split; [done|]. split; [|split; [done|subst total; lia]].
  rewrite lookup_take_lt by lia. done.
Qed.

(** C5, at the input where it fails: the name of [a.mdb.md] without its
    extension is the query [a.mdb], and the file gets 80. The test of the
    exact name compares the query with the name after the first [.md] in it
    was removed, here [ab.md]. *)
Example fuzzy_score_extension_inside_name :
  Path.basename_ext "a.mdb.md" ".md" = JS.toLowerCase "a.mdb"
  /\ JS.remove_first ".md" (JS.toLowerCase (Path.basename "a.mdb.md")) = "ab.md"
  /\ option_map score
       (scoreFile JSON_parse (vaultOf [("a.mdb.md", Resolved "")])
          (JS.toLowerCase "a.mdb") (JS.split_spaces (JS.toLowerCase "a.mdb")) "a.mdb.md")
     = Some 80.
Proof. repeat split; vm_compute; reflexivity. Qed.

End Ranking.

(** ** Tags *)

Lemma all_chars_impl (p q : ascii -> bool) (s : string) :
  (forall c, p c = true -> q c = true) -> all_chars p s = true -> all_chars q s = true.
Proof.
  intros Hpq. induction s as [|c s IH]; cbn; [done|].
  intros [Hc Hs]%andb_prop. by rewrite (Hpq c Hc), IH.
Qed.

Lemma all_chars_app (p : ascii -> bool) (a b : string) :
  all_chars p (a ++ b) = all_chars p a && all_chars p b.
Proof.
  induction a as [|c a IH]; [done|].
  rewrite app_cons. cbn [all_chars]. by rewrite IH, andb_assoc.
Qed.

(** A character of a tag is no space, quote, bracket, brace, line feed,
    hash or colon. *)
Lemma tag_char_plain (c : ascii) :
  is_tag_char c = true ->
  JS.is_space c = false /\ is_quote c = false
  /\ not_char "[" c = true /\ not_char "{" c = true
  /\ not_char JS.LF c = true /\ not_char "#" c = true.
Proof.
  destruct c as [[] [] [] [] [] [] [] []]; vm_compute; intros H;
    first [discriminate H | repeat split].
Qed.

(** The same of all the characters of a word of a tag. *)
Lemma tag_word_plain (w : string) :
  all_chars is_tag_char w = true ->
  all_chars (fun c => negb (JS.is_space c)) w = true
  /\ all_chars (fun c => negb (is_quote c)) w = true
  /\ all_chars (not_char JS.LF) w = true
  /\ all_chars (not_char "#") w = true.
Proof.
  intros Hw. repeat split; (eapply all_chars_impl; [|exact Hw]); intros c Hc;
    apply tag_char_plain in Hc as (Hs & Hq & _ & _ & Hl & Hh); by rewrite ?Hs, ?Hq.
Qed.

Lemma startsWith_app (p rest : string) : JS.startsWith (p ++ rest) p = true.
Proof.
  induction p as [|c p IH]; [done|].
  rewrite app_cons. cbn [JS.startsWith]. by rewrite Ascii.eqb_refl, IH.
Qed.

Lemma before_first_unfold (pat s : string) :
  JS.before_first pat s
  = if JS.startsWith s pat then Some EmptyString
    else match s with
         | EmptyString => None
         | String c s' => option_map (String c) (JS.before_first pat s')
         end.
Proof. by destruct s. Qed.

Lemma before_first_text (text p rest : string) :
  all_chars (not_char JS.LF) text = true ->
  JS.before_first (String JS.LF p) (text ++ String JS.LF p ++ rest) = Some text.
Proof.
  intros Ht. induction text as [|c text IH]; rewrite before_first_unfold.
  - rewrite app_nil. by rewrite (startsWith_app (String JS.LF p) rest).
  - cbn [all_chars] in Ht. apply andb_prop in Ht as [Hc Ht].
    rewrite app_cons. cbn [JS.startsWith].
    unfold not_char in Hc. apply negb_true_iff in Hc.
    rewrite Ascii.eqb_sym, Hc. cbn [andb]. by rewrite IH.
Qed.

Lemma split_lines_text (text : string) :
  all_chars (not_char JS.LF) text = true -> JS.split_lines text = [text].
Proof.
  induction text as [|c text IH]; cbn; [done|].
  intros [Hc Ht]%andb_prop. unfold not_char in Hc. apply negb_true_iff in Hc.
  by rewrite Hc, IH.
Qed.

Lemma trimEnd_text (text : string) :
  all_chars (fun c => negb (JS.is_space c)) text = true -> JS.trimEnd text = text.
Proof.
  induction text as [|c text IH]; cbn; [done|].
  intros [Hc Ht]%andb_prop. apply negb_true_iff in Hc.
  rewrite IH by done. destruct text; [by rewrite Hc|done].
Qed.

Lemma dropLastQuote_text (text : string) :
  all_chars (fun c => negb (is_quote c)) text = true -> dropLastQuote text = text.
Proof.
  induction text as [|c text IH]; cbn; [done|].
  intros [Hc Ht]%andb_prop. apply negb_true_iff in Hc.
  destruct text; [by rewrite Hc|]. by rewrite IH.
Qed.

Lemma span_whole (p : ascii -> bool) (s : string) :
  all_chars p s = true -> JS.span p s = (s, EmptyString).
Proof.
  induction s as [|c s IH]; cbn; [done|].
  intros [Hc Hs]%andb_prop. by rewrite Hc, IH.
Qed.

(** Text without a hash holds no tag. *)
Lemma scan_tags_text (text rest : string) :
  all_chars (not_char "#") text = true ->
  JS.scan tagRegex O (text ++ rest) = JS.scan tagRegex O rest.
Proof.
  intros Ht. induction text as [|c text IH]; [done|].
  cbn [all_chars] in Ht. apply andb_prop in Ht as [Hc Ht].
  rewrite app_cons, scan_cons.
  assert (tagRegex (String c (text ++ rest)) = None) as ->; [|by apply IH].
  unfold tagRegex, not_char in *. apply negb_true_iff in Hc. by rewrite Hc.
Qed.

Lemma tagRegex_word (w : string) :
  w <> EmptyString -> all_chars is_tag_char w = true ->
  tagRegex (String "#" w) = Some (String "#" w, S (String.length w)).
Proof.
  intros Hne Hw. unfold tagRegex. cbn [Ascii.eqb Bool.eqb].
  rewrite span_whole by done. by destruct w.
Qed.

Lemma scan_tags_word (w : string) :
  w <> EmptyString -> all_chars is_tag_char w = true ->
  JS.scan tagRegex O (String "#" w) = [String "#" w].
Proof.
  intros Hne Hw. rewrite scan_cons, tagRegex_word by done.
  f_equal. cbn [Nat.pred].
  rewrite <- (string_app_nil_r w) at 2. by rewrite scan_skip.
Qed.

Lemma string_neq_cons (c : ascii) (s : string) : String c s <> s.
Proof. intros H. apply (f_equal String.length) in H. cbn in H. lia. Qed.

Section Tags.

Variable JSON_parse : string -> option json.
Variable JSON_stringify : json -> string.

Lemma extractFrontmatter_tagged (w : string) :
  w <> EmptyString -> all_chars is_tag_char w = true ->
  extractFrontmatter JSON_parse (taggedBothWays w)
  = mkFrontmatter [("tags", JString w)] ObjectPrototype.
Proof.
  intros Hne Hw.
  assert (all_chars (not_char JS.LF) ("tags: " ++ w) = true) as Hline.
  { rewrite all_chars_app. apply andb_true_intro. split; [reflexivity|].
    by apply tag_word_plain. }
  unfold extractFrontmatter, frontmatterRegex, taggedBothWays, JS.nl.
  rewrite !app_cons, !app_nil. cbn [JS.startsWith Ascii.eqb Bool.eqb andb JS.drop].
  change (String "t" (String "a" (String "g" (String "s" (String ":" (String " "
            (w ++ String JS.LF (String "-" (String "-" (String "-"
               (String JS.LF (String "#" w)))))))))))) 
    with (("tags: " ++ w) ++ String JS.LF "---" ++ String JS.LF (String "#" w)).
  rewrite (before_first_text ("tags: " ++ w) "---") by done.
  rewrite Ascii.eqb_refl. cbn [andb].
  rewrite split_lines_text by done. cbn [fold_left].
  unfold frontmatterLine. rewrite !app_cons, !app_nil.
  cbn [JS.indexOf Ascii.eqb Bool.eqb option_map JS.take JS.drop].
  destruct w as [|c w]; [done|].
  cbn [all_chars] in Hw. apply andb_prop in Hw as [Hc Hw].
  destruct (tag_char_plain c Hc) as (Hsp & Hq & Hb1 & Hb2 & _).
  assert (JS.trim (String " " (String c w)) = String c w) as ->.
  { unfold JS.trim. cbn [JS.trimStart]. 
    change (JS.is_space " ") with true. cbn iota. rewrite Hsp.
    apply trimEnd_text. cbn [all_chars]. rewrite Hsp. cbn.
    by apply tag_word_plain. }
  assert (stripQuotes (String c w) = String c w) as ->.
  { unfold stripQuotes, dropFirstQuote. rewrite Hq.
    apply dropLastQuote_text. cbn [all_chars]. rewrite Hq. cbn.
    by apply tag_word_plain. }
  unfold not_char in Hb1, Hb2. apply negb_true_iff in Hb1, Hb2.
  cbn [JS.startsWith]. rewrite Ascii.eqb_sym, Hb1, (Ascii.eqb_sym "{"), Hb2.
  reflexivity.
Qed.

Lemma inlineTags_tagged (w : string) :
  w <> EmptyString -> all_chars is_tag_char w = true ->
  inlineTags (taggedBothWays w) = [String "#" w].
Proof.
  intros Hne Hw. unfold inlineTags.
  change (taggedBothWays w)
    with (("---" ++ JS.nl ++ "tags: ") ++ w ++ (JS.nl ++ "---" ++ JS.nl) ++ String "#" w).
  rewrite scan_tags_text by reflexivity.
  rewrite scan_tags_text by (by apply tag_word_plain).
  rewrite scan_tags_text by reflexivity.
  by apply scan_tags_word.
Qed.

(** An inline tag starts with its hash. *)
Lemma inlineTags_hash (text tag : string) :
  tag ∈ inlineTags text -> JS.startsWith tag "#" = true.
Proof.
  intros H. apply elem_of_scan in H as (s & n & Hm).
  unfold tagRegex in Hm. destruct s as [|c r]; [done|].
  destruct (Ascii.eqb c "#"); [|done].
  destruct (JS.span is_tag_char r) as [[|d run] rest]; [done|].
  by injection Hm as <- _.
Qed.

(** Over tags that are strings, [some] is a plain search. *)
Lemma someTag_strings (ql : string) (ts : list string) :
  someTag ql (map JString ts)
  = Resolved (existsb (fun tag => JS.includes (JS.toLowerCase tag) ql) ts).
Proof.
  induction ts as [|tag ts IH]; cbn; [done|].
  destruct (JS.includes (JS.toLowerCase tag) ql); [done|exact IH].
Qed.

(** A tag that is in the set stays in it. *)
Lemma elem_of_tag_add (x y : json) (s : list json) : y ∈ s -> y ∈ tag_add x s.
Proof.
  intros Hy. unfold tag_add. destruct (existsb (sameValueZero x) s); [done|].
  apply elem_of_app. by left.
Qed.

(** A string is in the set after it was added. *)
Lemma elem_of_tag_add_string (t : string) (s : list json) : JString t ∈ tag_add (JString t) s.
Proof.
  unfold tag_add. destruct (existsb (sameValueZero (JString t)) s) eqn:Hin.
  - apply existsb_exists in Hin as (y & Hy & Hsame).
    destruct y; try discriminate. cbn in Hsame. apply String.eqb_eq in Hsame as ->.
    by apply list_elem_of_In.
  - apply elem_of_app. right. apply list_elem_of_singleton. done.
Qed.

Lemma elem_of_fold_tag_add (x : json) (ts : list string) :
  forall s, x ∈ s -> x ∈ fold_left (fun s tag => tag_add (JString tag) s) ts s.
Proof.
  induction ts as [|t ts IH]; intros s Hx; cbn; [done|].
  by apply IH, elem_of_tag_add.
Qed.

Lemma elem_of_fold_tag_add_string (t : string) (ts : list string) :
  forall s, t ∈ ts -> JString t ∈ fold_left (fun s tag => tag_add (JString tag) s) ts s.
Proof.
  induction ts as [|u ts IH]; intros s Ht; cbn; [by apply elem_of_nil in Ht|].
  apply elem_of_cons in Ht as [<-|Ht]; [|by apply IH].
  apply elem_of_fold_tag_add, elem_of_tag_add_string.
Qed.

End Tags.

(** ** The operations on example vaults *)

Lemma search_by_filename_witness :
  search Host.parse Host.stringify fooNote (byFilename "foo" (Some false))
  = Resolved [mkResult "foo.md" "foo.md" [] emptyObject]
  /\ Forall (fun r =>
       filename r = Path.basename (path r)
       /\ JS.includes (JS.toLowerCase (filename r)) "foo" = true
       /\ exists text,
            readFile fooNote (path r) = Resolved text /\ map content (matches r) = [])
       [mkResult "foo.md" "foo.md" [] emptyObject].
Proof.
  split; [reflexivity|].
  apply (search_by_filename Host.parse Host.stringify fooNote (byFilename "foo" (Some false)));
    reflexivity.
Defined.

(** C6 as stated fails: with content included, the result of a search by
    file name carries a match record, the line that contains the query. *)
Lemma search_by_filename_with_content :
  search Host.parse Host.stringify fooNote (byFilename "foo" (Some true))
  = Resolved [mkResult "foo.md" "foo.md" [mkMatch 1 "Foo bar" "Foo bar"] emptyObject].
Proof. reflexivity. Qed.

(** C7 as stated fails: an empty query and a negative depth are not
    rejected, each of the three operations returns its results. *)
Lemma no_parameter_validation_example :
  search Host.parse Host.stringify twoNotes (mkSearchOptions "" None None None None)
  = Resolved [mkResult "A.md" "A.md" [mkMatch 1 "[[B]]" "[[B]]"] emptyObject;
              mkResult "B.md" "B.md" [mkMatch 1 "" ""] emptyObject]
  /\ fuzzySearch Host.parse twoNotes "" None
     = Resolved [mkResult "A.md" "A.md" [mkMatch 1 "[[B]]" "[[B]]"] emptyObject;
                 mkResult "B.md" "B.md" [mkMatch 1 "" ""] emptyObject]
  /\ graphSearch Host.parse twoNotes (mkGraphSearchOptions (Some (-1)) None None)
     = Resolved [noteA; noteB].
Proof. repeat split; vm_compute; reflexivity. Qed.

Lemma no_parameter_validation_witness :
  is_rejected (search Host.parse Host.stringify twoNotes (mkSearchOptions "" None None None None))
  = false
  /\ is_rejected (graphSearch Host.parse twoNotes (mkGraphSearchOptions (Some (-1)) None None))
     = false
  /\ isConnected emptyGraph "A.md" "B.md" (-1) = false.
Proof.
  destruct (no_parameter_validation Host.parse Host.stringify twoNotes
              (mkSearchOptions "" None None None None) "" None
              (mkGraphSearchOptions (Some (-1)) None None))
    as (Hsearch & _ & Hgraph & _ & Hdepth).
  split; [exact Hsearch|]. split; [exact Hgraph|].
  apply (Hdepth emptyGraph "A.md" "B.md" (-1)). lia.
Defined.

(** C8 as stated fails for [graphSearch]: the link of [A.md] resolves to
    the unreadable [x/B.md], so [y/B.md] is left out as an orphan; over the
    readable files alone the link resolves to [y/B.md], which is an entry
    then. *)
Lemma graphSearch_unreadable_link_target :
  graphSearch Host.parse shadowedNote (mkGraphSearchOptions None None None)
  = Resolved [noteA]
  /\ graphSearch Host.parse (withoutUnreadable shadowedNote) (mkGraphSearchOptions None None None)
     = Resolved [noteA; mkGraphResult "B.md" "y/B.md" [] ["A.md"] [] emptyObject].
Proof. split; vm_compute; reflexivity. Qed.

Lemma exact_name_ranks_first_witness :
  let other :=
    mkScored "Other.md" 30
      (mkResult "Other.md" "Other.md"
         [mkMatch 1 "the word claude once" "the word claude once"] emptyObject) in
  ranking Host.parse claudeNotes ["Other.md"; "Claude.md"] "claude" None !! 1%nat = Some other
  /\ score other <= 30
  /\ exists i x,
       (i < 1)%nat
       /\ ranking Host.parse claudeNotes ["Other.md"; "Claude.md"] "claude" None !! i = Some x
       /\ file x = "Claude.md" /\ 100 <= score x.
Proof.
  cbn zeta. split; [reflexivity|].
  apply (exact_name_ranks_first Host.parse claudeNotes ["Other.md"; "Claude.md"] "claude" None
           "Claude.md" "" 1).
  - repeat constructor.
  - reflexivity.
  - reflexivity.
  - reflexivity.
  - reflexivity.
Defined.

Lemma graphSearch_orphans_witness :
  let files := ["A.md"; "B.md"; "C.md"] in
  let g := fold_left (indexFile threeNotes files) files emptyGraph in
  "C.md" ∈ map node_path [noteA; noteB; noteC]
  <-> "C.md" ∈ files
      /\ exists text,
           readFile threeNotes "C.md" = Resolved text
           /\ (default false (Some false) = true
               \/ extractLinks text <> []
               \/ backlinksOf g "C.md" <> []).
Proof.
  cbn zeta.
  apply (graphSearch_orphans Host.parse threeNotes ["A.md"; "B.md"; "C.md"] _ None (Some false)).
  - reflexivity.
  - reflexivity.
  - vm_compute. reflexivity.
Defined.

(** ** isConnected is reachability within the depth *)

Lemma hops_snoc (g : LinkGraph) (n : nat) (x y z : string) :
  hops g n x y -> edge g y z -> hops g (S n) x z.
Proof.
  induction 1 as [x|n x w y Hxw _ IH]; intros Hedge.
  - econstructor; [exact Hedge|constructor].
  - econstructor; [exact Hxw|by apply IH].
Qed.

(** An answer of true comes with a path: every entry of the queue is a file
    that many hops away from the start. *)
Lemma bfs_sound (g : LinkGraph) (file1 file2 : string) (maxDepth : Z) (fuel : nat) :
  forall (visited : gset string) (queue : list (string * Z)),
    (forall x d, (x, d) ∈ queue ->
       exists n, d = Z.of_nat n /\ d <= maxDepth /\ hops g n file1 x) ->
    bfs g file2 maxDepth fuel visited queue = Some true ->
    exists n, Z.of_nat n <= maxDepth /\ hops g n file1 file2.
Proof.
  induction fuel as [|fuel IH]; intros visited [|[f depth] queue] Hq; cbn; try done.
  destruct (String.eqb_spec f file2) as [->|Hne].
  { intros _. destruct (Hq file2 depth) as (n & -> & Hle & Hn); [left|]. eauto. }
  assert (forall x d, (x, d) ∈ queue ->
            exists n, d = Z.of_nat n /\ d <= maxDepth /\ hops g n file1 x) as Hrest.
  { intros x d Hin. apply Hq. by right. }
  destruct (Z.geb_spec depth maxDepth) as [Hge|Hlt]; [by apply IH|].
  destruct (bool_decide (f ∈ visited)); [by apply IH|].
  apply IH. intros x d Hin.
  destruct (Hq f depth) as (n & -> & _ & Hn); [left|].
  rewrite !elem_of_app, !list_elem_of_fmap in Hin.
  destruct Hin as [Hin|[(y & [= -> ->] & Hy)|(y & [= -> ->] & Hy)]]; [by apply Hrest| |];
    (exists (S n); split; [lia|]; split; [lia|]);
    (eapply hops_snoc; [exact Hn|]); [by left|by right].
Qed.

Lemma sorted_same_depth (c : Z) (l : list (string * Z)) :
  (forall p, p ∈ l -> p.2 = c) ->
  StronglySorted (fun p q : string * Z => p.2 <= q.2) l.
Proof.
  induction l as [|p l IH]; intros Hl; constructor.
  - apply IH. intros q Hq. apply Hl. by right.
  - apply Forall_forall. intros q Hq.
    rewrite (Hl p), (Hl q); [lia|by right|left].
Qed.

(** The invariant goes from turn to turn as long as the answer is not true,
    and at the end the queue is empty. *)
Lemma bfs_inv_run (g : LinkGraph) (file1 file2 : string) (maxDepth : Z) (fuel : nat) :
  0 < maxDepth ->
  forall (level : gmap string Z) (queue : list (string * Z)),
    bfs_inv g file1 file2 maxDepth level queue ->
    bfs g file2 maxDepth fuel (dom level) queue = Some false ->
    exists level', bfs_inv g file1 file2 maxDepth level' [].
Proof.
  intros Hpos. induction fuel as [|fuel IH]; intros level [|[f h] queue] Hinv; cbn; try done.
  { intros _. by exists level. }
  { intros _. by exists level. }
  destruct Hinv as [Hroot Htarget Hedges Hmono Hsorted Hspread].
  destruct (String.eqb_spec f file2) as [->|Hne]; [done|].
  apply StronglySorted_inv in Hsorted as [Hsorted Hhead].
  rewrite Forall_forall in Hhead.
  assert (forall y d, present level ((f, h) :: queue) y d ->
            present level queue y d \/ (y = f /\ h <= d)) as Hpop.
  { intros y d [(d' & Hin & Hd)|Hlev]; [|by left; right].
    apply elem_of_cons in Hin as [[= -> ->]|Hin]; [by right|].
    left. left. eauto. }
  destruct (Z.geb_spec h maxDepth) as [Hge|Hlt].
  { (* the entry is at the depth bound: dropped *)
    apply IH. split; try done.
    - destruct (Hpop _ _ Hroot) as [?|[_ ?]]; [done|lia].
    - intros x k y Hx Hxy. destruct (Hedges x k y Hx Hxy) as [Hp|?]; [|by right].
      destruct (Hpop _ _ Hp) as [?|[-> ?]]; [by left|]. right. split; [done|lia].
    - intros x k y d Hx Hin. eapply Hmono; [exact Hx|]. by right.
    - intros p q Hp Hq. apply Hspread; by right. }
  destruct (decide (f ∈ dom level)) as [Hvis|Hvis].
  { (* the file was visited before *)
    rewrite bool_decide_eq_true_2 by done. apply IH.
    apply elem_of_dom in Hvis as [k Hk].
    assert (k <= h) as Hkh by (eapply Hmono; [exact Hk|left]).
    assert (forall y d, present level ((f, h) :: queue) y d -> present level queue y d) as Hpop'.
    { intros y d Hp. destruct (Hpop _ _ Hp) as [?|[-> ?]]; [done|].
      right. exists k. split; [done|lia]. }
    split; try done.
    - by apply Hpop'.
    - intros x k' y Hx Hxy. destruct (Hedges x k' y Hx Hxy) as [Hp|?]; [|by right].
      left. by apply Hpop'.
    - intros x k' y d Hx Hin. eapply Hmono; [exact Hx|]. by right.
    - intros p q Hp Hq. apply Hspread; by right. }
  (* the file is visited now, at depth [h] *)
  rewrite bool_decide_eq_false_2 by done.
  replace ({[f]} ∪ dom level) with (dom (<[f:=h]> level)) by (by rewrite dom_insert_L).
  apply IH.
  apply not_elem_of_dom in Hvis.
  set (added := (map (fun link : string => (link, h + 1)) (linksOf g f)
                 ++ map (fun backlink : string => (backlink, h + 1)) (backlinksOf g f))%list).
  assert (forall y d, (y, d) ∈ added <-> d = h + 1 /\ edge g f y) as Hadded.
  { intros y d. unfold added, edge. rewrite elem_of_app, !list_elem_of_fmap. split.
    - intros [(z & [= -> ->] & Hz)|(z & [= -> ->] & Hz)]; auto.
    - intros [-> [Hy|Hy]]; [left|right]; by exists y. }
  assert (forall y d, present level ((f, h) :: queue) y d ->
            present (<[f:=h]> level) (queue ++ added) y d) as Hkeep.
  { intros y d [(d' & Hin & Hd)|(k & Hk & Hd)].
    - apply elem_of_cons in Hin as [[= -> ->]|Hin].
      + right. exists h. by rewrite lookup_insert_eq.
      + left. exists d'. split; [|done]. apply elem_of_app. by left.
    - right. exists k. split; [|done].
      rewrite lookup_insert_ne; [done|]. intros ->. congruence. }
  split.
  - by apply Hkeep.
  - rewrite lookup_insert_ne by done. exact Htarget.
  - intros x k y Hx Hxy. destruct (decide (x = f)) as [->|Hxf].
    + rewrite lookup_insert_eq in Hx. injection Hx as <-.
      left. left. exists (h + 1). split; [|lia].
      apply elem_of_app. right. by apply Hadded.
    + rewrite lookup_insert_ne in Hx by done.
      destruct (Hedges x k y Hx Hxy) as [Hp|?]; [|by right].
      left. by apply Hkeep.
  - intros x k y d Hx Hin. apply elem_of_app in Hin.
    destruct (decide (x = f)) as [->|Hxf].
    + rewrite lookup_insert_eq in Hx. injection Hx as <-.
      destruct Hin as [Hin|Hin]; [exact (Hhead _ Hin)|].
      apply Hadded in Hin as [-> _]. lia.
    + rewrite lookup_insert_ne in Hx by done.
      destruct Hin as [Hin|Hin]; [eapply Hmono; [exact Hx|by right]|].
      apply Hadded in Hin as [-> _].
      assert (k <= h) by (eapply Hmono; [exact Hx|left]). lia.
  - apply StronglySorted_app_2; [|done|].
    + intros [y d] [z d'] Hy Hz. apply Hadded in Hz as [-> _]. cbn.
      assert (d <= h + 1); [|done].
      apply (Hspread (f, h) (y, d)); [left|by right].
    + apply (sorted_same_depth (h + 1)). intros [y d] Hy. by apply Hadded in Hy as [-> _].
  - intros [y d] [z d'] Hy Hz. cbn. apply elem_of_app in Hy, Hz.
    assert (forall w e, (w, e) ∈ queue -> h <= e <= h + 1) as Hq.
    { intros w e Hw. split; [exact (Hhead _ Hw)|].
      apply (Hspread (f, h) (w, e)); [left|by right]. }
    destruct Hy as [Hy|Hy], Hz as [Hz|Hz];
      try (apply Hadded in Hy as [-> _]); try (apply Hadded in Hz as [-> _]);
      try (apply Hq in Hy); try (apply Hq in Hz); lia.
Qed.

(** With the queue empty, what was in reach of a visited file within the
    depth was visited, so the target, never visited, is not in reach. *)
Lemma bfs_inv_unreached (g : LinkGraph) (file1 file2 : string) (maxDepth : Z)
    (level : gmap string Z) (n : nat) :
  bfs_inv g file1 file2 maxDepth level [] ->
  forall x k d,
    level !! x = Some k -> k <= d -> d + Z.of_nat n <= maxDepth ->
    hops g n x file2 -> False.
Proof.
  intros Hinv. induction n as [|n IH]; intros x k d Hx Hk Hd Hhops.
  - inversion Hhops; subst. pose proof (inv_target _ _ _ _ _ _ Hinv). congruence.
  - inversion Hhops as [|? ? y ? Hxy Hrest]; subst.
    destruct (inv_edges _ _ _ _ _ _ Hinv x k y Hx Hxy) as [[(d' & Hin & _)|(k' & Hy & Hk')]|[Hne ?]].
    + by apply elem_of_nil in Hin.
    + apply (IH y k' (d + 1)); [done|lia|lia|done].
    + destruct n; [inversion Hrest; by subst|lia].
Qed.

(** [isConnected] answers whether the target is the start or some number
    of hops within the depth leads from the start to the target. *)
Lemma isConnected_hops (g : LinkGraph) (a b : string) (maxDepth : Z) :
  isConnected g a b maxDepth = true
  <-> a = b \/ exists n, Z.of_nat n <= maxDepth /\ hops g n a b.
Proof.
  destruct (decide (a = b)) as [->|Hne].
  { unfold isConnected. rewrite String.eqb_refl. tauto. }
  destruct (Z.le_gt_cases maxDepth 0) as [Hle|Hpos].
  { unfold isConnected. rewrite (proj2 (String.eqb_neq a b) Hne).
    destruct (Z.leb_spec maxDepth 0); [|lia]. split; [done|].
    intros [?|(n & Hn & Hhops)]; [done|].
    destruct n; [inversion Hhops; by subst|lia]. }
  pose proof (isConnected_bfs g a b maxDepth Hne ltac:(lia)) as Hbfs.
  destruct (isConnected g a b maxDepth) eqn:Hanswer.
  - split; [intros _|done]. right.
    eapply (bfs_sound g a b); [|exact Hbfs].
    intros x d Hin. apply list_elem_of_singleton in Hin as [= -> ->].
    exists O. split; [done|]. split; [lia|constructor].
  - split; [done|]. intros [?|(n & Hn & Hhops)]; [done|]. exfalso.
    replace (∅ : gset string) with (dom (∅ : gmap string Z)) in Hbfs by apply dom_empty_L.
    destruct (bfs_inv_run g a b maxDepth (bfsFuel g) ltac:(lia) ∅ [(a, 0)]) as [level Hinv];
      [|exact Hbfs|].
    + split.
      * left. exists 0. split; [left|lia].
      * apply lookup_empty.
      * intros x k y Hx. by rewrite lookup_empty in Hx.
      * intros x k y d Hx. by rewrite lookup_empty in Hx.
      * repeat constructor.
      * intros p q Hp Hq. apply list_elem_of_singleton in Hp as ->.
        apply list_elem_of_singleton in Hq as ->. cbn. lia.
    + destruct (inv_root _ _ _ _ _ _ Hinv) as [(d' & Hin & _)|(k & Hk & Hk0)].
      * by apply elem_of_nil in Hin.
      * eapply (bfs_inv_unreached g a b maxDepth level n Hinv a k 0); (done || lia).
Qed.

(** X4: [isConnected] is reachability within the depth. For every state of
    the link graph, it answers true exactly when the two files are the same
    or at most [maxDepth] hops lead from the first to the second, a hop
    going from a file to a member of its forward set or of its backlinks. *)
Theorem isConnected_reachability (g : LinkGraph) (a b : string) (maxDepth : Z) :
  isConnected g a b maxDepth = true
  <-> a = b \/ exists n, Z.of_nat n <= maxDepth /\ hops g n a b.
Proof. apply isConnected_hops. Qed.

(** X5: a larger depth never loses a connection. *)
Theorem isConnected_depth_monotone (g : LinkGraph) (a b : string) (d d' : Z) :
  d <= d' -> isConnected g a b d = true -> isConnected g a b d' = true.
Proof.
  rewrite !isConnected_hops. intros Hd [->|(n & Hn & Hhops)]; [by left|].
  right. exists n. split; [lia|done].
Qed.

Lemma isConnected_depth_monotone_witness :
  let files := ["A.md"; "B.md"] in
  let g := fold_left (indexFile twoNotes files) files emptyGraph in
  1 <= 2
  /\ isConnected g "B.md" "A.md" 1 = true
  /\ isConnected g "B.md" "A.md" 2 = true.
Proof.
  cbn zeta. split; [lia|]. split; [vm_compute; reflexivity|].
  apply (isConnected_depth_monotone _ "B.md" "A.md" 1 2); [lia|vm_compute; reflexivity].
Defined.

(** ** The loop of search *)

Section SearchLoop.

Variable JSON_parse : string -> option json.
Variable JSON_stringify : json -> string.

(** The loop adds the hits of the files in their order until the array
    holds [cap] results. *)
Lemma searchLoop_hits (v : Vault) (q : string) (cap ctx : Z) (wc : bool) (kind : SearchType)
    (files : list string) :
  forall results,
    searchLoop JSON_parse JSON_stringify v q cap ctx wc kind files results
    = (results
       ++ take (Z.to_nat cap - length results)
            (omap (hit JSON_parse JSON_stringify v q ctx wc kind) files))%list.
Proof.
  induction files as [|f files IH]; intros results; cbn [searchLoop omap list_omap].
  - by rewrite take_nil, app_nil_r.
  - destruct (Z.geb_spec (Z.of_nat (length results)) cap) as [Hfull|Hroom].
    + replace (Z.to_nat cap - length results)%nat with O by lia.
      by rewrite take_0, app_nil_r.
    + unfold hit at 1.
      destruct (obind (readFile v f) _) as [[r|]|]; rewrite IH; [|done|done].
      rewrite length_app, <- app_assoc. cbn [length app].
      replace (Z.to_nat cap - length results)%nat
        with (S (Z.to_nat cap - (length results + 1)))%nat by lia.
      done.
Qed.

Lemma search_hits (v : Vault) (options : SearchOptions) :
  search JSON_parse JSON_stringify v options
  = obind (getAllMarkdownFiles v) (fun files =>
      Resolved (take (Z.to_nat (default 20 (maxResults options)))
                  (omap (hit JSON_parse JSON_stringify v (query options)
                           (default 2 (contextLines options))
                           (default true (includeContent options))
                           (default ByContent (searchType options))) files))).
Proof.
  unfold search. destruct (getAllMarkdownFiles v) as [files|]; cbn [obind]; [|done].
  rewrite searchLoop_hits. cbn [length app]. by rewrite Nat.sub_0_r.
Qed.

(** X6: [search] returns the hits of the first files of the listing that
    have one, in the order of the listing, [maxResults] of them at most
    (20 when it is absent) and none when [maxResults] is zero or
    negative. *)
Theorem search_first_hits (v : Vault) (options : SearchOptions) :
  search JSON_parse JSON_stringify v options
  = obind (getAllMarkdownFiles v) (fun files =>
      Resolved (take (Z.to_nat (default 20 (maxResults options)))
                  (omap (hit JSON_parse JSON_stringify v (query options)
                           (default 2 (contextLines options))
                           (default true (includeContent options))
                           (default ByContent (searchType options))) files))).
Proof. apply search_hits. Qed.

(** X7: a smaller [maxResults] cuts the result of a larger one and changes
    nothing else. *)
Theorem search_cap_prefix (v : Vault) (q : string) (c c' : Z) (ctx : option Z)
    (wc : option bool) (kind : option SearchType) :
  c <= c' ->
  search JSON_parse JSON_stringify v (mkSearchOptions q (Some c) ctx wc kind)
  = obind (search JSON_parse JSON_stringify v (mkSearchOptions q (Some c') ctx wc kind))
      (fun results => Resolved (take (Z.to_nat c) results)).
Proof.
  intros Hc. rewrite !search_hits.
  cbn [query maxResults contextLines includeContent searchType default].
  destruct (getAllMarkdownFiles v) as [files|]; cbn [obind]; [|done].
  rewrite take_take. unfold id. do 2 f_equal. lia.
Qed.

(** The empty query is part of every string. *)
Lemma includes_empty (s : string) : JS.includes s EmptyString = true.
Proof. by destruct s. Qed.

(** X8: with the empty query, a search by content, by file name or by front
    matter returns one result for every file that can be read, in the order
    of the listing, up to [maxResults]. *)
Theorem search_empty_query (v : Vault) (cap ctx : option Z) (wc : option bool)
    (kind : option SearchType) (files : list string) (results : list FilesystemSearchResult) :
  default ByContent kind = ByContent
  \/ default ByContent kind = ByFilename
  \/ default ByContent kind = ByFrontmatter ->
  getAllMarkdownFiles v = Resolved files ->
  search JSON_parse JSON_stringify v (mkSearchOptions EmptyString cap ctx wc kind)
  = Resolved results ->
  map path results = take (Z.to_nat (default 20 cap)) (List.filter (readable v) files).
Proof.
  intros Hkind Hfiles. rewrite search_hits, Hfiles.
  cbn [obind query maxResults contextLines includeContent searchType].
  intros [= <-]. rewrite <- firstn_map. f_equal.
  clear Hfiles. induction files as [|f files IH]; [done|].
  cbn [omap list_omap List.filter]. unfold hit at 1, readable at 1.
  destruct (readFile v f) as [text|]; cbn [obind is_rejected negb]; [|exact IH].
  assert (selected JSON_parse JSON_stringify (Path.basename f) text EmptyString
            (default ByContent kind) = Resolved true) as Hsel.
  { destruct Hkind as [-> | [-> | ->]]; cbn [selected]; by rewrite includes_empty. }
  unfold searchFile. cbn [JS.toLowerCase]. rewrite Hsel. cbn [obind map path].
  by rewrite <- IH.
Qed.

End SearchLoop.

Lemma search_cap_prefix_witness :
  1 <= 2
  /\ search Host.parse Host.stringify threeNotes
       (mkSearchOptions "b" (Some 1) None None None)
     = obind (search Host.parse Host.stringify threeNotes
                (mkSearchOptions "b" (Some 2) None None None))
         (fun results => Resolved (take (Z.to_nat 1) results)).
Proof.
  split; [lia|].
  apply (search_cap_prefix Host.parse Host.stringify threeNotes "b" 1 2 None None None). lia.
Defined.

Lemma search_empty_query_witness :
  let files := ["A.md"; "B.md"; "C.md"] in
  let results :=
    searchLoop Host.parse Host.stringify threeNotes EmptyString 2 2 true ByFilename files [] in
  getAllMarkdownFiles threeNotes = Resolved files
  /\ search Host.parse Host.stringify threeNotes
       (mkSearchOptions EmptyString (Some 2) None None (Some ByFilename))
     = Resolved results
  /\ map path results = take (Z.to_nat 2) (List.filter (readable threeNotes) files).
Proof.
  cbn zeta. split; [reflexivity|]. split; [reflexivity|].
  apply (search_empty_query Host.parse Host.stringify threeNotes (Some 2) None None
           (Some ByFilename));
    [right; left; reflexivity|reflexivity|reflexivity].
Defined.

(** ** The match records *)

(** [a.slice(first, last)] inside the bounds of the array. *)
Lemma slice_range {A} (l : list A) (a b : Z) :
  0 <= a -> a <= b -> b <= Z.of_nat (length l) ->
  JS.slice l a b = take (Z.to_nat b - Z.to_nat a) (drop (Z.to_nat a) l).
Proof.
  intros Ha Hab Hb. unfold JS.slice, JS.clamp_index.
  destruct (Z.ltb_spec a 0); [lia|]. destruct (Z.ltb_spec b 0); [lia|].
  rewrite !Z.min_l by lia. f_equal. lia.
Qed.

(** The slice that the loops over the lines take around line [i]. *)
Lemma slice_window (pre post : list string) (l : string) (ctx : Z) :
  0 <= ctx ->
  JS.slice (pre ++ l :: post)
    (Z.max 0 (Z.of_nat (length pre) - ctx))
    (Z.min (Z.of_nat (length (pre ++ l :: post)) - 1) (Z.of_nat (length pre) + ctx) + 1)
  = (drop (length pre - Z.to_nat ctx) pre ++ l :: take (Z.to_nat ctx) post)%list.
Proof.
  intros Hctx.
  rewrite slice_range; rewrite ?length_app; cbn [length]; try lia.
  replace (Z.to_nat (Z.max 0 (Z.of_nat (length pre) - ctx)))
    with (length pre - Z.to_nat ctx)%nat by lia.
  rewrite drop_app, take_app, length_drop.
  rewrite take_ge by (rewrite length_drop; lia). f_equal.
  replace (length pre - Z.to_nat ctx - length pre)%nat with O by lia. cbn [drop].
  match goal with
  | |- take ?n _ = _ =>
      replace n with (S (Nat.min (Z.to_nat ctx) (length post))) by lia
  end.
  cbn [take]. f_equal.
  destruct (decide (Z.to_nat ctx <= length post)%nat) as [Hle|Hgt].
  - by rewrite Nat.min_l.
  - rewrite Nat.min_r by lia. by rewrite !take_ge by lia.
Qed.

(** The records of [search]: each is the record of a line after the lines
    [pre] already passed, and their line numbers go up. *)
Lemma contextMatches_records (lines : list string) (ql : string) (ctx : Z) :
  0 <= ctx ->
  forall rest pre,
    lines = (pre ++ rest)%list ->
    Forall (fun m => matchOf lines (Z.to_nat ctx) (Z.to_nat ctx) m
                     /\ Z.of_nat (length pre) < line m)
      (contextMatches lines ql ctx (Z.of_nat (length pre)) rest)
    /\ StronglySorted Z.lt (map line (contextMatches lines ql ctx (Z.of_nat (length pre)) rest)).
Proof.
  intros Hctx rest. induction rest as [|l rest IH]; intros pre Hlines; cbn [contextMatches].
  { split; constructor. }
  destruct (IH (pre ++ [l])%list) as [Hrec Hsorted]; [by rewrite <- app_assoc|].
  rewrite length_app in Hrec, Hsorted. cbn [length] in Hrec, Hsorted.
  replace (Z.of_nat (length pre + 1)) with (Z.of_nat (length pre) + 1) in Hrec, Hsorted by lia.
  destruct (JS.includes (JS.toLowerCase l) ql).
  - split.
    + constructor.
      * split; [|cbn; lia]. exists pre, rest. cbn [content line context].
        split; [done|]. split; [done|]. unfold window. f_equal.
        rewrite Hlines. apply slice_window. done.
      * eapply Forall_impl; [exact Hrec|]. intros m [? ?]. split; [done|lia].
    + cbn [map line]. constructor; [done|].
      apply Forall_fmap. eapply Forall_impl; [exact Hrec|]. intros m [_ ?]. cbn. lia.
  - split; [|done]. eapply Forall_impl; [exact Hrec|]. intros m [? ?]. split; [done|lia].
Qed.

(** The records of [fuzzySearch]: the first three lines that contain the
    query, each with one line before and one after. *)
Lemma fuzzyMatches_records (lines : list string) (ql : string) :
  forall rest pre found,
    lines = (pre ++ rest)%list ->
    (length found < 3)%nat ->
    Forall (matchOf lines 1 1) found ->
    map content (fuzzyMatches lines ql (Z.of_nat (length pre)) rest found)
    = (map content found
       ++ take (3 - length found)
            (List.filter (fun l => JS.includes (JS.toLowerCase l) ql) rest))%list
    /\ Forall (matchOf lines 1 1) (fuzzyMatches lines ql (Z.of_nat (length pre)) rest found).
Proof.
  intros rest. induction rest as [|l rest IH]; intros pre found Hlines Hlen Hfound;
    cbn [fuzzyMatches List.filter].
  { by rewrite take_nil, app_nil_r. }
  specialize (IH (pre ++ [l])%list).
  rewrite length_app in IH. cbn [length] in IH.
  replace (Z.of_nat (length pre + 1)) with (Z.of_nat (length pre) + 1) in IH by lia.
  destruct (JS.includes (JS.toLowerCase l) ql); [|by apply IH; [rewrite <- app_assoc|..]].
  set (m := mkMatch _ _ _).
  assert (matchOf lines 1 1 m) as Hm.
  { exists pre, rest. subst m. cbn [content line context]. split; [done|]. split; [done|].
    unfold window. f_equal. rewrite Hlines.
    replace (Z.min (Z.of_nat (length (pre ++ l :: rest))) (Z.of_nat (length pre) + 2))
      with (Z.min (Z.of_nat (length (pre ++ l :: rest)) - 1) (Z.of_nat (length pre) + 1) + 1)
      by lia.
    by apply (slice_window pre rest l 1). }
  assert (Forall (matchOf lines 1 1) (found ++ [m])) as Hfound'.
  { apply Forall_app. split; [done|]. by apply Forall_singleton. }
  rewrite length_app. cbn [length].
  destruct (Nat.leb_spec 3 (length found + 1)) as [Hfull|Hroom].
  - split; [|done]. replace (3 - length found)%nat with 1%nat by lia.
    by rewrite fmap_app.
  - destruct (IH (found ++ [m])%list) as [Hcontent Hrec];
      [by rewrite <- app_assoc|rewrite length_app; cbn; lia|done|].
    split; [|done]. rewrite Hcontent, fmap_app, length_app, <- app_assoc. cbn [length map app].
    replace (3 - length found)%nat with (S (3 - (length found + 1)))%nat by lia. done.
Qed.

(** What holds of the result of every scored file holds of every result of
    [fuzzySearch]. *)
Lemma fuzzySearch_Forall (JSON_parse : string -> option json)
    (P : FilesystemSearchResult -> Prop) (v : Vault) (queryText : string) (cap : option Z)
    (results : list FilesystemSearchResult) :
  (forall f x,
     scoreFile JSON_parse v (JS.toLowerCase queryText)
       (JS.split_spaces (JS.toLowerCase queryText)) f = Some x ->
     P (result x)) ->
  fuzzySearch JSON_parse v queryText cap = Resolved results ->
  Forall P results.
Proof.
  intros Hfile. unfold fuzzySearch.
  destruct (getAllMarkdownFiles v) as [files|]; cbn [obind]; [|done]. intros [= <-].
  destruct (slice_prefix
              (sortScored (omap (scoreFile JSON_parse v (JS.toLowerCase queryText)
                                   (JS.split_spaces (JS.toLowerCase queryText))) files))
              (default 10 cap)) as [n ->].
  apply Forall_fmap, Forall_take, Forall_forall. intros x Hx.
  rewrite sortScored_perm in Hx. apply list_elem_of_omap in Hx as (f & _ & Hf).
  by apply (Hfile f).
Qed.

Section MatchRecords.

Variable JSON_parse : string -> option json.
Variable JSON_stringify : json -> string.

(** X9: with [contextLines] zero or more, every match record of a result of
    [search] is the record of a line of the file: the line number counts
    from one, the content is that line, and the context is the line with
    the [contextLines] lines before it and after it, as far as the file has
    them. The line numbers of the records of a result go up. *)
Theorem search_match_records (v : Vault) (options : SearchOptions)
    (results : list FilesystemSearchResult) :
  0 <= default 2 (contextLines options) ->
  search JSON_parse JSON_stringify v options = Resolved results ->
  Forall (fun r =>
    exists text,
      readFile v (path r) = Resolved text
      /\ Forall (matchOf (JS.split_lines text)
                   (Z.to_nat (default 2 (contextLines options)))
                   (Z.to_nat (default 2 (contextLines options)))) (matches r)
      /\ StronglySorted Z.lt (map line (matches r))) results.
Proof.
  intros Hctx. unfold search. destruct (getAllMarkdownFiles v) as [files|]; [|done].
  cbn [obind]. intros [= <-]. apply searchLoop_Forall; [|done].
  intros f text r Hread. unfold searchFile.
  destruct (selected _ _ _ _ _ _) as [[|]|]; cbn [obind]; try done.
  intros [= <-]. cbn [path matches]. exists text. split; [done|].
  destruct (_ && _); [|by split; constructor].
  destruct (contextMatches_records (JS.split_lines text)
              (JS.toLowerCase (query options)) _ Hctx (JS.split_lines text) [])
    as [Hrec Hsorted]; [done|].
  split; [|done]. eapply Forall_impl; [exact Hrec|]. by intros m [? _].
Qed.

(** X11: a result of [fuzzySearch] carries the first three lines of its file
    that contain the query, letter case apart, fewer when the file has
    fewer, each with the line before it and the line after it as its
    context. *)
Theorem fuzzySearch_match_records (v : Vault) (queryText : string) (cap : option Z)
    (results : list FilesystemSearchResult) :
  fuzzySearch JSON_parse v queryText cap = Resolved results ->
  Forall (fun r =>
    exists text,
      readFile v (path r) = Resolved text
      /\ map content (matches r)
         = take 3 (List.filter
                     (fun l => JS.includes (JS.toLowerCase l) (JS.toLowerCase queryText))
                     (JS.split_lines text))
      /\ Forall (matchOf (JS.split_lines text) 1 1) (matches r)) results.
Proof.
  apply fuzzySearch_Forall. intros f x. unfold scoreFile.
  destruct (readFile v f) as [text|] eqn:Hread; [|done].
  destruct (_ >? 0); [|done]. intros [= <-]. cbn [result path matches].
  exists text. split; [done|].
  apply (fuzzyMatches_records (JS.split_lines text) (JS.toLowerCase queryText)
           (JS.split_lines text) [] []); [done|cbn; lia|constructor].
Qed.

End MatchRecords.

Lemma search_match_records_witness :
  let options := mkSearchOptions "tea" None (Some 1) None None in
  let results :=
    searchLoop Host.parse Host.stringify diary "tea" 20 1 true ByContent ["diary.md"] [] in
  0 <= default 2 (contextLines options)
  /\ search Host.parse Host.stringify diary options = Resolved results
  /\ Forall (fun r =>
       exists text,
         readFile diary (path r) = Resolved text
         /\ Forall (matchOf (JS.split_lines text)
                      (Z.to_nat (default 2 (contextLines options)))
                      (Z.to_nat (default 2 (contextLines options)))) (matches r)
         /\ StronglySorted Z.lt (map line (matches r))) results.
Proof.
  cbn zeta. split; [cbn; lia|]. split; [reflexivity|].
  apply (search_match_records Host.parse Host.stringify diary
           (mkSearchOptions "tea" None (Some 1) None None)); [cbn; lia|reflexivity].
Defined.

Lemma fuzzySearch_match_records_witness :
  let results := map result (ranking Host.parse diary ["diary.md"] "Tea" None) in
  fuzzySearch Host.parse diary "Tea" None = Resolved results
  /\ map (fun r => map content (matches r)) results = [["tea"; "Tea time"; "green tea"]]
  /\ Forall (fun r =>
       exists text,
         readFile diary (path r) = Resolved text
         /\ map content (matches r)
            = take 3 (List.filter
                        (fun l => JS.includes (JS.toLowerCase l) (JS.toLowerCase "Tea"))
                        (JS.split_lines text))
         /\ Forall (matchOf (JS.split_lines text) 1 1) (matches r)) results.
Proof.
  cbn zeta. split; [reflexivity|]. split; [vm_compute; reflexivity|].
  apply (fuzzySearch_match_records Host.parse diary "Tea" None). reflexivity.
Defined.

(** ** Lines and the query *)

Lemma lower_char_LF (c : ascii) : Ascii.eqb (JS.lower_char c) JS.LF = Ascii.eqb c JS.LF.
Proof. by destruct c as [[] [] [] [] [] [] [] []]. Qed.

Lemma split_lines_nonempty (s : string) : JS.split_lines s <> [].
Proof. destruct s as [|c s]; cbn; [done|]. by repeat case_match. Qed.

(** Lower case leaves the line feeds where they are. *)
Lemma split_lines_lower (s : string) :
  JS.split_lines (JS.toLowerCase s) = map JS.toLowerCase (JS.split_lines s).
Proof.
  induction s as [|c s IH]; [done|].
  cbn [JS.toLowerCase JS.split_lines]. rewrite lower_char_LF, IH.
  destruct (Ascii.eqb c JS.LF); [done|].
  pose proof (split_lines_nonempty s). by destruct (JS.split_lines s).
Qed.

Lemma all_chars_lower (q : string) :
  all_chars (not_char JS.LF) q = true -> all_chars (not_char JS.LF) (JS.toLowerCase q) = true.
Proof.
  induction q as [|a q IH]; [done|]. cbn [all_chars JS.toLowerCase].
  unfold not_char at 1 3. rewrite lower_char_LF.
  intros [-> Hq]%andb_true_iff. by rewrite IH.
Qed.

(** A query without a line feed starts a text when it starts its first
    line. *)
Lemma startsWith_first_line (q : string) :
  all_chars (not_char JS.LF) q = true ->
  forall s, JS.startsWith s q = JS.startsWith (hd EmptyString (JS.split_lines s)) q.
Proof.
  induction q as [|a q IH]; [done|]. cbn [all_chars].
  intros [Ha Hq]%andb_true_iff s. destruct s as [|c s]; [done|].
  cbn [JS.split_lines JS.startsWith].
  destruct (Ascii.eqb_spec c JS.LF) as [->|Hc].
  - cbn [hd JS.startsWith]. unfold not_char in Ha. by destruct (Ascii.eqb a JS.LF).
  - rewrite (IH Hq s). by destruct (JS.split_lines s).
Qed.

(** A query without a line feed is in a text when it is in one of its
    lines. *)
Lemma includes_lines (q : string) (s : string) :
  all_chars (not_char JS.LF) q = true ->
  JS.includes s q = existsb (fun l => JS.includes l q) (JS.split_lines s).
Proof.
  intros Hq. induction s as [|c s IH].
  { cbn. by rewrite !orb_false_r. }
  cbn [JS.includes]. rewrite (startsWith_first_line q Hq (String c s)).
  cbn [JS.split_lines]. destruct (Ascii.eqb c JS.LF).
  - cbn [hd existsb JS.includes]. by rewrite IH, orb_false_r.
  - pose proof (split_lines_nonempty s) as Hne.
    destruct (JS.split_lines s) as [|l ls]; [done|].
    cbn [hd existsb JS.includes] in IH |- *. by rewrite IH, orb_assoc.
Qed.

Section ContentSearch.

Variable JSON_parse : string -> option json.
Variable JSON_stringify : json -> string.

(** X10: when the query holds no line feed, every result of a search by
    content that includes the content carries at least one match record, and
    the line of every record contains the query, letter case apart. *)
Theorem content_search_has_match (v : Vault) (options : SearchOptions)
    (results : list FilesystemSearchResult) :
  default ByContent (searchType options) = ByContent ->
  default true (includeContent options) = true ->
  all_chars (not_char JS.LF) (query options) = true ->
  search JSON_parse JSON_stringify v options = Resolved results ->
  Forall (fun r =>
    matches r <> []
    /\ Forall (fun m =>
         JS.includes (JS.toLowerCase (content m)) (JS.toLowerCase (query options)) = true)
         (matches r)) results.
Proof.
  intros Hkind Hwith Hq. unfold search. rewrite Hkind, Hwith.
  destruct (getAllMarkdownFiles v) as [files|]; [|done].
  cbn [obind]. intros [= <-]. apply searchLoop_Forall; [|done].
  intros f text r _. unfold searchFile. cbn [selected obind andb].
  set (ql := JS.toLowerCase (query options)).
  destruct (JS.includes (JS.toLowerCase text) ql) eqn:Hin; [|done].
  intros [= <-]. cbn [matches].
  pose proof (contextMatches_lines (JS.split_lines text) ql
                (default 2 (contextLines options)) (JS.split_lines text) 0) as Hcontent.
  rewrite (includes_lines ql) in Hin by (by apply all_chars_lower).
  rewrite split_lines_lower in Hin.
  apply existsb_exists in Hin as (l' & Hl' & Hl).
  apply in_map_iff in Hl' as (l & <- & Hline).
  split.
  - intros Hnil. rewrite Hnil in Hcontent. cbn in Hcontent.
    assert (In l []) as []. rewrite Hcontent. apply filter_In. done.
  - apply Forall_forall. intros m Hm.
    assert (In (content m)
              (List.filter (fun l => JS.includes (JS.toLowerCase l) ql) (JS.split_lines text)))
      as Hfilter.
    { rewrite <- Hcontent. apply in_map. by apply list_elem_of_In. }
    by apply filter_In in Hfilter as [_ ?].
Qed.

End ContentSearch.

Lemma content_search_has_match_witness :
  let options := mkSearchOptions "tea" None None None None in
  let results :=
    searchLoop Host.parse Host.stringify diary "tea" 20 2 true ByContent ["diary.md"] [] in
  default ByContent (searchType options) = ByContent
  /\ default true (includeContent options) = true
  /\ all_chars (not_char JS.LF) (query options) = true
  /\ search Host.parse Host.stringify diary options = Resolved results
  /\ Forall (fun r =>
       matches r <> []
       /\ Forall (fun m =>
            JS.includes (JS.toLowerCase (content m)) (JS.toLowerCase (query options)) = true)
            (matches r)) results.
Proof.
  cbn zeta. do 4 (split; [reflexivity|]).
  apply (content_search_has_match Host.parse Host.stringify diary
           (mkSearchOptions "tea" None None None None)); reflexivity.
Defined.

(** ** The order of the ranking *)

(** The sort puts an entry behind the entries of its own score. *)
Lemma insertScored_withScore (s : Z) (x : Scored) (l : list Scored) :
  StronglySorted byScore l ->
  withScore s (insertScored x l)
  = (withScore s l ++ if score x =? s then [x] else [])%list.
Proof.
  unfold withScore. induction 1 as [|y l _ IH Hy]; cbn [insertScored List.filter].
  { by destruct (score x =? s). }
  destruct (Z.geb_spec (score y) (score x)) as [Hge|Hlt]; cbn [List.filter].
  - rewrite IH. by destruct (score y =? s).
  - destruct (Z.eqb_spec (score x) s) as [Hx|Hx]; [|by rewrite app_nil_r].
    destruct (Z.eqb_spec (score y) s) as [Hy'|_]; [lia|].
    assert (List.filter (fun z => score z =? s) l = []) as ->; [|done].
    clear IH. induction l as [|z l IHl]; [done|]. cbn [List.filter].
    apply Forall_cons in Hy as [Hz Hl]. unfold byScore in Hz.
    destruct (Z.eqb_spec (score z) s); [lia|]. by apply IHl.
Qed.

Lemma fold_insertScored_withScore (s : Z) (l : list Scored) :
  forall sorted,
    StronglySorted byScore sorted ->
    withScore s (fold_left (fun sorted x => insertScored x sorted) l sorted)
    = (withScore s sorted ++ withScore s l)%list.
Proof.
  induction l as [|x l IH]; intros sorted Hsorted; cbn [fold_left].
  - unfold withScore at 3. cbn. by rewrite app_nil_r.
  - rewrite IH by (by apply insertScored_sorted).
    rewrite insertScored_withScore by done. rewrite <- app_assoc. f_equal.
    unfold withScore. cbn [List.filter]. by destruct (score x =? s).
Qed.

(** The sort is stable: the entries of one score keep their order. *)
Lemma sortScored_stable (s : Z) (l : list Scored) :
  withScore s (sortScored l) = withScore s l.
Proof. unfold sortScored. rewrite fold_insertScored_withScore; [done|constructor]. Qed.



(** Entries of one score are left in their order. *)
Lemma sortScored_same_score (c : Z) (l : list Scored) :
  Forall (fun x => score x = c) l -> sortScored l = l.
Proof.
  intros Hl.
  assert (forall k : list Scored, Forall (fun x => score x = c) k -> withScore c k = k) as Hall.
  { intros k Hk. unfold withScore. induction Hk as [|x k Hx _ IH]; [done|].
    cbn [List.filter]. rewrite IH. by destruct (Z.eqb_spec (score x) c). }
  rewrite <- (Hall (sortScored l)), sortScored_stable; [by apply Hall|].
  apply Forall_forall. intros x Hx. rewrite sortScored_perm in Hx.
  by apply (proj1 (Forall_forall _ _) Hl).
Qed.

Lemma slice_map {A B} (f : A -> B) (l : list A) (a b : Z) :
  JS.slice (map f l) a b = map f (JS.slice l a b).
Proof. unfold JS.slice. by rewrite length_map, skipn_map, firstn_map. Qed.

Section RankingOrder.

Variable JSON_parse : string -> option json.


(** With the empty query every file that can be read gets the same score. *)
Lemma scoreFile_empty_query (v : Vault) (files : list string) :
  noEmptyName files = true ->
  Forall (fun x => score x = 110)
    (omap (scoreFile JSON_parse v EmptyString (JS.split_spaces EmptyString)) files)
  /\ map file (omap (scoreFile JSON_parse v EmptyString (JS.split_spaces EmptyString)) files)
     = List.filter (readable v) files.
Proof.
  unfold noEmptyName. induction files as [|f files IH]; [by split|].
  cbn [forallb]. intros [Hf Hfiles]%andb_true_iff.
  destruct (IH Hfiles) as [Hscore Hfile].
  cbn [omap list_omap List.filter]. unfold readable at 1.
  destruct (scoreFile JSON_parse v EmptyString (JS.split_spaces EmptyString) f) as [x|] eqn:Hx;
    unfold scoreFile in Hx; destruct (readFile v f) as [text|]; cbn [is_rejected negb];
    try done; try by split.
  all: assert (filenameScore EmptyString (JS.split_spaces EmptyString)
                 (JS.toLowerCase (Path.basename f))
               + contentScore EmptyString (JS.split_spaces EmptyString)
                   (JS.toLowerCase text) = 110) as Htotal.
  1, 3: unfold filenameScore, contentScore;
    cbn [JS.split_spaces JS.split_spaces_from forallb];
    rewrite !includes_empty; cbn [andb];
    apply negb_true_iff in Hf; by rewrite Hf.
  - rewrite Htotal in Hx. injection Hx as <-. cbn [map file].
    split; [by constructor|by rewrite Hfile].
  - by rewrite Htotal in Hx.
Qed.

(** X13: with the empty query, [fuzzySearch] returns the files that can
    be read in the order of the listing, cut at the cap, when no file name
    passes the test of the exact name. *)
Theorem fuzzySearch_empty_query (v : Vault) (cap : option Z) (files : list string)
    (results : list FilesystemSearchResult) :
  noEmptyName files = true ->
  getAllMarkdownFiles v = Resolved files ->
  fuzzySearch JSON_parse v EmptyString cap = Resolved results ->
  map path results = JS.slice (List.filter (readable v) files) 0 (default 10 cap).
Proof.
  intros Hnames Hfiles. unfold fuzzySearch. rewrite Hfiles. cbn [obind JS.toLowerCase].
  intros [= <-]. destruct (scoreFile_empty_query v files Hnames) as [Hscore Hfile].
  rewrite (sortScored_same_score 110) by done. rewrite <- Hfile.
  set (scored := omap _ files).
  assert (forall x, x ∈ scored -> path (result x) = file x) as Hpath.
  { intros x Hx. apply list_elem_of_omap in Hx as (f & _ & Hf). unfold scoreFile in Hf.
    destruct (readFile v f); [|done]. destruct (_ >? 0); [|done]. by injection Hf as <-. }
  rewrite slice_map, map_map. apply map_ext_in. intros x Hx. apply Hpath.
  destruct (slice_prefix scored (default 10 cap)) as [m Hm]. rewrite Hm in Hx.
  rewrite <- (take_drop m scored). apply elem_of_app. left. by apply list_elem_of_In.
Qed.

End RankingOrder.

Lemma fuzzySearch_empty_query_witness :
  let files := ["A.md"; "x/B.md"; "y/B.md"] in
  let results := map result (ranking Host.parse shadowedNote files EmptyString (Some 5)) in
  noEmptyName files = true
  /\ getAllMarkdownFiles shadowedNote = Resolved files
  /\ fuzzySearch Host.parse shadowedNote EmptyString (Some 5) = Resolved results
  /\ map path results
     = JS.slice (List.filter (readable shadowedNote) files) 0 (default 10 (Some 5)).
Proof.
  cbn zeta. do 3 (split; [reflexivity|]).
  apply (fuzzySearch_empty_query Host.parse shadowedNote (Some 5)); reflexivity.
Defined.

(** ** Parts of strings *)

Lemma startsWith_spec (s p : string) :
  JS.startsWith s p = true <-> exists r, s = p ++ r.
Proof.
  split; [|intros [r ->]; apply startsWith_app].
  revert s. induction p as [|a p IH]; intros s; [by exists s|].
  destruct s as [|b s]; [done|]. cbn [JS.startsWith].
  intros [Hab Hs]%andb_true_iff. apply Ascii.eqb_eq in Hab as ->.
  destruct (IH s Hs) as [r ->]. by exists r.
Qed.

(** [s.includes(q)] says that [q] is a part of [s]. *)
Lemma includes_spec (s q : string) :
  JS.includes s q = true <-> exists p r, s = p ++ q ++ r.
Proof.
  split.
  - induction s as [|c s IH]; cbn [JS.includes].
    + rewrite orb_false_r. intros [r ->]%startsWith_spec. by exists EmptyString, r.
    + intros [[r ->]%startsWith_spec|Hs]%orb_true_iff; [by exists EmptyString, r|].
      destruct (IH Hs) as (p & r & ->). by exists (String c p), r.
  - intros (p & r & ->). induction p as [|c p IH].
    + rewrite app_nil. destruct (q ++ r) eqn:Hqr; cbn [JS.includes];
        rewrite <- Hqr, startsWith_app; done.
    + rewrite app_cons. cbn [JS.includes]. by rewrite IH, orb_true_r.
Qed.

Lemma includes_trans (s t q : string) :
  JS.includes s t = true -> JS.includes t q = true -> JS.includes s q = true.
Proof.
  rewrite !includes_spec. intros (p & r & ->) (p' & r' & ->).
  exists (p ++ p'), (r' ++ r). by rewrite !string_app_assoc.
Qed.

Lemma toLowerCase_app (a b : string) :
  JS.toLowerCase (a ++ b) = JS.toLowerCase a ++ JS.toLowerCase b.
Proof.
  induction a as [|c a IH]; [done|].
  rewrite app_cons. cbn [JS.toLowerCase]. by rewrite IH.
Qed.

Lemma includes_lower (s t : string) :
  JS.includes s t = true -> JS.includes (JS.toLowerCase s) (JS.toLowerCase t) = true.
Proof.
  rewrite !includes_spec. intros (p & r & ->).
  exists (JS.toLowerCase p), (JS.toLowerCase r). by rewrite !toLowerCase_app.
Qed.

(** What [span] cuts off satisfies the test, and nothing is lost. *)
Lemma span_spec (p : ascii -> bool) (s a b : string) :
  JS.span p s = (a, b) -> s = a ++ b /\ all_chars p a = true.
Proof.
  revert a b. induction s as [|c s IH]; intros a b; cbn [JS.span].
  - by intros [= <- <-].
  - destruct (p c) eqn:Hc; [|by intros [= <- <-]].
    destruct (JS.span p s) as [a' b'] eqn:Hs. intros [= <- <-].
    destruct (IH a' b' eq_refl) as [-> Ha]. cbn [all_chars]. by rewrite Hc, Ha.
Qed.

(** What a scan yields, the expression matched at some place of the text. *)
Lemma elem_of_scan_at {A} (m : string -> option (A * nat)) (x : A) (s : string) :
  forall skip,
    x ∈ JS.scan m skip s -> exists before s' n, s = before ++ s' /\ m s' = Some (x, n).
Proof.
  induction s as [|c s IH]; intros skip; cbn [JS.scan].
  - by rewrite elem_of_nil.
  - assert (forall k, x ∈ JS.scan m k s ->
              exists before s' n, String c s = before ++ s' /\ m s' = Some (x, n)) as Hlater.
    { intros k Hx. destruct (IH k Hx) as (before & s' & n & -> & Hm).
      by exists (String c before), s', n. }
    destruct skip as [|k]; [|apply Hlater].
    destruct (m (String c s)) as [[a n]|] eqn:Hm; [|apply Hlater].
    rewrite elem_of_cons. intros [->|Hx]; [|by eapply Hlater].
    by exists EmptyString, (String c s), n.
Qed.

(** Where the expression of a link matches, the text goes on with the link
    between its brackets. *)
Lemma linkRegex_spec (s link : string) (n : nat) :
  linkRegex s = Some (link, n) ->
  link <> EmptyString /\ all_chars not_close link = true
  /\ exists rest, s = "[[" ++ link ++ "]]" ++ rest.
Proof.
  intros Hm. split; [by eapply linkRegex_nonempty|].
  unfold linkRegex in Hm. destruct s as [|a [|b r]]; try done.
  destruct (Ascii.eqb_spec a "[") as [->|]; [|done].
  destruct (Ascii.eqb_spec b "[") as [->|]; [|done].
  cbn [andb] in Hm. destruct (JS.span not_close r) as [run after] eqn:Hspan.
  apply span_spec in Hspan as [-> Hrun].
  destruct run as [|c run]; [done|]. destruct after as [|d [|d' after]]; try done.
  destruct (Ascii.eqb_spec d "]") as [->|]; [|done].
  destruct (Ascii.eqb_spec d' "]") as [->|]; [|done].
  cbn [andb] in Hm. injection Hm as <- _. split; [done|]. by exists after.
Qed.

(** A link that was extracted is part of the text. *)
Lemma extractLinks_includes (text link : string) :
  link ∈ extractLinks text -> JS.includes text link = true.
Proof.
  intros Hin. apply elem_of_scan_at in Hin as (before & s' & n & -> & Hm).
  apply linkRegex_spec in Hm as (_ & _ & rest & ->).
  apply includes_spec. exists (before ++ "[["), ("]]" ++ rest).
  by rewrite !string_app_assoc.
Qed.

(** X14: every link that [extractLinks] yields is not empty, holds no
    closing bracket, and stands in the text between [[[] and []]]. *)
Theorem extractLinks_occurrence (text link : string) :
  link ∈ extractLinks text ->
  link <> EmptyString
  /\ all_chars not_close link = true
  /\ JS.includes text ("[[" ++ link ++ "]]") = true.
Proof.
  intros Hin. apply elem_of_scan_at in Hin as (before & s' & n & -> & Hm).
  apply linkRegex_spec in Hm as (Hne & Hall & rest & ->).
  split; [done|]. split; [done|]. apply includes_spec. exists before, rest.
  by rewrite !string_app_assoc.
Qed.

Lemma extractLinks_occurrence_witness :
  "B|alias" ∈ extractLinks "see [[B|alias]] and [[C]]"
  /\ "B|alias" <> EmptyString
  /\ all_chars not_close "B|alias" = true
  /\ JS.includes "see [[B|alias]] and [[C]]" ("[[" ++ "B|alias" ++ "]]") = true.
Proof.
  split; [vm_compute; repeat constructor|].
  apply (extractLinks_occurrence "see [[B|alias]] and [[C]]" "B|alias").
  vm_compute. repeat constructor.
Defined.

Section LinksSearch.

Variable JSON_parse : string -> option json.
Variable JSON_stringify : json -> string.

(** X15: a file that a search by links selects is selected by the search
    by content with the same query: the text of a link that contains the
    query is part of the content. *)
Theorem links_search_within_content (f text queryText : string) (ctx : Z) (wc : bool)
    (r : FilesystemSearchResult) :
  searchFile JSON_parse JSON_stringify f text queryText ByLinks ctx wc = Resolved (Some r) ->
  exists r',
    searchFile JSON_parse JSON_stringify f text queryText ByContent ctx wc = Resolved (Some r')
    /\ path r' = path r /\ frontmatter r' = frontmatter r.
Proof.
  unfold searchFile. cbn [selected obind].
  destruct (existsb _ (extractLinks text)) eqn:Hlinks; [|done]. intros [= <-].
  apply existsb_exists in Hlinks as (link & Hlink & Hq).
  apply list_elem_of_In, extractLinks_includes in Hlink.
  rewrite (includes_trans (JS.toLowerCase text) (JS.toLowerCase link) _); [eauto| |done].
  by apply includes_lower.
Qed.

End LinksSearch.

Lemma links_search_within_content_witness :
  let r := mkResult "A.md" "A.md" [] emptyObject in
  searchFile Host.parse Host.stringify "A.md" "see [[Big Plan]]" "plan" ByLinks 2 true
  = Resolved (Some r)
  /\ exists r',
       searchFile Host.parse Host.stringify "A.md" "see [[Big Plan]]" "plan" ByContent 2 true
       = Resolved (Some r')
       /\ path r' = path r /\ frontmatter r' = frontmatter r.
Proof.
  cbn zeta. split; [reflexivity|].
  apply (links_search_within_content Host.parse Host.stringify
           "A.md" "see [[Big Plan]]" "plan" 2 true). reflexivity.
Defined.

(** ** The sets of the link graph *)

Lemma NoDup_add (x : string) (s : list string) : NoDup s -> NoDup (JS.add x s).
Proof.
  intros Hs. unfold JS.add. case_bool_decide as Hx; [done|].
  apply NoDup_app. split; [done|]. split; [|apply NoDup_singleton].
  intros y Hy ->%list_elem_of_singleton. done.
Qed.

Lemma NoDup_newSet (xs : list string) : NoDup (JS.newSet xs).
Proof.
  unfold JS.newSet. generalize (NoDup_nil_2 (A:=string)). generalize (@nil string).
  induction xs as [|x xs IH]; intros s Hs; cbn [fold_left]; [done|].
  by apply IH, NoDup_add.
Qed.

Lemma addBacklink_NoDup (files : list string) (file link : string)
    (backlinks : gmap string (list string)) :
  (forall B, NoDup (default [] (backlinks !! B))) ->
  forall B, NoDup (default [] (addBacklink files file backlinks link !! B)).
Proof.
  intros Hinv B. unfold addBacklink.
  destruct (resolveLink files link) as [linked|]; [|done].
  destruct (String.eqb linked EmptyString); [done|].
  assert (forall C, NoDup (default []
            ((match backlinks !! linked with
              | Some _ => backlinks
              | None => <[linked:=[]]> backlinks
              end) !! C))) as Hinv'.
  { intros C. destruct (backlinks !! linked); [done|].
    destruct (decide (linked = C)) as [->|Hne];
      [rewrite lookup_insert_eq; constructor|by rewrite lookup_insert_ne]. }
  destruct (decide (linked = B)) as [->|Hne]; [|by rewrite lookup_alter_ne].
  rewrite lookup_alter_eq. specialize (Hinv' B).
  destruct (_ !! B) as [s|]; cbn in *; [by apply NoDup_add|constructor].
Qed.

Lemma fold_addBacklink_NoDup (files : list string) (file : string) (links : list string) :
  forall backlinks : gmap string (list string),
    (forall B, NoDup (default [] (backlinks !! B))) ->
    forall B, NoDup (default [] (fold_left (addBacklink files file) links backlinks !! B)).
Proof.
  induction links as [|l links IH]; intros backlinks Hinv; cbn [fold_left]; [done|].
  by apply IH, addBacklink_NoDup.
Qed.

Lemma indexFile_fold_NoDup (v : Vault) (files seen : list string) :
  forall g,
    (forall A, NoDup (linksOf g A)) -> (forall B, NoDup (backlinksOf g B)) ->
    (forall A, NoDup (linksOf (fold_left (indexFile v files) seen g) A))
    /\ (forall B, NoDup (backlinksOf (fold_left (indexFile v files) seen g) B)).
Proof.
  induction seen as [|f seen IH]; intros g Hl Hb; cbn [fold_left]; [done|].
  apply IH; unfold indexFile; destruct (readFile v f) as [text|]; try done.
  - intros A. unfold linksOf. cbn [linkCache].
    destruct (decide (f = A)) as [->|Hne].
    + rewrite lookup_insert_eq. apply NoDup_newSet.
    + rewrite lookup_insert_ne by done. apply Hl.
  - intros B. unfold backlinksOf. cbn [backlinksCache].
    by apply fold_addBacklink_NoDup.
Qed.

Lemma resolveLink_listed (files : list string) (link B : string) :
  resolveLink files link = Some B -> B ∈ files.
Proof. unfold resolveLink. intros [H _]%find_some. by apply list_elem_of_In. Qed.

(** X16: the link graph that [buildLinkGraph] leaves. The forward set of a
    listed file that can be read is the set of the links of its text, and
    every other forward set is empty; a backlink joins two files of the
    listing, the first of which can be read; and no set holds a member
    twice. *)
Theorem buildLinkGraph_sets (v : Vault) (files : list string) (g : LinkGraph) (A B : string) :
  getAllMarkdownFiles v = Resolved files ->
  buildLinkGraph v = Resolved g ->
  linksOf g A
  = match readFile v A with
    | Resolved text => if bool_decide (A ∈ files) then JS.newSet (extractLinks text) else []
    | Rejected => []
    end
  /\ (A ∈ backlinksOf g B -> A ∈ files /\ B ∈ files /\ readable v A = true)
  /\ NoDup (linksOf g A)
  /\ NoDup (backlinksOf g B).
Proof.
  unfold buildLinkGraph. intros -> [= <-].
  destruct (indexFile_fold_spec v files files A B) as [Hforward Hback].
  cbn zeta in Hforward, Hback. split; [done|]. split.
  - intros (Hin & text & link & Hread & _ & Hres)%Hback.
    split; [done|]. split; [by eapply resolveLink_listed|].
    unfold readable. by rewrite Hread.
  - destruct (indexFile_fold_NoDup v files files emptyGraph) as [Hl Hb];
      [intros C; unfold linksOf, backlinksOf; cbn; rewrite lookup_empty; apply NoDup_nil_2..|].
    split; [apply Hl|apply Hb].
Qed.

Lemma buildLinkGraph_sets_witness :
  let files := ["A.md"; "B.md"; "C.md"] in
  let g := fold_left (indexFile threeNotes files) files emptyGraph in
  getAllMarkdownFiles threeNotes = Resolved files
  /\ buildLinkGraph threeNotes = Resolved g
  /\ "A.md" ∈ backlinksOf g "B.md"
  /\ linksOf g "A.md"
     = match readFile threeNotes "A.md" with
       | Resolved text =>
           if bool_decide ("A.md" ∈ files) then JS.newSet (extractLinks text) else []
       | Rejected => []
       end
  /\ ("A.md" ∈ backlinksOf g "B.md"
      -> "A.md" ∈ files /\ "B.md" ∈ files /\ readable threeNotes "A.md" = true)
  /\ NoDup (linksOf g "A.md")
  /\ NoDup (backlinksOf g "B.md").
Proof.
  cbn zeta. split; [reflexivity|]. split; [reflexivity|].
  split; [vm_compute; repeat constructor|].
  apply (buildLinkGraph_sets threeNotes); reflexivity.
Defined.

Section GraphEntries.

Variable JSON_parse : string -> option json.

(** X17: every entry of [graphSearch] describes a listed file that can be
    read, as its text has it: the file name is the last component of the
    path, the outgoing links are the set of the links of the text, and the
    tags and the front matter are those of the text. *)
Theorem graphSearch_entries (v : Vault) (options : GraphSearchOptions) (files : list string)
    (results : list GraphSearchResult) :
  getAllMarkdownFiles v = Resolved files ->
  graphSearch JSON_parse v options = Resolved results ->
  Forall (fun r =>
    node_path r ∈ files
    /\ node_filename r = Path.basename (node_path r)
    /\ exists text,
         readFile v (node_path r) = Resolved text
         /\ outgoingLinks r = JS.newSet (extractLinks text)
         /\ tags r = extractTags JSON_parse text
         /\ node_frontmatter r = extractFrontmatter JSON_parse text) results.
Proof.
  unfold graphSearch, buildLinkGraph. intros Hfiles. rewrite Hfiles. cbn [obind].
  intros [= <-]. apply Forall_forall. intros r (f & Hin & Hentry)%list_elem_of_omap.
  destruct (indexFile_fold_spec v files files f f) as [Hforward _]. cbn zeta in Hforward.
  unfold graphEntry in Hentry. rewrite Hforward in Hentry.
  destruct (readFile v f) as [text|] eqn:Hread; [|done].
  rewrite bool_decide_eq_true_2 in Hentry by done.
  destruct (match startFile options with Some _ => _ | None => _ end); [done|].
  destruct (negb _ && _ && _); [done|].
  injection Hentry as <-. cbn. split; [done|]. split; [done|]. by exists text.
Qed.

(** X18: a search of the graph from a start file returns the entries of
    the search without a start file that [isConnected] joins to the start
    file within the depth; the empty string for a start file is the same as
    none. *)
Theorem graphSearch_from_start (v : Vault) (depth : option Z) (start : string)
    (orphans : option bool) :
  graphSearch JSON_parse v (mkGraphSearchOptions depth (Some start) orphans)
  = obind (buildLinkGraph v) (fun g =>
    obind (graphSearch JSON_parse v (mkGraphSearchOptions depth None orphans)) (fun entries =>
    Resolved (List.filter
                (fun r => String.eqb start EmptyString
                          || isConnected g (node_path r) start (default 2 depth))
                entries))).
Proof.
  unfold graphSearch. cbn [maxDepth startFile includeOrphans].
  destruct (buildLinkGraph v) as [g|]; cbn [obind]; [|done].
  destruct (getAllMarkdownFiles v) as [files|]; cbn [obind]; [|done]. f_equal.
  assert (forall f,
            graphEntry JSON_parse v g (default 2 depth) (Some start) (default false orphans) f
            = match graphEntry JSON_parse v g (default 2 depth) None (default false orphans) f
              with
              | Some r =>
                  if String.eqb start EmptyString
                     || isConnected g (node_path r) start (default 2 depth)
                  then Some r else None
              | None => None
              end) as Hentry.
  { intros f. unfold graphEntry. destruct (readFile v f) as [text|]; [|done].
    destruct (String.eqb start EmptyString); cbn [negb andb orb].
    - by destruct (negb _ && _ && _).
    - destruct (isConnected g f start (default 2 depth)) eqn:Hconn; cbn [negb];
        destruct (negb _ && _ && _); try done; cbn [node_path]; by rewrite Hconn. }
  induction files as [|f files IH]; [done|]. cbn [omap list_omap]. rewrite IH, Hentry.
  destruct (graphEntry JSON_parse v g (default 2 depth) None (default false orphans) f)
    as [r|]; [|done].
  cbn [List.filter]. by destruct (_ || _).
Qed.

End GraphEntries.

Lemma graphSearch_entries_witness :
  let files := ["A.md"; "B.md"; "C.md"] in
  let options := mkGraphSearchOptions None (Some "A.md") None in
  getAllMarkdownFiles threeNotes = Resolved files
  /\ graphSearch Host.parse threeNotes options = Resolved [noteA; noteB]
  /\ Forall (fun r =>
       node_path r ∈ files
       /\ node_filename r = Path.basename (node_path r)
       /\ exists text,
            readFile threeNotes (node_path r) = Resolved text
            /\ outgoingLinks r = JS.newSet (extractLinks text)
            /\ tags r = extractTags Host.parse text
            /\ node_frontmatter r = extractFrontmatter Host.parse text) [noteA; noteB].
Proof.
  cbn zeta. split; [reflexivity|]. split; [vm_compute; reflexivity|].
  apply (graphSearch_entries Host.parse threeNotes
           (mkGraphSearchOptions None (Some "A.md") None)); [reflexivity|vm_compute; reflexivity].
Defined.

(** ** The tag set *)

Lemma existsb_sameValueZero_string (t : string) (s : list json) :
  existsb (sameValueZero (JString t)) s = true <-> JString t ∈ s.
Proof.
  rewrite existsb_exists. split.
  - intros (y & Hy & Hsame). destruct y; try discriminate.
    cbn in Hsame. apply String.eqb_eq in Hsame as ->. by apply list_elem_of_In.
  - intros Hin. exists (JString t). split; [by apply list_elem_of_In|].
    cbn. apply String.eqb_refl.
Qed.

(** Strings added to a tag set: those not yet in it go to its end, each
    once. *)
Lemma fold_tag_add_strings (ts : list string) :
  forall s0 : list json,
    exists added,
      fold_left (fun s tag => tag_add (JString tag) s) ts s0 = (s0 ++ map JString added)%list
      /\ NoDup added
      /\ forall t, t ∈ added <-> t ∈ ts /\ JString t ∉ s0.
Proof.
  induction ts as [|t ts IH]; intros s0; cbn [fold_left].
  { exists []. rewrite app_nil_r. split; [done|]. split; [constructor|].
    intros t. rewrite !elem_of_nil. tauto. }
  unfold tag_add at 2.
  destruct (existsb (sameValueZero (JString t)) s0) eqn:Hin.
  - apply existsb_sameValueZero_string in Hin.
    destruct (IH s0) as (added & -> & Hnodup & Hadded).
    exists added. split; [done|]. split; [done|].
    intros t'. rewrite Hadded, elem_of_cons. split; [tauto|].
    intros [[->|?] ?]; [done|tauto].
  - assert (JString t ∉ s0) as Hnew.
    { intros Hin'%existsb_sameValueZero_string. congruence. }
    destruct (IH (s0 ++ [JString t])%list) as (added & -> & Hnodup & Hadded).
    exists (t :: added). split; [by rewrite <- app_assoc|]. split.
    + constructor; [|done]. rewrite Hadded, elem_of_app, list_elem_of_singleton. tauto.
    + intros t'. rewrite !elem_of_cons, Hadded, elem_of_app, list_elem_of_singleton.
      split.
      * intros [->|[? ?]]; [tauto|]. split; [tauto|]. tauto.
      * intros [[->|?] ?]; [tauto|]. destruct (decide (t' = t)) as [->|?]; [tauto|].
        right. split; [done|]. intros [?|[=]]; done.
Qed.

(** Where the expression of a tag matches, the tag is a hash and a word of
    tag characters. *)
Lemma tagRegex_spec (s tag : string) (n : nat) :
  tagRegex s = Some (tag, n) ->
  exists w, tag = String "#" w /\ w <> EmptyString /\ all_chars is_tag_char w = true.
Proof.
  unfold tagRegex. destruct s as [|c r]; [done|].
  destruct (Ascii.eqb c "#"); [|done].
  destruct (JS.span is_tag_char r) as [run rest] eqn:Hspan.
  apply span_spec in Hspan as [_ Hrun].
  destruct run as [|d run]; [done|]. intros [= <- _]. by exists (String d run).
Qed.

Section TagSet.

Variable JSON_parse : string -> option json.

(** X19: the tag set of a note is what the [tags] field of its front
    matter gives, followed by the inline tags that are not among them, each
    once. An inline tag
    is a hash and a word of one or more letters, digits, hyphens,
    underscores and slashes. *)
Theorem extractTags_set (text : string) :
  exists inline,
    extractTags JSON_parse text
    = (frontmatterTags (extractFrontmatter JSON_parse text) ++ map JString inline)%list
    /\ NoDup inline
    /\ (forall t,
          t ∈ inline
          <-> t ∈ inlineTags text
              /\ JString t ∉ frontmatterTags (extractFrontmatter JSON_parse text))
    /\ (forall t,
          t ∈ inline ->
          exists w, t = String "#" w /\ w <> EmptyString /\ all_chars is_tag_char w = true).
Proof.
  unfold extractTags.
  destruct (fold_tag_add_strings (inlineTags text)
              (frontmatterTags (extractFrontmatter JSON_parse text)))
    as (added & -> & Hnodup & Hadded).
  exists added. split; [done|]. split; [done|]. split; [done|].
  intros t [Ht _]%Hadded. apply elem_of_scan in Ht as (s & n & Hm).
  by eapply tagRegex_spec.
Qed.

End TagSet.

(** ** The directory walk *)

(** Induction over a tree of entries. *)
Lemma Dirent_nested_ind (P : Dirent -> Prop) :
  (forall name, P (FileEntry name)) ->
  (forall name, P (OtherEntry name)) ->
  (forall name, P (DirectoryEntry name Rejected)) ->
  (forall name entries, Forall P entries -> P (DirectoryEntry name (Resolved entries))) ->
  forall entry, P entry.
Proof.
  intros Hfile Hother Hfail Hdir. fix IH 1. intros [name|name [entries|]|name].
  - apply Hfile.
  - apply Hdir. induction entries as [|e entries IHentries]; constructor; [apply IH|assumption].
  - apply Hfail.
  - apply Hother.
Qed.

(** The call of [walk] for a directory is the loop over its entries. *)
Lemma walkEntry_directory (dir name : string) (entries : list Dirent) (files : list string) :
  walkEntry dir (DirectoryEntry name (Resolved entries)) files
  = if skipped name then Resolved files
    else walkEntries (joinRelative dir name) entries files.
Proof.
  cbn [walkEntry entryName]. destruct (skipped name); [done|].
  revert files. induction entries as [|e entries IH]; intros files; [done|].
  cbn [walkEntries]. destruct (walkEntry (joinRelative dir name) e files); [|done].
  cbn [obind]. apply IH.
Qed.

Lemma components_nonempty (p : string) : Path.components p <> [].
Proof. destruct p as [|c p]; cbn; [done|]. by repeat case_match. Qed.

Lemma components_plain (name : string) :
  all_chars (not_char "/") name = true -> Path.components name = [name].
Proof.
  induction name as [|c name IH]; [done|]. cbn [all_chars Path.components].
  unfold not_char at 1. intros [Hc Hname]%andb_true_iff.
  apply negb_true_iff in Hc. rewrite Hc, IH by done. done.
Qed.

Lemma components_app (a b : string) :
  Path.components (a ++ Path.sep ++ b) = (Path.components a ++ Path.components b)%list.
Proof.
  induction a as [|c a IH]; [done|].
  rewrite app_cons. cbn [Path.components]. rewrite IH.
  destruct (Ascii.eqb c "/"); [done|].
  pose proof (components_nonempty a). by destruct (Path.components a).
Qed.

Lemma endsWith_app (a b p : string) :
  JS.endsWith b p = true -> JS.endsWith (a ++ b) p = true.
Proof.
  intros Hb. induction a as [|c a IH]; [done|].
  rewrite app_cons. cbn [JS.endsWith]. by rewrite IH, orb_true_r.
Qed.

(** The path of an entry that is not skipped, in a directory whose path
    holds no skipped component. *)
Lemma joinRelative_visible (dir name : string) :
  dir = EmptyString \/ forallb (fun c => negb (skipped c)) (Path.components dir) = true ->
  all_chars (not_char "/") name = true ->
  skipped name = false ->
  forallb (fun c => negb (skipped c)) (Path.components (joinRelative dir name)) = true.
Proof.
  intros Hdir Hplain Hname. unfold joinRelative.
  destruct (String.eqb_spec dir EmptyString) as [->|Hne].
  - rewrite components_plain by done. cbn. by rewrite Hname.
  - destruct Hdir as [?|Hdir]; [done|].
    rewrite components_app, forallb_app, Hdir, components_plain by done.
    cbn. by rewrite Hname.
Qed.

(** One turn of the loop adds listable paths only. *)
Lemma walkEntry_listable (entry : Dirent) :
  forall dir files files',
    plainNames entry = true ->
    dir = EmptyString \/ forallb (fun c => negb (skipped c)) (Path.components dir) = true ->
    walkEntry dir entry files = Resolved files' ->
    Forall (fun p => listable p = true) files ->
    Forall (fun p => listable p = true) files'.
Proof.
  induction entry as [name|name|name|name entries IH] using Dirent_nested_ind;
    intros dir files files' Hplain Hdir.
  - cbn [walkEntry entryName]. destruct (skipped name) eqn:Hskip; [by intros [= <-]|].
    destruct (JS.endsWith name ".md") eqn:Hmd; [|by intros [= <-]].
    intros [= <-] Hfiles. apply Forall_app. split; [done|]. apply Forall_singleton.
    cbn in Hplain. rewrite andb_true_r in Hplain.
    unfold listable. rewrite joinRelative_visible, andb_true_r by done.
    unfold joinRelative. destruct (String.eqb dir EmptyString); [done|].
    by apply endsWith_app, endsWith_app.
  - cbn [walkEntry entryName]. destruct (skipped name); by intros [= <-].
  - cbn [walkEntry entryName]. destruct (skipped name); [by intros [= <-]|done].
  - rewrite walkEntry_directory. destruct (skipped name) eqn:Hskip; [by intros [= <-]|].
    cbn [plainNames entryName] in Hplain. apply andb_true_iff in Hplain as [Hname Hentries].
    assert (joinRelative dir name = EmptyString
            \/ forallb (fun c => negb (skipped c))
                 (Path.components (joinRelative dir name)) = true) as Hsub.
    { right. by apply joinRelative_visible. }
    clear Hdir. revert files Hentries.
    induction IH as [|e entries He _ IHentries]; intros files Hentries; cbn [walkEntries].
    + by intros [= <-].
    + cbn [forallb] in Hentries. apply andb_true_iff in Hentries as [Hplain Hentries].
      destruct (walkEntry (joinRelative dir name) e files) as [files1|] eqn:Hwalk; [|done].
      cbn [obind]. intros Hrest Hfiles.
      eapply IHentries; [done|exact Hrest|]. by eapply He.
Qed.

(** X20: what the walk of [getAllMarkdownFiles] lists. Over a tree whose
    names hold no slash, every path of the listing ends with [.md], and no
    component of it starts with a dot or is [node_modules]: hidden entries
    and [node_modules] are left out with all they hold. *)
Theorem walkVault_listable (root : list Dirent) (read : string -> outcome string)
    (files : list string) :
  forallb plainNames root = true ->
  getAllMarkdownFiles (diskVault (Resolved root) read) = Resolved files ->
  Forall (fun p => listable p = true) files.
Proof.
  unfold getAllMarkdownFiles, diskVault, walkVault, walk. cbn [listing obind].
  assert (forall entries acc,
            forallb plainNames entries = true ->
            walkEntries EmptyString entries acc = Resolved files ->
            Forall (fun p => listable p = true) acc ->
            Forall (fun p => listable p = true) files) as Hloop.
  { induction entries as [|e entries IH]; intros acc Hplain; cbn [walkEntries].
    - by intros [= <-].
    - cbn [forallb] in Hplain. apply andb_true_iff in Hplain as [He Hentries].
      destruct (walkEntry EmptyString e acc) as [acc'|] eqn:Hwalk; [|done].
      cbn [obind]. intros Hrest Hacc. eapply IH; [done|exact Hrest|].
      eapply walkEntry_listable; [exact He|by left|exact Hwalk|done]. }
  intros Hplain Hwalk. eapply Hloop; [exact Hplain|exact Hwalk|constructor].
Qed.

Lemma walkVault_listable_witness :
  forallb plainNames smallTree = true
  /\ getAllMarkdownFiles (diskVault (Resolved smallTree) (fun _ => Rejected))
      = Resolved ["A.md"; "notes/B.md"]
  /\ Forall (fun p => listable p = true) ["A.md"; "notes/B.md"].
Proof.
  split; [reflexivity|]. split; [reflexivity|].
  apply (walkVault_listable smallTree (fun _ => Rejected)); reflexivity.
Defined.

(** One turn of the loop fails when the walk comes to a directory that
    cannot be read under the entry. *)
Lemma walkEntry_rejected (entry : Dirent) :
  forall dir files, is_rejected (walkEntry dir entry files) = readFailure entry.
Proof.
  induction entry as [name|name|name|name entries IH] using Dirent_nested_ind;
    intros dir files.
  - cbn [walkEntry readFailure entryName]. destruct (skipped name); [done|].
    cbn. by destruct (JS.endsWith name ".md").
  - cbn [walkEntry readFailure entryName]. by destruct (skipped name).
  - cbn [walkEntry readFailure entryName]. by destruct (skipped name).
  - rewrite walkEntry_directory. cbn [readFailure entryName].
    destruct (skipped name); [done|]. cbn [negb andb].
    revert files. induction IH as [|e entries He _ IHentries]; intros files; [done|].
    cbn [walkEntries existsb]. rewrite <- (He (joinRelative dir name) files).
    destruct (walkEntry (joinRelative dir name) e files); [|done].
    cbn [obind is_rejected orb]. apply IHentries.
Qed.

Section WalkFailure.

Variable JSON_parse : string -> option json.
Variable JSON_stringify : json -> string.

(** X21: the listing fails exactly when the walk comes to a directory that
    cannot be read: the root, or a directory under it that is not skipped
    and lies in no skipped directory. What a hidden directory or
    [node_modules] holds is never read. [search] over the vault fails in
    the same case and in no other. *)
Theorem walkVault_rejected (root : outcome (list Dirent)) (read : string -> outcome string)
    (options : SearchOptions) :
  is_rejected (getAllMarkdownFiles (diskVault root read))
  = match root with
    | Resolved entries => existsb readFailure entries
    | Rejected => true
    end
  /\ is_rejected (search JSON_parse JSON_stringify (diskVault root read) options)
     = is_rejected (getAllMarkdownFiles (diskVault root read)).
Proof.
  split; [|unfold search; by destruct (getAllMarkdownFiles _)].
  unfold getAllMarkdownFiles, diskVault, walkVault, walk. cbn [listing].
  destruct root as [entries|]; [|done]. cbn [obind].
  generalize (@nil string). induction entries as [|e entries IH]; intros files; [done|].
  cbn [walkEntries existsb]. rewrite <- (walkEntry_rejected e EmptyString files).
  destruct (walkEntry EmptyString e files); [|done]. cbn [obind is_rejected orb]. apply IH.
Qed.

End WalkFailure.

(** ** Front matter read back *)

Lemma word_char_plain (c : ascii) :
  JS.is_word c = true ->
  JS.is_space c = false /\ Ascii.eqb c ":" = false
  /\ not_char JS.LF c = true /\ Ascii.eqb c "-" = false.
Proof.
  destruct c as [[] [] [] [] [] [] [] []]; vm_compute; intros H;
    first [discriminate H | repeat split].
Qed.

Lemma indexOf_app (c : ascii) (a r : string) :
  all_chars (fun d => negb (Ascii.eqb d c)) a = true ->
  JS.indexOf c (a ++ String c r) = Some (String.length a).
Proof.
  induction a as [|d a IH]; cbn [all_chars].
  - intros _. rewrite app_nil. cbn. by rewrite Ascii.eqb_refl.
  - intros [Hd Ha]%andb_true_iff. apply negb_true_iff in Hd.
    rewrite app_cons. cbn [JS.indexOf String.length]. by rewrite Hd, IH.
Qed.

Lemma take_app_length (a r : string) : JS.take (String.length a) (a ++ r) = a.
Proof.
  induction a as [|d a IH]; [by destruct r|].
  rewrite app_cons. cbn [String.length JS.take]. by rewrite IH.
Qed.

Lemma drop_app_length (a r : string) : JS.drop (String.length a) (a ++ r) = r.
Proof.
  induction a as [|d a IH]; [by destruct r|].
  rewrite app_cons. cbn [String.length JS.drop]. exact IH.
Qed.

Lemma drop_S_app_length (a r : string) (c : ascii) :
  JS.drop (S (String.length a)) (a ++ String c r) = r.
Proof.
  induction a as [|d a IH]; [by destruct r|].
  rewrite app_cons. cbn [String.length JS.drop]. exact IH.
Qed.

(** A first stretch without a line feed is passed over by the search for
    the end of the block. *)
Lemma before_first_app (p a b : string) :
  all_chars (not_char JS.LF) a = true ->
  JS.before_first (String JS.LF p) (a ++ b)
  = option_map (String.append a) (JS.before_first (String JS.LF p) b).
Proof.
  intros Ha. induction a as [|c a IH].
  - rewrite app_nil. by destruct (JS.before_first _ b).
  - cbn [all_chars] in Ha. apply andb_true_iff in Ha as [Hc Ha].
    unfold not_char in Hc. apply negb_true_iff in Hc.
    rewrite app_cons, before_first_unfold. cbn [JS.startsWith].
    rewrite Ascii.eqb_sym, Hc. cbn [andb]. rewrite IH by done.
    by destruct (JS.before_first _ b).
Qed.

Lemma split_lines_app (a b : string) :
  all_chars (not_char JS.LF) a = true ->
  JS.split_lines (a ++ String JS.LF b) = a :: JS.split_lines b.
Proof.
  induction a as [|c a IH]; cbn [all_chars].
  - intros _. rewrite app_nil. cbn [JS.split_lines]. by rewrite Ascii.eqb_refl.
  - intros [Hc Ha]%andb_true_iff. unfold not_char in Hc. apply negb_true_iff in Hc.
    rewrite app_cons. cbn [JS.split_lines]. by rewrite Hc, IH.
Qed.

(** The lines of a block that are joined are the lines it splits into. *)
Lemma split_join_lines (l : string) (ls : list string) :
  Forall (fun l => all_chars (not_char JS.LF) l = true) (l :: ls) ->
  JS.split_lines (JS.join_lines (l :: ls)) = l :: ls.
Proof.
  revert l. induction ls as [|l' ls IH]; intros l [Hl Hls]%Forall_cons.
  - by apply split_lines_text.
  - change (JS.join_lines (l :: l' :: ls))
      with (l ++ String JS.LF (JS.join_lines (l' :: ls))).
    rewrite split_lines_app by done. by rewrite IH.
Qed.

(** The block ends where the lines of the fields end. *)
Lemma before_first_join_lines (ls : list string) (rest : string) :
  Forall (fun l => all_chars (not_char JS.LF) l = true /\ JS.startsWith l "-" = false) ls ->
  JS.before_first (String JS.LF "---") (JS.join_lines ls ++ String JS.LF "---" ++ rest)
  = Some (JS.join_lines ls).
Proof.
  destruct ls as [|l ls].
  { intros _. cbn [JS.join_lines]. rewrite app_nil, before_first_unfold.
    by rewrite (startsWith_app (String JS.LF "---") rest). }
  revert l. induction ls as [|l' ls IH]; intros l [[Hl _] Hls]%Forall_cons.
  - cbn [JS.join_lines]. by apply before_first_text.
  - change (JS.join_lines (l :: l' :: ls))
      with (l ++ String JS.LF (JS.join_lines (l' :: ls))).
    rewrite string_app_assoc, before_first_app by done. rewrite app_cons.
    rewrite before_first_unfold.
    assert (JS.startsWith
              (String JS.LF (JS.join_lines (l' :: ls) ++ String JS.LF "---" ++ rest))
              (String JS.LF "---") = false) as ->.
    { cbn [JS.startsWith]. rewrite Ascii.eqb_refl. cbn [andb].
      apply Forall_cons in Hls as [[_ Hdash] _].
      destruct l' as [|d l'].
      - destruct ls as [|l'' ls]; cbn [JS.join_lines]; by rewrite ?app_nil.
      - cbn [JS.startsWith] in Hdash. rewrite andb_true_r in Hdash.
        destruct ls as [|l'' ls]; cbn [JS.join_lines]; rewrite ?app_cons;
          cbn [JS.startsWith]; by rewrite Hdash. }
    by rewrite IH.
Qed.

(** A key that is not yet set goes to the end of the object. *)
Lemma property_new (key : string) (ps : Properties) :
  key ∉ map fst ps -> property key ps = None.
Proof.
  induction ps as [|[k x] ps IH]; [done|]. cbn [map fst property].
  rewrite not_elem_of_cons. intros [Hne Hps].
  destruct (String.eqb_spec k key); [done|]. by apply IH.
Qed.

(** A key that is new, no array index and not [__proto__] goes to the end
    of the object. *)
Lemma fm_set_new (key : string) (value : json) (fm : Frontmatter) :
  key ∉ map fst (properties fm) -> key <> "__proto__" -> arrayIndex key = None ->
  fm_set key value fm
  = mkFrontmatter (properties fm ++ [(key, value)])%list (prototype fm).
Proof.
  intros Hnew Hproto Hindex. unfold fm_set, addProperty.
  rewrite property_new, Hindex by done.
  apply String.eqb_neq in Hproto. by rewrite Hproto.
Qed.

(** The first key of an object, when it is not [__proto__]. *)
Lemma fm_set_first (key : string) (value : json) :
  key <> "__proto__" ->
  fm_set key value emptyObject = mkFrontmatter [(key, value)] ObjectPrototype.
Proof.
  intros Hproto. unfold fm_set, addProperty. cbn [emptyObject properties prototype property].
  apply String.eqb_neq in Hproto. rewrite Hproto. cbn [andb].
  by destruct (arrayIndex key).
Qed.

(** An array index goes before the keys that are none. *)
Lemma insertIndex_front (n : N) (key : string) (value : json) (ps : Properties) :
  Forall (fun p => arrayIndex p.1 = None) ps ->
  insertIndex n key value ps = (key, value) :: ps.
Proof.
  destruct ps as [|[k x] ps]; [done|]. intros [Hk _]%Forall_cons.
  cbn [insertIndex]. cbn [fst] in Hk. by rewrite Hk.
Qed.

Section FrontmatterRoundTrip.

Variable JSON_parse : string -> option json.

(** The line of a field sets its key to its value. *)
Lemma frontmatterLine_field (fm : Frontmatter) (k v : string) :
  wordKey k = true -> plainValue v = true ->
  frontmatterLine JSON_parse fm (fieldLine (k, v)) = fm_set k (JString v) fm.
Proof.
  unfold wordKey, plainValue, fieldLine. cbn [fst snd].
  rewrite !andb_true_iff, !negb_true_iff.
  intros [Hk Hword] [[[_ Htrim] Hquotes] Hopen].
  apply String.eqb_neq in Hk. apply String.eqb_eq in Htrim, Hquotes.
  assert (all_chars (fun d => negb (Ascii.eqb d ":")) k = true) as Hcolon.
  { eapply all_chars_impl; [|exact Hword]. intros c Hc.
    apply word_char_plain in Hc as (_ & -> & _). done. }
  assert (JS.trim k = k) as Hkey.
  { assert (all_chars (fun c => negb (JS.is_space c)) k = true) as Hspace.
    { eapply all_chars_impl; [|exact Hword]. intros c Hc.
      apply word_char_plain in Hc as (-> & _). done. }
    unfold JS.trim. destruct k as [|c k]; [done|].
    cbn [all_chars] in Hspace. apply andb_true_iff in Hspace as [Hc Hrest].
    cbn [JS.trimStart]. apply negb_true_iff in Hc. rewrite Hc.
    apply trimEnd_text. cbn [all_chars]. by rewrite Hc, Hrest. }
  unfold frontmatterLine.
  change (k ++ ": " ++ v) with (k ++ String ":" (String " " v)).
  rewrite indexOf_app by done.
  destruct (String.length k) as [|i] eqn:Hlen; [by destruct k|].
  rewrite <- Hlen. rewrite take_app_length, drop_S_app_length, Hkey.
  assert (JS.trim (String " " v) = v) as ->.
  { unfold JS.trim. cbn [JS.trimStart]. change (JS.is_space " ") with true. exact Htrim. }
  rewrite Hquotes, Hopen. done.
Qed.

(** The line of a field holds no line feed and does not start with a
    hyphen. *)
Lemma fieldLine_plain (k v : string) :
  wordKey k = true -> plainValue v = true ->
  all_chars (not_char JS.LF) (fieldLine (k, v)) = true
  /\ JS.startsWith (fieldLine (k, v)) "-" = false.
Proof.
  unfold wordKey, plainValue, fieldLine. cbn [fst snd].
  rewrite !andb_true_iff, !negb_true_iff.
  intros [Hk Hword] [[[Hvalue _] _] _]. apply String.eqb_neq in Hk. split.
  - rewrite !all_chars_app, Hvalue.
    assert (all_chars (not_char JS.LF) k = true) as ->; [|done].
    eapply all_chars_impl; [|exact Hword]. intros c Hc.
    by apply word_char_plain in Hc as (_ & _ & -> & _).
  - destruct k as [|c k]; [done|]. rewrite app_cons. cbn [JS.startsWith].
    cbn [all_chars] in Hword. apply andb_true_iff in Hword as [Hc _].
    apply word_char_plain in Hc as (_ & _ & _ & Hdash).
    by rewrite Ascii.eqb_sym, Hdash.
Qed.

(** The block of the lines of fields is read line by line. *)
Lemma extractFrontmatter_block (fields : list (string * string)) (body : string) :
  Forall (fun field => wordKey field.1 = true /\ plainValue field.2 = true) fields ->
  extractFrontmatter JSON_parse (withFrontmatter fields body)
  = fold_left (frontmatterLine JSON_parse) (map fieldLine fields) emptyObject.
Proof.
  intros Hfields.
  assert (Forall (fun l => all_chars (not_char JS.LF) l = true /\ JS.startsWith l "-" = false)
            (map fieldLine fields)) as Hlines.
  { apply Forall_fmap. eapply Forall_impl; [exact Hfields|].
    intros [k v] [Hk Hv]. by apply fieldLine_plain. }
  unfold extractFrontmatter, frontmatterRegex, withFrontmatter.
  set (block := JS.join_lines (map fieldLine fields)).
  change ("---" ++ JS.nl ++ block ++ JS.nl ++ "---" ++ body)
    with (("---" ++ JS.nl) ++ block ++ String JS.LF "---" ++ body).
  rewrite startsWith_app.
  change (JS.drop 4 (("---" ++ JS.nl) ++ block ++ String JS.LF "---" ++ body))
    with (block ++ String JS.LF "---" ++ body).
  subst block.
  rewrite before_first_join_lines by done.
  destruct (map fieldLine fields) as [|l ls] eqn:Hmap; [done|].
  rewrite split_join_lines; [done|].
  eapply Forall_impl; [exact Hlines|]. by intros l' [? _].
Qed.

Lemma plainField_parts (field : string * string) :
  plainField field = true ->
  wordKey field.1 = true /\ plainValue field.2 = true
  /\ field.1 <> "__proto__" /\ arrayIndex field.1 = None.
Proof.
  unfold plainField. rewrite !andb_true_iff, negb_true_iff.
  intros [[[Hk Hv] Hproto] Hindex]. apply String.eqb_neq in Hproto.
  by destruct (arrayIndex field.1).
Qed.

(** The lines of plain fields of different keys set them one after the
    other. *)
Lemma fold_frontmatterLine_fields (fields : list (string * string)) :
  forall fm : Frontmatter,
    Forall (fun field => plainField field = true) fields ->
    NoDup (map fst (properties fm) ++ map fst fields) ->
    fold_left (frontmatterLine JSON_parse) (map fieldLine fields) fm
    = mkFrontmatter (properties fm ++ fieldProperties fields)%list (prototype fm).
Proof.
  induction fields as [|[k v] fields IH]; intros fm Hplain Hkeys; cbn [map fold_left].
  { unfold fieldProperties. cbn [map]. rewrite app_nil_r. by destruct fm. }
  apply Forall_cons in Hplain as [Hfield Hplain].
  apply plainField_parts in Hfield as (Hk & Hv & Hproto & Hindex). cbn [fst snd] in *.
  rewrite frontmatterLine_field by done.
  cbn [map fst] in Hkeys. apply NoDup_app in Hkeys as (Hfm & Hnew & Hrest).
  rewrite fm_set_new; [|intros Hin; apply (Hnew _ Hin); left|done|done].
  rewrite IH; cbn [properties prototype]; [|done|].
  - unfold fieldProperties. cbn [map fst snd]. by rewrite <- app_assoc.
  - rewrite map_app. cbn [map fst]. rewrite <- app_assoc. cbn [app].
    apply NoDup_app. split; [done|]. split; [exact Hnew|exact Hrest].
Qed.

Lemma fold_frontmatterLine_plain (fields : list (string * string)) :
  Forall (fun field => plainField field = true) fields ->
  NoDup (map fst fields) ->
  fold_left (frontmatterLine JSON_parse) (map fieldLine fields) emptyObject
  = mkFrontmatter (fieldProperties fields) ObjectPrototype.
Proof. intros Hplain Hkeys. by rewrite fold_frontmatterLine_fields. Qed.

(** X22: front matter read back. A note that starts with a block of
    [key: value] lines between two lines of three hyphens has these keys
    with these values as strings for its front matter, in the order of the
    lines, whatever follows the block, when the keys are words of letters,
    digits and underscores that differ from one another, none an array
    index and none [__proto__], and the values need no trimming and no
    removal of quotes and do not start like an array or an object. *)
Theorem extractFrontmatter_round_trip (fields : list (string * string)) (body : string) :
  Forall (fun field => plainField field = true) fields ->
  NoDup (map fst fields) ->
  extractFrontmatter JSON_parse (withFrontmatter fields body)
  = mkFrontmatter (fieldProperties fields) ObjectPrototype.
Proof.
  intros Hplain Hkeys. rewrite extractFrontmatter_block.
  - by apply fold_frontmatterLine_plain.
  - eapply Forall_impl; [exact Hplain|]. intros field Hfield.
    by apply plainField_parts in Hfield as (? & ? & _).
Qed.

(** X29: what the front-matter object does not keep in the order of the
    lines. After plain fields, a field whose key is an array index, the
    canonical decimal form of an integer from 0 to 2^32 - 2, becomes the
    first property of the object; and a field of the key [__proto__] with a
    plain value sets no property and leaves the prototype as it is. *)
Theorem extractFrontmatter_special_keys (fields : list (string * string)) (v body : string) :
  Forall (fun field => plainField field = true) fields ->
  NoDup (map fst fields) ->
  plainValue v = true ->
  (forall k n,
     wordKey k = true -> arrayIndex k = Some n ->
     extractFrontmatter JSON_parse (withFrontmatter (fields ++ [(k, v)])%list body)
     = mkFrontmatter ((k, JString v) :: fieldProperties fields) ObjectPrototype)
  /\ extractFrontmatter JSON_parse (withFrontmatter (fields ++ [("__proto__", v)])%list body)
     = mkFrontmatter (fieldProperties fields) ObjectPrototype.
Proof.
  intros Hplain Hkeys Hv.
  assert (forall k, wordKey k = true ->
            extractFrontmatter JSON_parse (withFrontmatter (fields ++ [(k, v)])%list body)
            = fm_set k (JString v) (mkFrontmatter (fieldProperties fields) ObjectPrototype))
    as Hlast.
  { intros k Hk. rewrite extractFrontmatter_block.
    - rewrite map_app, fold_left_app, fold_frontmatterLine_plain by done.
      cbn [map fold_left]. by apply frontmatterLine_field.
    - apply Forall_app. split; [|by apply Forall_singleton].
      eapply Forall_impl; [exact Hplain|]. intros field Hfield.
      by apply plainField_parts in Hfield as (? & ? & _). }
  assert (Forall (fun p : string * json => arrayIndex p.1 = None) (fieldProperties fields))
    as Hnone.
  { unfold fieldProperties. apply Forall_fmap. eapply Forall_impl; [exact Hplain|].
    intros field Hfield. by apply plainField_parts in Hfield as (_ & _ & _ & ?). }
  assert (forall k, (k = "__proto__" \/ exists n, arrayIndex k = Some n) ->
            property k (fieldProperties fields) = None) as Hnew.
  { intros k Hk. apply property_new. unfold fieldProperties.
    rewrite <- list_fmap_compose. intros (field & -> & Hin)%list_elem_of_fmap.
    apply (proj1 (Forall_forall _ _) Hplain) in Hin.
    apply plainField_parts in Hin as (_ & _ & Hproto & Hindex). cbn in Hk.
    destruct Hk as [?|[n Hn]]; [done|congruence]. }
  split.
  - intros k n Hk Hindex. rewrite Hlast by done. unfold fm_set, addProperty.
    cbn [properties prototype]. rewrite Hnew by eauto.
    destruct (String.eqb_spec k "__proto__") as [->|_]; [done|]. cbn [andb].
    by rewrite Hindex, insertIndex_front.
  - rewrite Hlast by done. unfold fm_set. cbn [properties prototype].
    by rewrite Hnew by auto.
Qed.

End FrontmatterRoundTrip.

Lemma extractFrontmatter_round_trip_witness :
  let fields := [("title", "My note"); ("year", "2024"); ("draft", "")] in
  Forall (fun field => plainField field = true) fields
  /\ NoDup (map fst fields)
  /\ extractFrontmatter Host.parse (withFrontmatter fields (JS.nl ++ "text"))
     = mkFrontmatter
         [("title", JString "My note"); ("year", JString "2024"); ("draft", JString "")]
         ObjectPrototype.
Proof.
  cbn zeta. split; [repeat constructor|]. split; [|].
  - cbn [map fst]. repeat constructor; vm_compute; intros H;
      repeat (apply elem_of_cons in H as [H|H]; [discriminate H|]);
      by apply elem_of_nil in H.
  - apply (extractFrontmatter_round_trip Host.parse
             [("title", "My note"); ("year", "2024"); ("draft", "")]).
    + repeat constructor.
    + cbn [map fst]. repeat constructor; vm_compute; intros H;
        repeat (apply elem_of_cons in H as [H|H]; [discriminate H|]);
        by apply elem_of_nil in H.
Defined.

Lemma extractFrontmatter_special_keys_witness :
  let fields := [("b", "x"); ("title", "My note")] in
  Forall (fun field => plainField field = true) fields
  /\ NoDup (map fst fields)
  /\ plainValue "y" = true
  /\ wordKey "2" = true
  /\ arrayIndex "2" = Some 2%N
  /\ extractFrontmatter Host.parse (withFrontmatter (fields ++ [("2", "y")])%list JS.nl)
     = mkFrontmatter [("2", JString "y"); ("b", JString "x"); ("title", JString "My note")]
         ObjectPrototype
  /\ extractFrontmatter Host.parse (withFrontmatter (fields ++ [("__proto__", "y")])%list JS.nl)
     = mkFrontmatter [("b", JString "x"); ("title", JString "My note")] ObjectPrototype.
Proof.
  cbn zeta.
  assert (NoDup (map fst [("b", "x"); ("title", "My note")])) as Hkeys.
  { cbn [map fst]. repeat constructor; vm_compute; intros H;
      repeat (apply elem_of_cons in H as [H|H]; [discriminate H|]);
      by apply elem_of_nil in H. }
  split; [repeat constructor|]. split; [exact Hkeys|]. do 3 (split; [reflexivity|]).
  destruct (extractFrontmatter_special_keys Host.parse
              [("b", "x"); ("title", "My note")] "y" JS.nl) as [Hindex Hproto];
    [repeat constructor|exact Hkeys|reflexivity|].
  split; [exact (Hindex "2" 2%N eq_refl eq_refl)|exact Hproto].
Defined.

(** ** Quoted values *)

Lemma trimEnd_last (a : string) (q : ascii) :
  JS.is_space q = false -> JS.trimEnd (a ++ String q EmptyString) = a ++ String q EmptyString.
Proof.
  intros Hq. induction a as [|c a IH].
  - rewrite app_nil. cbn. by rewrite Hq.
  - rewrite app_cons. cbn [JS.trimEnd]. rewrite IH.
    destruct (a ++ String q EmptyString) eqn:Hs; [|done]. by destruct a.
Qed.

Lemma dropLastQuote_last (a : string) (q : ascii) :
  is_quote q = true -> dropLastQuote (a ++ String q EmptyString) = a.
Proof.
  intros Hq. induction a as [|c a IH].
  - rewrite app_nil. cbn. by rewrite Hq.
  - rewrite app_cons. cbn [dropLastQuote]. rewrite IH.
    destruct (a ++ String q EmptyString) eqn:Hs; [by destruct a|done].
Qed.

Lemma quote_no_space (q : ascii) : is_quote q = true -> JS.is_space q = false.
Proof. destruct q as [[] [] [] [] [] [] [] []]; vm_compute; intros H; done. Qed.

Section QuotedValues.

Variable JSON_parse : string -> option json.

(** X23: a value between quotes is read without them. A front-matter line
    [key: "value"], the key made of letters, digits and underscores and
    not [__proto__], gives the key the text between the quotes, spaces at
    its ends included, when that text has no line feed and does not start
    like an array or an object; the two quotes may be of different
    kinds. *)
Theorem extractFrontmatter_quoted (k v body : string) (q q' : ascii) :
  k <> EmptyString ->
  k <> "__proto__" ->
  all_chars JS.is_word k = true ->
  all_chars (not_char JS.LF) v = true ->
  is_quote q = true -> is_quote q' = true ->
  JS.startsWith v "[" || JS.startsWith v "{" = false ->
  extractFrontmatter JSON_parse
    (withFrontmatter [(k, String q (v ++ String q' EmptyString))] body)
  = mkFrontmatter [(k, JString v)] ObjectPrototype.
Proof.
  intros Hk Hproto Hword Hvalue Hq Hq' Hopen.
  set (quoted := String q (v ++ String q' EmptyString)).
  assert (all_chars (not_char JS.LF) (fieldLine (k, quoted)) = true) as Hline.
  { unfold fieldLine, quoted. cbn [fst snd]. rewrite !all_chars_app. cbn [all_chars].
    rewrite all_chars_app, Hvalue. cbn [all_chars].
    assert (all_chars (not_char JS.LF) k = true) as ->.
    { eapply all_chars_impl; [|exact Hword]. intros c Hc.
      by apply word_char_plain in Hc as (_ & _ & -> & _). }
    assert (forall x, is_quote x = true -> not_char JS.LF x = true) as Hnl.
    { intros x. destruct x as [[] [] [] [] [] [] [] []]; vm_compute; intros H; done. }
    by rewrite (Hnl q Hq), (Hnl q' Hq'). }
  unfold extractFrontmatter, frontmatterRegex, withFrontmatter. cbn [map JS.join_lines].
  set (l := fieldLine (k, quoted)) in *.
  change ("---" ++ JS.nl ++ l ++ JS.nl ++ "---" ++ body)
    with (("---" ++ JS.nl) ++ l ++ String JS.LF "---" ++ body).
  rewrite startsWith_app.
  change (JS.drop 4 (("---" ++ JS.nl) ++ l ++ String JS.LF "---" ++ body))
    with (l ++ String JS.LF "---" ++ body).
  change (JS.nl ++ "---") with (String JS.LF "---").
  rewrite before_first_text, split_lines_text by done. cbn [fold_left].
  subst l. unfold frontmatterLine, fieldLine. cbn [fst snd].
  assert (all_chars (fun d => negb (Ascii.eqb d ":")) k = true) as Hcolon.
  { eapply all_chars_impl; [|exact Hword]. intros c Hc.
    apply word_char_plain in Hc as (_ & -> & _). done. }
  assert (JS.trim k = k) as Hkey.
  { assert (all_chars (fun c => negb (JS.is_space c)) k = true) as Hspace.
    { eapply all_chars_impl; [|exact Hword]. intros c Hc.
      apply word_char_plain in Hc as (-> & _). done. }
    unfold JS.trim. destruct k as [|c k]; [done|].
    cbn [all_chars] in Hspace. apply andb_true_iff in Hspace as [Hc Hrest].
    cbn [JS.trimStart]. apply negb_true_iff in Hc. rewrite Hc.
    apply trimEnd_text. cbn [all_chars]. by rewrite Hc, Hrest. }
  change (k ++ ": " ++ quoted) with (k ++ String ":" (String " " quoted)).
  rewrite indexOf_app by done.
  destruct (String.length k) as [|i] eqn:Hlen; [by destruct k|].
  rewrite <- Hlen. rewrite take_app_length, drop_S_app_length, Hkey.
  assert (stripQuotes (JS.trim (String " " quoted)) = v) as ->.
  { unfold JS.trim. cbn [JS.trimStart]. change (JS.is_space " ") with true. cbn iota.
    unfold quoted. cbn [JS.trimStart]. rewrite (quote_no_space q Hq).
    change (String q (v ++ String q' EmptyString))
      with (String q v ++ String q' EmptyString).
    rewrite trimEnd_last by (by apply quote_no_space).
    unfold stripQuotes. rewrite app_cons. cbn [dropFirstQuote]. rewrite Hq.
    by apply dropLastQuote_last. }
  rewrite Hopen. by apply fm_set_first.
Qed.

End QuotedValues.

Lemma extractFrontmatter_quoted_witness :
  "title" <> EmptyString
  /\ "title" <> "__proto__"
  /\ all_chars JS.is_word "title" = true
  /\ all_chars (not_char JS.LF) " My: note " = true
  /\ is_quote JS.DQ = true /\ is_quote "'" = true
  /\ JS.startsWith " My: note " "[" || JS.startsWith " My: note " "{" = false
  /\ extractFrontmatter Host.parse
       (withFrontmatter [("title", String JS.DQ (" My: note " ++ String "'" EmptyString))]
          (JS.nl ++ "text"))
     = mkFrontmatter [("title", JString " My: note ")] ObjectPrototype.
Proof.
  split; [discriminate|]. split; [discriminate|]. do 5 (split; [reflexivity|]).
  apply (extractFrontmatter_quoted Host.parse "title" " My: note " (JS.nl ++ "text") JS.DQ "'");
    first [discriminate | reflexivity].
Defined.

(** ** The direction of isConnected *)

Lemma linkChain_snoc (v : Vault) (files : list string) (n : nat) (x y z : string) :
  linkChain v files n x y -> linksTo v files y z -> linkChain v files (S n) x z.
Proof.
  induction 1 as [x|n x w y Hxw _ IH]; intros Hlink.
  - econstructor; [exact Hlink|constructor].
  - econstructor; [exact Hxw|by apply IH].
Qed.

Section Direction.

Variable v : Vault.
Variable files : list string.
Hypothesis Hplain : plainLinks v files = true.

(** Under [plainLinks], what stands in a forward set is no listed file. *)
Lemma forward_member_unlisted (x y : string) :
  y ∈ linksOf (fold_left (indexFile v files) files emptyGraph) x -> y ∉ files.
Proof.
  destruct (indexFile_fold_spec v files files x x) as [-> _].
  destruct (readFile v x) as [text|] eqn:Hread; [|by rewrite elem_of_nil].
  case_bool_decide as Hx; [|by rewrite elem_of_nil].
  rewrite elem_of_newSet. intros Hy.
  unfold plainLinks in Hplain. rewrite forallb_forall in Hplain.
  specialize (Hplain x (proj1 (list_elem_of_In _ _) Hx)). rewrite Hread in Hplain.
  rewrite forallb_forall in Hplain.
  specialize (Hplain y (proj1 (list_elem_of_In _ _) Hy)).
  apply negb_true_iff, bool_decide_eq_false in Hplain. done.
Qed.

(** From what is no listed file no hop leads on. *)
Lemma unlisted_dead_end (x y : string) :
  x ∉ files -> ~ edge (fold_left (indexFile v files) files emptyGraph) x y.
Proof.
  intros Hx [Hy|Hy].
  - destruct (indexFile_fold_spec v files files x x) as [Hforward _].
    rewrite Hforward in Hy. destruct (readFile v x); [|by apply elem_of_nil in Hy].
    rewrite bool_decide_eq_false_2 in Hy by done. by apply elem_of_nil in Hy.
  - destruct (indexFile_fold_spec v files files y x) as [_ Hback].
    apply Hback in Hy as (_ & text & link & _ & _ & Hres).
    by apply resolveLink_listed in Hres.
Qed.

Lemma hops_linkChain (n : nat) (a b : string) :
  b ∈ files ->
  hops (fold_left (indexFile v files) files emptyGraph) n a b ->
  linkChain v files n b a.
Proof.
  intros Hb. induction 1 as [x|n x y z Hedge Hhops IH]; [constructor|].
  destruct Hedge as [Hforward|Hback].
  - exfalso. apply forward_member_unlisted in Hforward.
    inversion Hhops as [|? ? w ? Hedge' _]; subst; [done|].
    by apply (unlisted_dead_end y w).
  - eapply linkChain_snoc; [by apply IH|].
    destruct (indexFile_fold_spec v files files y x) as [_ Hspec].
    by apply Hspec in Hback.
Qed.

Lemma linkChain_hops (n : nat) (a b : string) :
  linkChain v files n b a ->
  hops (fold_left (indexFile v files) files emptyGraph) n a b.
Proof.
  induction 1 as [x|n x y z Hlink _ IH]; [constructor|].
  eapply hops_snoc; [exact IH|]. right.
  destruct (indexFile_fold_spec v files files x y) as [_ Hspec]. by apply Hspec.
Qed.

End Direction.

(** X24: the direction of [isConnected]. When no link of the vault is, as
    it is written, the path of a listed file, [isConnected(a, b, maxDepth)]
    for a listed file [b] says that [a] is [b] or that [b] reaches [a]
    over at most [maxDepth] links that resolve: the loop goes from [a]
    against the links, and never along them. *)
Theorem isConnected_against_links (v : Vault) (files : list string) (g : LinkGraph)
    (a b : string) (depth : Z) :
  getAllMarkdownFiles v = Resolved files ->
  buildLinkGraph v = Resolved g ->
  plainLinks v files = true ->
  b ∈ files ->
  (isConnected g a b depth = true
   <-> a = b \/ exists n, Z.of_nat n <= depth /\ linkChain v files n b a).
Proof.
  unfold buildLinkGraph. intros -> [= <-] Hplain Hb. rewrite isConnected_hops.
  split; (intros [?|(n & Hn & Hpath)]; [by left|right; exists n; split; [done|]]).
  - by apply hops_linkChain.
  - by apply linkChain_hops.
Qed.

Lemma isConnected_against_links_witness :
  let files := ["A.md"; "B.md"] in
  let g := fold_left (indexFile twoNotes files) files emptyGraph in
  getAllMarkdownFiles twoNotes = Resolved files
  /\ buildLinkGraph twoNotes = Resolved g
  /\ plainLinks twoNotes files = true
  /\ "A.md" ∈ files
  /\ isConnected g "B.md" "A.md" 1 = true
  /\ (isConnected g "B.md" "A.md" 1 = true
      <-> "B.md" = "A.md"
          \/ exists n, Z.of_nat n <= 1 /\ linkChain twoNotes files n "A.md" "B.md").
Proof.
  cbn zeta. do 3 (split; [reflexivity|]). split; [repeat constructor|].
  split; [vm_compute; reflexivity|].
  apply (isConnected_against_links twoNotes ["A.md"; "B.md"]);
    first [reflexivity | repeat constructor].
Defined.

(** ** What the walk lists *)

Lemma walkEntries_lists (dir : string) (entries : list Dirent) :
  Forall (fun e => forall dir acc acc' p,
            walkEntry dir e acc = Resolved acc' ->
            (p ∈ acc' <-> p ∈ acc \/ lists dir e p)) entries ->
  forall acc acc' p,
    walkEntries dir entries acc = Resolved acc' ->
    (p ∈ acc' <-> p ∈ acc \/ exists e, e ∈ entries /\ lists dir e p).
Proof.
  induction 1 as [|e entries He _ IH]; intros acc acc' p; cbn [walkEntries].
  - intros [= <-]. split; [by left|]. intros [?|(e & He & _)]; [done|].
    by apply elem_of_nil in He.
  - destruct (walkEntry dir e acc) as [acc1|] eqn:Hwalk; [|done]. cbn [obind].
    intros Hrest. rewrite (IH acc1 acc' p Hrest), (He dir acc acc1 p Hwalk).
    setoid_rewrite elem_of_cons. naive_solver.
Qed.

Lemma walkEntry_lists (entry : Dirent) :
  forall dir acc acc' p,
    walkEntry dir entry acc = Resolved acc' ->
    (p ∈ acc' <-> p ∈ acc \/ lists dir entry p).
Proof.
  induction entry as [name|name|name|name entries IH] using Dirent_nested_ind;
    intros dir acc acc' p.
  - cbn [walkEntry entryName]. destruct (skipped name) eqn:Hskip.
    { intros [= <-]. split; [by left|]. intros [?|Hl]; [done|]. inversion Hl; congruence. }
    destruct (JS.endsWith name ".md") eqn:Hmd; intros [= <-].
    + rewrite elem_of_app, list_elem_of_singleton. split.
      * intros [?| ->]; [by left|]. right. by constructor.
      * intros [?|Hl]; [by left|]. right. by inversion Hl.
    + split; [by left|]. intros [?|Hl]; [done|]. inversion Hl; congruence.
  - cbn [walkEntry entryName]. destruct (skipped name); intros [= <-];
      (split; [by left|]); intros [?|Hl]; try done; inversion Hl.
  - cbn [walkEntry entryName]. destruct (skipped name); [|done]. intros [= <-].
    split; [by left|]. intros [?|Hl]; [done|]. inversion Hl.
  - rewrite walkEntry_directory. destruct (skipped name) eqn:Hskip.
    { intros [= <-]. split; [by left|]. intros [?|Hl]; [done|]. inversion Hl; congruence. }
    intros Hwalk. rewrite (walkEntries_lists _ entries IH acc acc' p Hwalk). split.
    + intros [?|(e & He & Hl)]; [by left|]. right. by econstructor.
    + intros [?|Hl]; [by left|]. right. inversion Hl; subst. eauto.
Qed.

(** X25: the listing of [getAllMarkdownFiles] holds exactly the Markdown
    files of the tree that the walk comes to: a path is listed when it is
    the path of a file whose name ends with [.md], and neither the file nor
    a directory above it has a name that starts with a dot or is
    [node_modules]. *)
Theorem walkVault_lists (root : list Dirent) (read : string -> outcome string)
    (files : list string) (p : string) :
  getAllMarkdownFiles (diskVault (Resolved root) read) = Resolved files ->
  (p ∈ files <-> exists e, e ∈ root /\ lists EmptyString e p).
Proof.
  unfold getAllMarkdownFiles, diskVault, walkVault, walk. cbn [listing obind].
  intros Hwalk.
  rewrite (walkEntries_lists EmptyString root
             (proj2 (Forall_forall _ _) (fun e _ => walkEntry_lists e)) [] files p Hwalk).
  rewrite elem_of_nil. tauto.
Qed.

Lemma walkVault_lists_witness :
  getAllMarkdownFiles (diskVault (Resolved smallTree) (fun _ => Rejected))
  = Resolved ["A.md"; "notes/B.md"]
  /\ ("notes/B.md" ∈ ["A.md"; "notes/B.md"]
      <-> exists e, e ∈ smallTree /\ lists EmptyString e "notes/B.md").
Proof.
  split; [reflexivity|].
  apply (walkVault_lists smallTree (fun _ => Rejected)). reflexivity.
Defined.

(** ** Orphans *)

Section Orphans.

Variable JSON_parse : string -> option json.

(** X26: the entries of [graphSearch] without orphans are the entries of
    [graphSearch] with orphans that do not pass the test of the orphans
    of the test script, in the same order, for every depth and start file.
    The script finds its orphans among the entries that [includeOrphans]
    adds, and only there. *)
Theorem graphSearch_orphans_partition (v : Vault) (depth : option Z) (seed : option string) :
  graphSearch JSON_parse v (mkGraphSearchOptions depth seed (Some false))
  = obind (graphSearch JSON_parse v (mkGraphSearchOptions depth seed (Some true)))
      (fun entries => Resolved (List.filter (fun r => negb (isOrphan r)) entries))
  /\ graphSearch JSON_parse v (mkGraphSearchOptions depth seed None)
     = graphSearch JSON_parse v (mkGraphSearchOptions depth seed (Some false)).
Proof.
  split; [|done].
  unfold graphSearch. cbn [maxDepth startFile includeOrphans].
  change (default false (Some false)) with false.
  change (default false (Some true)) with true.
  destruct (buildLinkGraph v) as [g|]; cbn [obind]; [|done].
  destruct (getAllMarkdownFiles v) as [files|]; cbn [obind]; [|done]. f_equal.
  assert (forall f,
            graphEntry JSON_parse v g (default 2 depth) seed false f
            = match graphEntry JSON_parse v g (default 2 depth) seed true f with
              | Some r => if negb (isOrphan r) then Some r else None
              | None => None
              end) as Hentry.
  { intros f. unfold graphEntry. destruct (readFile v f) as [text|]; [|done].
    destruct (match seed with Some _ => _ | None => _ end); [done|].
    cbn [negb andb]. unfold isOrphan. cbn [outgoingLinks incomingLinks].
    by destruct (_ && _). }
  induction files as [|f files IH]; [done|]. cbn [omap list_omap].
  rewrite IH, Hentry.
  destruct (graphEntry JSON_parse v g (default 2 depth) seed true f) as [r|]; [|done].
  cbn [List.filter]. by destruct (negb (isOrphan r)).
Qed.

End Orphans.

(** ** The values of a fuzzy score *)

(** The first part of a text split at spaces starts the text. *)
Lemma split_spaces_first (s : string) :
  exists p ps r, JS.split_spaces_from false s = p :: ps /\ s = p ++ r.
Proof.
  induction s as [|c s IH]; cbn [JS.split_spaces_from].
  - by exists EmptyString, [], EmptyString.
  - destruct (JS.is_space c).
    + by exists EmptyString, (JS.split_spaces_from true s), (String c s).
    + destruct IH as (p & ps & r & -> & ->). by exists (String c p), ps, r.
Qed.

(** Every part of a text split at spaces is a part of the text. *)
Lemma split_spaces_includes (s : string) :
  forall in_run part, part ∈ JS.split_spaces_from in_run s -> JS.includes s part = true.
Proof.
  induction s as [|c s IH]; intros in_run part; cbn [JS.split_spaces_from].
  - by intros ->%list_elem_of_singleton.
  - assert (forall b, part ∈ JS.split_spaces_from b s -> JS.includes (String c s) part = true)
      as Hlater.
    { intros b Hin. cbn [JS.includes]. by rewrite (IH b part Hin), orb_true_r. }
    destruct (JS.is_space c).
    + destruct in_run; [apply Hlater|].
      intros [->|Hin]%elem_of_cons; [apply includes_empty|by eapply Hlater].
    + destruct (split_spaces_first s) as (p & ps & r & Hsplit & Hs). rewrite Hsplit.
      intros [->|Hin]%elem_of_cons.
      * cbn [JS.includes]. rewrite Hs.
        change (String c (p ++ r)) with (String c p ++ r). by rewrite startsWith_app.
      * apply (Hlater false). rewrite Hsplit. by right.
Qed.

(** A text that holds the query holds every part of the query. *)
Lemma includes_query_parts (text ql : string) :
  JS.includes text ql = true ->
  forallb (fun part => JS.includes text part) (JS.split_spaces ql) = true.
Proof.
  intros Hq. apply forallb_forall. intros part Hpart%list_elem_of_In.
  eapply includes_trans; [exact Hq|]. by eapply split_spaces_includes.
Qed.

Section ScoreValues.

Variable JSON_parse : string -> option json.

(** X27: the values of a fuzzy score. The signal of all the parts of the
    query fires whenever the signal of the whole query does, for the file
    name and for the content, so the file name gives 0, 30, 80, 100, 130 or
    180 and the content 0, 10 or 30; every scored file has 10 at least
    and 210 at most. *)
Theorem fuzzy_score_values (v : Vault) (queryText name text f : string) (x : Scored) :
  let queryLower := JS.toLowerCase queryText in
  let queryParts := JS.split_spaces queryLower in
  In (filenameScore queryLower queryParts name) [0; 30; 80; 100; 130; 180]
  /\ In (contentScore queryLower queryParts text) [0; 10; 30]
  /\ (scoreFile JSON_parse v queryLower queryParts f = Some x -> 10 <= score x <= 210).
Proof.
  intros ql parts.
  assert (forall name, In (filenameScore ql parts name) [0; 30; 80; 100; 130; 180]) as Hname.
  { intros n. unfold filenameScore.
    destruct (JS.includes n ql) eqn:Hin.
    - subst parts. rewrite includes_query_parts by done.
      destruct (String.eqb _ ql); cbn; tauto.
    - destruct (String.eqb _ ql), (forallb _ parts); cbn; tauto. }
  assert (forall text, In (contentScore ql parts text) [0; 10; 30]) as Htext.
  { intros t. unfold contentScore.
    destruct (JS.includes t ql) eqn:Hin.
    - subst parts. rewrite includes_query_parts by done. cbn; tauto.
    - destruct (forallb _ parts); cbn; tauto. }
  split; [apply Hname|]. split; [apply Htext|].
  unfold scoreFile. destruct (readFile v f) as [t|]; [|done].
  pose proof (Hname (JS.toLowerCase (Path.basename f))) as H1.
  pose proof (Htext (JS.toLowerCase t)) as H2.
  destruct (Z.gtb_spec (filenameScore ql parts (JS.toLowerCase (Path.basename f))
                        + contentScore ql parts (JS.toLowerCase t)) 0) as [Hpos|]; [|done].
  intros [= <-]. cbn [score]. cbn [In] in H1, H2. lia.
Qed.

End ScoreValues.

(** ** Links that resolve *)

Lemma find_first {A} (p : A -> bool) (l : list A) (x : A) :
  x ∈ l -> p x = true ->
  exists before y after,
    l = (before ++ y :: after)%list /\ List.find p l = Some y /\ p y = true
    /\ Forall (fun z => p z = false) before
    /\ (y = x \/ x ∈ after).
Proof.
  induction l as [|z l IH]; intros Hin Hx; [by apply elem_of_nil in Hin|].
  cbn [List.find]. destruct (p z) eqn:Hz.
  - exists [], z, l. repeat split; [done|constructor|].
    apply elem_of_cons in Hin as [-> |?]; auto.
  - apply elem_of_cons in Hin as [->|Hin]; [congruence|].
    destruct (IH Hin Hx) as (before & y & after & -> & Hfind & Hy & Hbefore & Hpos).
    exists (z :: before), y, after. repeat split; try done. by constructor.
Qed.

(** X28: a link that names a listed note resolves. When a listed file has
    the path of the link with [.md] added, or ends with a slash, the link
    and [.md], the link resolves to a listed file that passes one of the
    three tests of [buildLinkGraph]: this file or one that stands before
    it in the listing, the first that passes. *)
Theorem resolveLink_named (files : list string) (link f : string) :
  f ∈ files ->
  f = link ++ ".md" \/ JS.endsWith f (Path.sep ++ link ++ ".md") = true ->
  exists before target after,
    files = (before ++ target :: after)%list
    /\ resolveLink files link = Some target
    /\ (target = f \/ f ∈ after)
    /\ Forall (fun z => resolveLink [z] link = None) before
    /\ resolveLink [target] link = Some target.
Proof.
  intros Hin Hname. unfold resolveLink.
  set (test := fun f0 : string =>
                 String.eqb (Path.basename_ext f0 ".md") link
                 || String.eqb f0 (link ++ ".md")
                 || JS.endsWith f0 (Path.sep ++ link ++ ".md")).
  assert (test f = true) as Hf.
  { unfold test. destruct Hname as [-> | ->]; [|by rewrite orb_true_r].
    by rewrite String.eqb_refl, orb_true_r. }
  destruct (find_first test files f Hin Hf)
    as (before & target & after & -> & Hfind & Htarget & Hbefore & Hpos).
  exists before, target, after. split; [done|]. split; [done|]. split; [done|]. split.
  - eapply Forall_impl; [exact Hbefore|]. intros z Hz. cbn [List.find]. by rewrite Hz.
  - cbn [List.find]. by rewrite Htarget.
Qed.

Lemma resolveLink_named_witness :
  "y/B.md" ∈ ["A.md"; "x/B.md"; "y/B.md"]
  /\ ("y/B.md" = "B" ++ ".md" \/ JS.endsWith "y/B.md" (Path.sep ++ "B" ++ ".md") = true)
  /\ resolveLink ["A.md"; "x/B.md"; "y/B.md"] "B" = Some "x/B.md"
  /\ exists before target after,
       ["A.md"; "x/B.md"; "y/B.md"] = (before ++ target :: after)%list
       /\ resolveLink ["A.md"; "x/B.md"; "y/B.md"] "B" = Some target
       /\ (target = "y/B.md" \/ "y/B.md" ∈ after)
       /\ Forall (fun z => resolveLink [z] "B" = None) before
       /\ resolveLink [target] "B" = Some target.
Proof.
  split; [repeat constructor|]. split; [right; reflexivity|]. split; [reflexivity|].
  apply (resolveLink_named ["A.md"; "x/B.md"; "y/B.md"] "B" "y/B.md");
    [repeat constructor|right; reflexivity].
Defined.

(** ** The stored forms of the tags *)

Lemma dropLastQuote_keep (a : string) (q : ascii) :
  is_quote q = false ->
  dropLastQuote (a ++ String q EmptyString) = a ++ String q EmptyString.
Proof.
  intros Hq. induction a as [|c a IH].
  - rewrite app_nil. cbn. by rewrite Hq.
  - rewrite app_cons. cbn [dropLastQuote]. rewrite IH.
    destruct (a ++ String q EmptyString) eqn:Hs; [by destruct a|done].
Qed.

(** The items of an array of tags that are strings are in the set after
    the loop over the array. *)
Lemma elem_of_fold_tag_add_items (t : string) (items : list json) :
  forall s, JString t ∈ s \/ JString t ∈ items ->
            JString t ∈ fold_left (fun s tag => tag_add tag s) items s.
Proof.
  induction items as [|x items IH]; intros s; cbn [fold_left].
  - intros [?|Hin]; [done|by apply elem_of_nil in Hin].
  - intros [Hs|[<-|Hin]%elem_of_cons]; apply IH.
    + left. by apply elem_of_tag_add.
    + left. apply elem_of_tag_add_string.
    + by right.
Qed.

(** Strings that differ from one another and from what the set holds go to
    its end in their order. *)
Lemma fold_tag_add_distinct (ws : list string) :
  forall s : list json,
    NoDup ws -> (forall w, w ∈ ws -> JString w ∉ s) ->
    fold_left (fun s tag => tag_add tag s) (map JString ws) s = (s ++ map JString ws)%list.
Proof.
  induction ws as [|w ws IH]; intros s Hnodup Hnew; cbn [map fold_left].
  { by rewrite app_nil_r. }
  apply NoDup_cons in Hnodup as [Hw Hnodup].
  assert (tag_add (JString w) s = (s ++ [JString w])%list) as ->.
  { unfold tag_add. destruct (existsb (sameValueZero (JString w)) s) eqn:Hin; [|done].
    apply existsb_sameValueZero_string in Hin. exfalso. apply (Hnew w); [left|done]. }
  rewrite IH; [by rewrite <- app_assoc|done|].
  intros w' Hw'. rewrite elem_of_app, list_elem_of_singleton.
  intros [Hs|[= ->]]; [|done]. apply (Hnew w'); [by right|done].
Qed.

Ltac string_normal := repeat rewrite ?app_cons, ?app_nil, ?string_app_assoc.

Lemma inlineTags_array (w : string) :
  w <> EmptyString -> all_chars is_tag_char w = true ->
  inlineTags (taggedInArray w) = [String "#" w].
Proof.
  intros Hne Hw. unfold inlineTags.
  replace (taggedInArray w)
    with (("---" ++ JS.nl ++ "tags: [" ++ String JS.DQ EmptyString)
          ++ w ++ (String JS.DQ "]" ++ JS.nl ++ "---" ++ JS.nl) ++ String "#" w)
    by (unfold taggedInArray, arrayOf, JS.nl; string_normal; reflexivity).
  rewrite scan_tags_text by reflexivity.
  rewrite scan_tags_text by (by apply tag_word_plain).
  rewrite scan_tags_text by reflexivity.
  by apply scan_tags_word.
Qed.

Section StoredForms.

Variable JSON_parse : string -> option json.
Variable JSON_stringify : json -> string.

(** The front matter of the note with the array: the field holds what
    [JSON.parse] makes of the text of the array. *)
Lemma extractFrontmatter_array (w : string) (parsed : json) :
  all_chars is_tag_char w = true ->
  JSON_parse (arrayOf w) = Some parsed ->
  extractFrontmatter JSON_parse (taggedInArray w)
  = mkFrontmatter [("tags", parsed)] ObjectPrototype.
Proof.
  intros Hw Hparse.
  assert (all_chars (not_char JS.LF) ("tags: " ++ arrayOf w) = true) as Hline.
  { unfold arrayOf. rewrite !all_chars_app. cbn [all_chars].
    assert (all_chars (not_char JS.LF) w = true) as -> by (by apply tag_word_plain).
    reflexivity. }
  unfold extractFrontmatter, frontmatterRegex.
  replace (taggedInArray w)
    with (("---" ++ JS.nl)
          ++ ("tags: " ++ arrayOf w) ++ String JS.LF "---" ++ String JS.LF (String "#" w))
    by (unfold taggedInArray, JS.nl; string_normal; reflexivity).
  rewrite startsWith_app.
  change (JS.drop 4 (("---" ++ JS.nl) ++ ("tags: " ++ arrayOf w) ++ String JS.LF "---"
                     ++ String JS.LF (String "#" w)))
    with (("tags: " ++ arrayOf w) ++ String JS.LF "---" ++ String JS.LF (String "#" w)).
  change (JS.nl ++ "---") with (String JS.LF "---").
  rewrite before_first_text, split_lines_text by done. cbn [fold_left].
  unfold frontmatterLine. rewrite !app_cons, !app_nil.
  cbn [JS.indexOf Ascii.eqb Bool.eqb option_map JS.take JS.drop].
  change (JS.trim "tags") with "tags".
  assert (stripQuotes (JS.trim (String " " (arrayOf w))) = arrayOf w) as ->.
  { assert (arrayOf w
            = String "[" (String JS.DQ (w ++ String JS.DQ EmptyString)) ++ String "]" EmptyString)
      as -> by (unfold arrayOf; string_normal; reflexivity).
    unfold JS.trim. cbn [JS.trimStart]. change (JS.is_space " ") with true. cbn iota.
    rewrite app_cons. cbn [JS.trimStart]. change (JS.is_space "[") with false. cbn iota.
    rewrite <- app_cons, trimEnd_last by reflexivity.
    unfold stripQuotes. rewrite app_cons. cbn [dropFirstQuote].
    change (is_quote "[") with false. cbn iota. rewrite <- app_cons.
    by apply dropLastQuote_keep. }
  assert (JS.startsWith (arrayOf w) "[" = true) as -> by reflexivity.
  cbn [orb]. by rewrite Hparse.
Qed.

(** C10: in the tag set of a note, an inline tag is stored with its hash
    and a tag of the front-matter [tags] field as the field holds it,
    without one, whether the field is one string or an array. A word [w]
    that is a tag both ways gives the two entries [w] and [#w], with the
    field [tags: w] and with the field [tags: ["w"]]. The strings of an
    array in the field are in the set, and when they differ from one
    another they are its first entries, in their order; the inline tags
    follow, each with its hash. A search by tag selects a note when the
    query is contained, letter case apart, in one of the stored forms. *)
Theorem tags_stored_forms (w : string) :
  w <> EmptyString -> all_chars is_tag_char w = true ->
  extractTags JSON_parse (taggedBothWays w) = [JString w; JString (String "#" w)]
  /\ w <> String "#" w
  /\ (forall text tag,
        tag ∈ inlineTags text ->
        JS.startsWith tag "#" = true /\ JString tag ∈ extractTags JSON_parse text)
  /\ (forall text s,
        fm_get "tags" (extractFrontmatter JSON_parse text) = Some (JString s) ->
        s <> EmptyString ->
        JString s ∈ extractTags JSON_parse text)
  /\ (forall fileName text queryText stored,
        extractTags JSON_parse text = map JString stored ->
        selected JSON_parse JSON_stringify fileName text (JS.toLowerCase queryText) ByTags
        = Resolved (existsb
                      (fun tag => JS.includes (JS.toLowerCase tag) (JS.toLowerCase queryText))
                      stored))
  /\ (JSON_parse (arrayOf w) = Some (JArray [JString w]) ->
      extractTags JSON_parse (taggedInArray w) = [JString w; JString (String "#" w)])
  /\ (forall text items s,
        fm_get "tags" (extractFrontmatter JSON_parse text) = Some (JArray items) ->
        JString s ∈ items ->
        JString s ∈ extractTags JSON_parse text)
  /\ (forall text ws,
        fm_get "tags" (extractFrontmatter JSON_parse text) = Some (JArray (map JString ws)) ->
        NoDup ws ->
        exists inline,
          extractTags JSON_parse text = (map JString ws ++ map JString inline)%list
          /\ Forall (fun tag => JS.startsWith tag "#" = true) inline).
Proof.
  intros Hne Hw.
  assert (forall s, tag_add (JString (String "#" w)) [JString s]
                    = if String.eqb (String "#" w) s then [JString s]
                      else [JString s; JString (String "#" w)]) as Hadd.
  { intros s. unfold tag_add. cbn [existsb sameValueZero orb].
    rewrite orb_false_r. by destruct (String.eqb (String "#" w) s). }
  assert (String.eqb (String "#" w) w = false) as Hhash.
  { apply String.eqb_neq. apply string_neq_cons. }
  split.
  { unfold extractTags. rewrite extractFrontmatter_tagged, inlineTags_tagged by done.
    unfold frontmatterTags, fm_get. cbn [properties property String.eqb Ascii.eqb Bool.eqb truthy].
    destruct (String.eqb_spec w EmptyString) as [?|_]; [done|]. cbn [negb fold_left].
    by rewrite Hadd, Hhash. }
  split.
  { intros Heq. symmetry in Heq. by apply string_neq_cons in Heq. }
  split.
  { intros text tag Htag. split; [by eapply inlineTags_hash|].
    unfold extractTags. by apply elem_of_fold_tag_add_string. }
  split.
  { intros text s Hfm Hs. unfold extractTags. apply elem_of_fold_tag_add.
    unfold frontmatterTags. rewrite Hfm. cbn [truthy].
    apply String.eqb_neq in Hs. rewrite Hs. cbn. apply list_elem_of_singleton. done. }
  split.
  { intros fileName text queryText stored Hstored. cbn [selected].
    rewrite Hstored. apply someTag_strings. }
  split.
  { intros Hparse. unfold extractTags.
    rewrite (extractFrontmatter_array w _ Hw Hparse), inlineTags_array by done.
    unfold frontmatterTags, fm_get. cbn [properties property String.eqb Ascii.eqb Bool.eqb truthy].
    cbn [fold_left]. change (tag_add (JString w) []) with [JString w].
    by rewrite Hadd, Hhash. }
  split.
  { intros text items s Hfm Hin. unfold extractTags. apply elem_of_fold_tag_add.
    unfold frontmatterTags. rewrite Hfm. cbn [truthy].
    apply elem_of_fold_tag_add_items. by right. }
  intros text ws Hfm Hnodup. unfold extractTags, frontmatterTags. rewrite Hfm. cbn [truthy].
  rewrite fold_tag_add_distinct; [|done|intros w' _ Hin; by apply elem_of_nil in Hin].
  cbn [app].
  destruct (fold_tag_add_strings (inlineTags text) (map JString ws))
    as (added & -> & _ & Hadded).
  exists added. split; [done|]. apply Forall_forall. intros tag [Htag _]%Hadded.
  by eapply inlineTags_hash.
Qed.

End StoredForms.

Lemma tags_stored_forms_witness :
  extractTags Host.parse (taggedBothWays "work") = [JString "work"; JString "#work"]
  /\ extractTags Host.parse (taggedInArray "work") = [JString "work"; JString "#work"]
  /\ selected Host.parse Host.stringify "Meeting.md" (taggedBothWays "work")
       (JS.toLowerCase "#Work") ByTags
     = Resolved true
  /\ selected Host.parse Host.stringify "Meeting.md" (taggedBothWays "work")
       (JS.toLowerCase "work#") ByTags
     = Resolved false.
Proof.
  destruct (tags_stored_forms Host.parse Host.stringify "work")
    as (Htags & _ & _ & _ & Hsearch & Harray & _); [discriminate|reflexivity|].
  split; [exact Htags|]. split; [exact (Harray eq_refl)|].
  split; [exact (Hsearch "Meeting.md" _ "#Work" ["work"; "#work"] Htags)
         |exact (Hsearch "Meeting.md" _ "work#" ["work"; "#work"] Htags)].
Defined.
